(** * Live audio analyzer: a shallow embedding of the analysis core

    The Python sources [live_audio_analyzer-v4.py] and
    [industry_voice_detection.py] are embedded as Rocq functions:

    - Python floats are embedded as rationals [Q] (exact arithmetic), the
      monotonic clock reading [time.time()] is an explicit argument of every
      function that samples it;
    - detector objects become records of their fields, methods become
      functions from the old state to the new state and the result;
    - [collections.deque(maxlen=n)] is a list whose oldest entries are
      dropped on append;
    - numerical library kernels whose values do not matter for a property
      (roots of a polynomial, logarithms) are section variables;
    - result dictionaries are finite maps from keys to Python values, and
      methods that can raise live in a state and exception monad;
    - the Fourier transform behind the voice-activity check is embedded
      over the reals [R]. *)

From stdpp Require Import gmap strings pretty.
From Stdlib Require Import QArith Qround Qabs ZArith List Lia Bool Reals Psatz.
From Stdlib Require Import Sorted.
Import ListNotations.

Open Scope Q_scope.

(** ** Numbers *)

Module Num.

(** Comparisons of floats, as booleans. *)
Definition Qltb (x y : Q) : bool :=
  match x ?= y with Lt => true | _ => false end.

Definition Qleb (x y : Q) : bool :=
  match x ?= y with Gt => false | _ => true end.

(** Python's [min(a, b)] and [max(a, b)]: the first argument wins ties. *)
Definition pymin (a b : Q) : Q := if Qltb b a then b else a.
Definition pymax (a b : Q) : Q := if Qltb a b then b else a.

(** Python's [int(x)] on a float: truncation towards zero. *)
Definition py_int (x : Q) : Z := Z.quot (Qnum x) (Zpos (Qden x)).

(** Python's [round(x)] on a float: nearest integer, ties to even. *)
Definition py_round (x : Q) : Z :=
  let f := Qfloor x in
  let r := x - inject_Z f in
  if Qltb r (1 # 2) then f
  else if Qltb (1 # 2) r then (f + 1)%Z
  else if Z.even f then f else (f + 1)%Z.

(** [numpy.sum] of a vector. *)
Definition qsum (l : list Q) : Q := fold_right Qplus 0 l.

(** Insertion into a sorted list, and sorting, as [numpy.sort]. *)
Fixpoint insert_sorted (x : Q) (l : list Q) : list Q :=
  match l with
  | [] => [x]
  | y :: l' => if Qleb x y then x :: l else y :: insert_sorted x l'
  end.

Definition qsort (l : list Q) : list Q := fold_right insert_sorted [] l.

(** [numpy.median]: the middle element of the sorted data, or the mean of
    the two middle elements when the length is even. *)
Definition median (l : list Q) : Q :=
  let s := qsort l in
  let n := length s in
  if Nat.even n
  then (nth (n / 2 - 1) s 0 + nth (n / 2) s 0) / 2
  else nth (n / 2) s 0.

(** Median absolute deviation: [np.median(np.abs(a - median))]. *)
Definition mad (l : list Q) : Q :=
  let m := median l in
  median (map (fun x => Qabs (x - m)) l).

(** Python slice [l[a:b]] with non-negative bounds. *)
Definition slice {A} (a b : nat) (l : list A) : list A :=
  firstn (b - a) (skipn a l).

(** [deque(maxlen=n).append(x)]. *)
Definition deque_append {A} (maxlen : nat) (x : A) (d : list A) : list A :=
  let d' := d ++ [x] in
  skipn (length d' - maxlen) d'.

End Num.

Import Num.

(** ** Constants of [live_audio_analyzer-v4.py] *)

Definition SAMPLE_RATE : Z := 48000.
Definition CHUNK_SIZE : nat := 512.
Definition FFT_SIZE : nat := 2048.

(** ** EnhancedKickDetector *)

Module Kick.

Record State := mkState {
  sample_rate : Z;
  sensitivity : Q;
  prev_magnitude : option (list Q);
  sub_flux_history : list Q;
  body_flux_history : list Q;
  click_flux_history : list Q;
  last_kick_time : Q;
  kick_detected : bool;
  kick_strength : Q;
  kick_velocity : Z;
  display_strength : Q;
  display_velocity : Z;
  last_detection_time : Q
}.

Definition sub_bass_range : Z * Z := (20, 60)%Z.
Definition kick_body_range : Z * Z := (60, 120)%Z.
Definition kick_click_range : Z * Z := (2000, 5000)%Z.
Definition min_kick_interval : Q := 1 # 10.
Definition decay_rate : Q := 92 # 100.
Definition hold_time : Q := 2 # 10.
Definition history_maxlen : nat := 21.

(** [__init__]. *)
Definition init (sr : Z) (sens : Q) : State :=
  {| sample_rate := sr; sensitivity := sens;
     prev_magnitude := None;
     sub_flux_history := []; body_flux_history := []; click_flux_history := [];
     last_kick_time := 0;
     kick_detected := false; kick_strength := 0; kick_velocity := 0;
     display_strength := 0; display_velocity := 0;
     last_detection_time := 0 |}.

Inductive band := Sub | Body | Click.

(** The positive spectral differences of a band, summed:
    [np.sum(np.maximum(magnitude[a:b] - prev[a:b], 0))]. *)
Definition positive_flux (magnitude prev : list Q) (start_bin end_bin : nat) : Q :=
  qsum (map (fun p => pymax 0 (fst p - snd p))
            (combine (slice start_bin end_bin magnitude)
                     (slice start_bin end_bin prev))).

Definition push_history (b : band) (x : Q) (st : State) : State :=
  match b with
  | Sub => {| sample_rate := sample_rate st; sensitivity := sensitivity st;
              prev_magnitude := prev_magnitude st;
              sub_flux_history := deque_append history_maxlen x (sub_flux_history st);
              body_flux_history := body_flux_history st;
              click_flux_history := click_flux_history st;
              last_kick_time := last_kick_time st;
              kick_detected := kick_detected st; kick_strength := kick_strength st;
              kick_velocity := kick_velocity st;
              display_strength := display_strength st;
              display_velocity := display_velocity st;
              last_detection_time := last_detection_time st |}
  | Body => {| sample_rate := sample_rate st; sensitivity := sensitivity st;
              prev_magnitude := prev_magnitude st;
              sub_flux_history := sub_flux_history st;
              body_flux_history := deque_append history_maxlen x (body_flux_history st);
              click_flux_history := click_flux_history st;
              last_kick_time := last_kick_time st;
              kick_detected := kick_detected st; kick_strength := kick_strength st;
              kick_velocity := kick_velocity st;
              display_strength := display_strength st;
              display_velocity := display_velocity st;
              last_detection_time := last_detection_time st |}
  | Click => {| sample_rate := sample_rate st; sensitivity := sensitivity st;
              prev_magnitude := prev_magnitude st;
              sub_flux_history := sub_flux_history st;
              body_flux_history := body_flux_history st;
              click_flux_history := deque_append history_maxlen x (click_flux_history st);
              last_kick_time := last_kick_time st;
              kick_detected := kick_detected st; kick_strength := kick_strength st;
              kick_velocity := kick_velocity st;
              display_strength := display_strength st;
              display_velocity := display_velocity st;
              last_detection_time := last_detection_time st |}
  end.

Definition set_prev_magnitude (m : list Q) (st : State) : State :=
  {| sample_rate := sample_rate st; sensitivity := sensitivity st;
     prev_magnitude := Some m;
     sub_flux_history := sub_flux_history st;
     body_flux_history := body_flux_history st;
     click_flux_history := click_flux_history st;
     last_kick_time := last_kick_time st;
     kick_detected := kick_detected st; kick_strength := kick_strength st;
     kick_velocity := kick_velocity st;
     display_strength := display_strength st;
     display_velocity := display_velocity st;
     last_detection_time := last_detection_time st |}.

(** [calculate_band_flux]: the very first call only records the magnitude
    and returns [0.0] without touching any history. *)
Definition calculate_band_flux (st : State) (magnitude : list Q)
    (start_bin end_bin : nat) (band_type : band) : State * Q :=
  match prev_magnitude st with
  | None => (set_prev_magnitude magnitude st, 0)
  | Some prev =>
      let flux := positive_flux magnitude prev start_bin end_bin in
      (push_history band_type flux st, flux)
  end.

(** [calculate_adaptive_threshold]: median + scaled MAD. *)
Definition calculate_adaptive_threshold (st : State) (flux_history : list Q) : Q :=
  if (length flux_history <? 10)%nat then 0
  else median flux_history + sensitivity st * (28 # 10) * mad flux_history.

(** [int(f * len(magnitude) / nyquist)] with [nyquist = sample_rate / 2]. *)
Definition band_bin (sr : Z) (f : Z) (len : nat) : nat :=
  Z.to_nat (py_int (inject_Z f * inject_Z (Z.of_nat len) / (inject_Z sr / 2))).

Record Result := mkResult {
  r_kick_detected : bool;
  r_kick_strength : Q;
  r_kick_velocity : Z;
  r_display_strength : Q;
  r_display_velocity : Z;
  r_sub_flux : Q;
  r_body_flux : Q;
  r_click_flux : Q;
  r_sub_threshold : Q;
  r_body_threshold : Q;
  r_multi_band_score : Q
}.

(** [kick_velocity = min(127, int(kick_strength * 127))]. *)
Definition velocity_of_strength (strength : Q) : Z :=
  Z.min 127 (py_int (strength * 127)).

(** [detect_kick_onset]; [current_time] is the reading of [time.time()]. *)
Definition detect_kick_onset (st : State) (current_time : Q) (magnitude : list Q)
    : State * Result :=
  let len := length magnitude in
  let sr := sample_rate st in
  let '(st1, sub_flux) :=
    calculate_band_flux st magnitude
      (band_bin sr (fst sub_bass_range) len) (band_bin sr (snd sub_bass_range) len) Sub in
  let '(st2, body_flux) :=
    calculate_band_flux st1 magnitude
      (band_bin sr (fst kick_body_range) len) (band_bin sr (snd kick_body_range) len) Body in
  let '(st3, click_flux) :=
    calculate_band_flux st2 magnitude
      (band_bin sr (fst kick_click_range) len) (band_bin sr (snd kick_click_range) len) Click in
  let st4 := set_prev_magnitude magnitude st3 in
  let sub_threshold := calculate_adaptive_threshold st4 (sub_flux_history st4) in
  let body_threshold := calculate_adaptive_threshold st4 (body_flux_history st4) in
  let click_threshold := calculate_adaptive_threshold st4 (click_flux_history st4) in
  let time_since_last := current_time - last_kick_time st4 in
  let gate :=
    (10 <=? length (sub_flux_history st4))%nat &&
    (10 <=? length (body_flux_history st4))%nat &&
    Qltb min_kick_interval time_since_last in
  let sub_hit := Qltb sub_threshold sub_flux in
  let body_hit := Qltb body_threshold body_flux in
  let detected := gate && (sub_hit && body_hit) in
  let sub_strength := sub_flux / (sub_threshold + (1 # 1000000)) in
  let body_strength := body_flux / (body_threshold + (1 # 1000000)) in
  let click_strength :=
    if Qltb 0 click_threshold
    then click_flux / (click_threshold + (1 # 1000000)) else 0 in
  let strength :=
    if detected
    then pymin 1 (sub_strength * (4 # 10) + body_strength * (5 # 10)
                  + click_strength * (1 # 10))
    else 0 in
  let velocity := if detected then velocity_of_strength strength else 0%Z in
  let last_kick := if detected then current_time else last_kick_time st4 in
  let last_det := if detected then current_time else last_detection_time st4 in
  (* value persistence *)
  let '(disp_s, disp_v) :=
    if detected && Qltb 0 strength then (strength, velocity)
    else
      let time_since_detection := current_time - last_det in
      let '(s, v) :=
        if Qltb hold_time time_since_detection
        then (display_strength st4 * decay_rate,
              py_int (inject_Z (display_velocity st4) * decay_rate))
        else (display_strength st4, display_velocity st4) in
      if Qltb s (5 # 100) then (0, 0%Z) else (s, v) in
  ({| sample_rate := sr; sensitivity := sensitivity st4;
      prev_magnitude := prev_magnitude st4;
      sub_flux_history := sub_flux_history st4;
      body_flux_history := body_flux_history st4;
      click_flux_history := click_flux_history st4;
      last_kick_time := last_kick;
      kick_detected := detected; kick_strength := strength;
      kick_velocity := velocity;
      display_strength := disp_s; display_velocity := disp_v;
      last_detection_time := last_det |},
   {| r_kick_detected := detected; r_kick_strength := strength;
      r_kick_velocity := velocity;
      r_display_strength := disp_s; r_display_velocity := disp_v;
      r_sub_flux := sub_flux; r_body_flux := body_flux; r_click_flux := click_flux;
      r_sub_threshold := sub_threshold; r_body_threshold := body_threshold;
      r_multi_band_score := strength |}).

(** A run of the detector over frames [(time, magnitude)]; the trace pairs
    every frame's clock reading with its result. *)
Fixpoint run (st : State) (frames : list (Q * list Q)) : list (Q * Result) :=
  match frames with
  | [] => []
  | (t, m) :: rest =>
      let '(st', r) := detect_kick_onset st t m in
      (t, r) :: run st' rest
  end.

(** The clock readings of the frames on which a kick was detected. *)
Definition detection_times (trace : list (Q * Result)) : list Q :=
  map fst (filter (fun p => r_kick_detected (snd p)) trace).

End Kick.

(** ** EnhancedSnareDetector *)

Module Snare.

Record State := mkState {
  sample_rate : Z;
  sensitivity : Q;
  prev_magnitude : option (list Q);
  fundamental_flux_history : list Q;
  body_flux_history : list Q;
  snap_flux_history : list Q;
  rattle_flux_history : list Q;
  centroid_history : list Q;
  last_snare_time : Q;
  snare_detected : bool;
  snare_strength : Q;
  snare_velocity : Z;
  display_strength : Q;
  display_velocity : Z;
  last_detection_time : Q
}.

Definition snare_fundamental_range : Z * Z := (150, 400)%Z.
Definition snare_body_range : Z * Z := (400, 1000)%Z.
Definition snare_snap_range : Z * Z := (2000, 8000)%Z.
Definition snare_rattle_range : Z * Z := (8000, 15000)%Z.
Definition min_snare_interval : Q := 8 # 100.
Definition decay_rate : Q := 90 # 100.
Definition hold_time : Q := 15 # 100.
Definition history_maxlen : nat := 21.

Definition init (sr : Z) (sens : Q) : State :=
  {| sample_rate := sr; sensitivity := sens;
     prev_magnitude := None;
     fundamental_flux_history := []; body_flux_history := [];
     snap_flux_history := []; rattle_flux_history := []; centroid_history := [];
     last_snare_time := 0;
     snare_detected := false; snare_strength := 0; snare_velocity := 0;
     display_strength := 0; display_velocity := 0;
     last_detection_time := 0 |}.

(** [np.fft.rfftfreq(n, 1/sample_rate)[k]]. *)
Definition rfftfreq (n : nat) (sr : Z) (k : nat) : Q :=
  inject_Z (Z.of_nat k) * inject_Z sr / inject_Z (Z.of_nat n).

(** [calculate_spectral_centroid], over 150 Hz .. 15 kHz. *)
Definition calculate_spectral_centroid (sr : Z) (magnitude : list Q) : Q :=
  let len := length magnitude in
  let relevant_start := Kick.band_bin sr (fst snare_fundamental_range) len in
  let relevant_end := Kick.band_bin sr (snd snare_rattle_range) len in
  let freqs := map (rfftfreq (len * 2 - 1) sr) (seq 0 len) in
  let relevant_freqs := slice relevant_start relevant_end freqs in
  let relevant_magnitude := slice relevant_start relevant_end magnitude in
  if Qltb 0 (qsum relevant_magnitude)
  then qsum (map (fun p => fst p * snd p) (combine relevant_freqs relevant_magnitude))
       / qsum relevant_magnitude
  else 0.

(** [calculate_multi_band_flux]: the four band fluxes, and the snapshot
    that replaces [prev_magnitude]. *)
Definition calculate_multi_band_flux (sr : Z) (prev : option (list Q))
    (magnitude : list Q) : Q * Q * Q * Q :=
  match prev with
  | None => (0, 0, 0, 0)
  | Some p =>
      let len := length magnitude in
      let flux (r : Z * Z) :=
        Kick.positive_flux magnitude p
          (Kick.band_bin sr (fst r) len) (Kick.band_bin sr (snd r) len) in
      (flux snare_fundamental_range, flux snare_body_range,
       flux snare_snap_range, flux snare_rattle_range)
  end.

Record Result := mkResult {
  r_snare_detected : bool;
  r_snare_strength : Q;
  r_snare_velocity : Z;
  r_display_strength : Q;
  r_display_velocity : Z;
  r_fundamental_flux : Q;
  r_body_flux : Q;
  r_snap_flux : Q;
  r_rattle_flux : Q;
  r_spectral_centroid : Q;
  r_multi_band_score : Q
}.

(** [median + sensitivity * c * MAD] of one band history. *)
Definition band_threshold (sens c : Q) (history : list Q) : Q :=
  median history + sens * c * mad history.

(** [snare_velocity = min(127, int(snare_strength * 127))]. *)
Definition velocity_of_strength (strength : Q) : Z :=
  Z.min 127 (py_int (strength * 127)).

(** [detect_snare_onset]; [current_time] is the reading of [time.time()]. *)
Definition detect_snare_onset (st : State) (current_time : Q) (magnitude : list Q)
    : State * Result :=
  let sr := sample_rate st in
  let '(fundamental_flux, body_flux, snap_flux, rattle_flux) :=
    calculate_multi_band_flux sr (prev_magnitude st) magnitude in
  let centroid := calculate_spectral_centroid sr magnitude in
  let fund_h := deque_append history_maxlen fundamental_flux (fundamental_flux_history st) in
  let body_h := deque_append history_maxlen body_flux (body_flux_history st) in
  let snap_h := deque_append history_maxlen snap_flux (snap_flux_history st) in
  let rattle_h := deque_append history_maxlen rattle_flux (rattle_flux_history st) in
  let centroid_h := deque_append history_maxlen centroid (centroid_history st) in
  let fund_threshold := band_threshold (sensitivity st) (25 # 10) fund_h in
  let body_threshold := band_threshold (sensitivity st) (23 # 10) body_h in
  let snap_threshold := band_threshold (sensitivity st) (20 # 10) snap_h in
  let centroid_in_range := Qleb 800 centroid && Qleb centroid 6000 in
  let time_since_last := current_time - last_snare_time st in
  let fundamental_hit := Qltb fund_threshold fundamental_flux in
  let body_hit := Qltb body_threshold body_flux in
  let snap_hit := Qltb snap_threshold snap_flux in
  let timing_ok := Qltb min_snare_interval time_since_last in
  let detected :=
    (10 <=? length fund_h)%nat &&
    (fundamental_hit && body_hit && snap_hit && timing_ok && centroid_in_range) in
  let fund_strength := fundamental_flux / (fund_threshold + (1 # 1000000)) in
  let body_strength := body_flux / (body_threshold + (1 # 1000000)) in
  let snap_strength := snap_flux / (snap_threshold + (1 # 1000000)) in
  let strength :=
    if detected
    then pymin 1 (fund_strength * (2 # 10) + body_strength * (3 # 10)
                  + snap_strength * (5 # 10))
    else 0 in
  let velocity := if detected then velocity_of_strength strength else 0%Z in
  let last_snare := if detected then current_time else last_snare_time st in
  let last_det := if detected then current_time else last_detection_time st in
  let '(disp_s, disp_v) :=
    if detected && Qltb 0 strength then (strength, velocity)
    else
      let time_since_detection := current_time - last_det in
      let '(s, v) :=
        if Qltb hold_time time_since_detection
        then (display_strength st * decay_rate,
              py_int (inject_Z (display_velocity st) * decay_rate))
        else (display_strength st, display_velocity st) in
      if Qltb s (5 # 100) then (0, 0%Z) else (s, v) in
  ({| sample_rate := sr; sensitivity := sensitivity st;
      prev_magnitude := Some magnitude;
      fundamental_flux_history := fund_h; body_flux_history := body_h;
      snap_flux_history := snap_h; rattle_flux_history := rattle_h;
      centroid_history := centroid_h;
      last_snare_time := last_snare;
      snare_detected := detected; snare_strength := strength;
      snare_velocity := velocity;
      display_strength := disp_s; display_velocity := disp_v;
      last_detection_time := last_det |},
   {| r_snare_detected := detected; r_snare_strength := strength;
      r_snare_velocity := velocity;
      r_display_strength := disp_s; r_display_velocity := disp_v;
      r_fundamental_flux := fundamental_flux; r_body_flux := body_flux;
      r_snap_flux := snap_flux; r_rattle_flux := rattle_flux;
      r_spectral_centroid := centroid;
      r_multi_band_score := strength |}).

Fixpoint run (st : State) (frames : list (Q * list Q)) : list (Q * Result) :=
  match frames with
  | [] => []
  | (t, m) :: rest =>
      let '(st', r) := detect_snare_onset st t m in
      (t, r) :: run st' rest
  end.

Definition detection_times (trace : list (Q * Result)) : list Q :=
  map fst (filter (fun p => r_snare_detected (snd p)) trace).

End Snare.

(** ** Frame windower: [process_audio_chunk] *)

Module Windower.

Record State := mkState {
  ring_buffer : list Q;      (* [np.zeros(FFT_SIZE * 2)] *)
  buffer_pos : nat;
  audio_buffer : list Q      (* [np.zeros(FFT_SIZE)] *)
}.

Definition init : State :=
  {| ring_buffer := repeat 0 (FFT_SIZE * 2);
     buffer_pos := 0%nat;
     audio_buffer := repeat 0 FFT_SIZE |}.

(** Slice assignment [a[pos:pos+len(data)] = data], for a slice that lies
    inside the array. *)
Definition write_at (pos : nat) (data a : list Q) : list Q :=
  firstn pos a ++ data ++ skipn (pos + length data) a.

(** The write of one chunk into the ring, wrapping at its end. *)
Definition write_ring (ring : list Q) (pos : nat) (audio_data : list Q) : list Q :=
  let chunk_len := length audio_data in
  if (pos + chunk_len <=? length ring)%nat
  then write_at pos audio_data ring
  else
    let first_part := (length ring - pos)%nat in
    let ring1 := write_at pos (firstn first_part audio_data) ring in
    write_at 0 (skipn first_part audio_data) ring1.

(** The window handed to the FFT after the write. The source has a branch
    for [buffer_pos >= FFT_SIZE] and one for [0 < buffer_pos < FFT_SIZE];
    for [buffer_pos = 0] neither runs and [audio_buffer] keeps its old
    contents. *)
Definition extract_latest (ring : list Q) (pos : nat) (old_audio : list Q) : list Q :=
  if (FFT_SIZE <=? pos)%nat
  then slice (pos - FFT_SIZE) pos ring
  else if (0 <? pos)%nat
  then
    (* audio_buffer[-pos:] = ring[:pos] ; audio_buffer[:-pos] = ring[-(FFT_SIZE - pos):] *)
    let tail_part := firstn pos ring in
    let head_part := skipn (length ring - (FFT_SIZE - pos)) ring in
    write_at 0 head_part (write_at (length old_audio - pos) tail_part old_audio)
  else old_audio.

Section WithFFT.

(** [np.abs(np.fft.rfft(audio_buffer * window))] for the Hann window. *)
Variable hann_rfft_magnitude : list Q -> list Q.

Definition process_audio_chunk (st : State) (audio_data : list Q)
    : State * list Q :=
  let ring := write_ring (ring_buffer st) (buffer_pos st) audio_data in
  let pos := ((buffer_pos st + length audio_data) mod length (ring_buffer st))%nat in
  let audio := extract_latest ring pos (audio_buffer st) in
  ({| ring_buffer := ring; buffer_pos := pos; audio_buffer := audio |},
   hann_rfft_magnitude audio).

(** Feeding a sequence of chunks, and the magnitude the last call returns. *)
Fixpoint feed (st : State) (chunks : list (list Q)) : State :=
  match chunks with
  | [] => st
  | c :: rest => feed (fst (process_audio_chunk st c)) rest
  end.

Definition last_magnitude (st : State) (chunks : list (list Q)) : list Q :=
  match List.rev chunks with
  | [] => []
  | c :: before => snd (process_audio_chunk (feed st (List.rev before)) c)
  end.

End WithFFT.

(** Specification side: the samples received so far, preceded by the
    silence the buffers start with, and the newest [n] of them. *)
Definition stream (chunks : list (list Q)) : list Q :=
  repeat 0 (FFT_SIZE * 2) ++ concat chunks.

Definition newest (n : nat) (samples : list Q) : list Q :=
  skipn (length samples - n) samples.

End Windower.

(** ** Spectrum bars: band mapping, normalisation and smoothing in
       [process_frame] *)

Module Bars.

(** [self.freqs = np.fft.rfftfreq(FFT_SIZE, 1/SAMPLE_RATE)]. *)
Definition freqs (k : nat) : Q :=
  inject_Z (Z.of_nat k) * inject_Z SAMPLE_RATE / inject_Z (Z.of_nat FFT_SIZE).

(** [get_frequency_range_for_bar]. *)
Definition get_frequency_range_for_bar (band_indices : list (list nat))
    (bar_index : nat) : Q * Q :=
  match nth_error band_indices bar_index with
  | Some (k0 :: rest) => (freqs k0, freqs (List.last rest k0))
  | _ => (0, 0)
  end.

(** [np.mean(fft_data[indices])] for a non-empty index set, else the bar
    keeps the [0] of [np.zeros]. *)
Definition band_value (fft_data : list Q) (indices : list nat) : Q :=
  match indices with
  | [] => 0
  | _ => qsum (map (fun k => nth k fft_data 0) indices)
         / inject_Z (Z.of_nat (length indices))
  end.

(** [np.max]. *)
Definition list_max (l : list Q) : Q :=
  match l with
  | [] => 0
  | x :: rest => fold_left pymax rest x
  end.

(** Normalisation: divide by the maximum when it is positive. *)
Definition normalize (band_values : list Q) : list Q :=
  let max_val := list_max band_values in
  if Qltb 0 max_val then map (fun v => v / max_val) band_values
  else band_values.

(** The detection flags a frame's smoothing reads. *)
Record Flags := mkFlags {
  kick_detected : bool;
  snare_detected : bool;
  has_voice : bool;
  is_singing : bool
}.

(** Attack and release of a bar whose first bin has frequency [f]. *)
Definition smoothing_params (fl : Flags) (f : Q) : Q * Q :=
  if Qleb f 150 then
    (if kick_detected fl then 95 # 100 else 7 # 10, 8 # 100)
  else if Qltb 150 f && Qleb f 500 then
    (if snare_detected fl then 90 # 100 else 75 # 100, 12 # 100)
  else if Qltb 500 f && Qleb f 2000 then
    let voice_boost := if has_voice fl then 12 # 10 else 1 in
    ((85 # 100) * voice_boost, 15 # 100)
  else if Qltb 2000 f && Qleb f 5000 then
    let voice_boost := if has_voice fl then 13 # 10 else 1 in
    let singing_boost := if is_singing fl then 11 # 10 else 1 in
    ((8 # 10) * voice_boost * singing_boost, 18 # 100)
  else (75 # 100, 25 # 100).

(** One bar's update. *)
Definition smooth_bar (fl : Flags) (f : Q) (target current : Q) : Q :=
  let '(attack, release) := smoothing_params fl f in
  if Qltb current target
  then current + (target - current) * attack
  else current + (target - current) * release.

(** The loop over [range(self.bars)], from bar [i] on. *)
Fixpoint smooth_from (band_indices : list (list nat)) (fl : Flags) (i : nat)
    (targets heights : list Q) : list Q :=
  match targets, heights with
  | t :: ts, h :: hs =>
      smooth_bar fl (fst (get_frequency_range_for_bar band_indices i)) t h
      :: smooth_from band_indices fl (S i) ts hs
  | _, _ => []
  end.

(** The bar part of [process_frame]: band mapping of the magnitude
    [fft_data], normalisation, smoothing with the frame's flags. *)
Definition process_frame (band_indices : list (list nat)) (bar_heights : list Q)
    (fft_data : list Q) (fl : Flags) : list Q :=
  let band_values := normalize (map (band_value fft_data) band_indices) in
  smooth_from band_indices fl 0 band_values bar_heights.

(** A run over frames from given bar heights. *)
Fixpoint run (band_indices : list (list nat)) (bar_heights : list Q)
    (frames : list (list Q * Flags)) : list Q :=
  match frames with
  | [] => bar_heights
  | (fft_data, fl) :: rest =>
      run band_indices (process_frame band_indices bar_heights fft_data fl) rest
  end.

(** [np.zeros(bars)]. *)
Definition init (band_indices : list (list nat)) : list Q :=
  repeat 0 (length band_indices).

End Bars.

(** ** GrooveAnalyzer: tempo from inter-onset intervals *)

Module Groove.

Definition common_bpms : list Q :=
  [60; 70; 80; 90; 100; 110; 120; 130; 140; 150; 160; 170; 180].

(** [min(xs, key=f)]: the first element with the least key. *)
Fixpoint min_by (key : Q -> Q) (best : Q) (xs : list Q) : Q :=
  match xs with
  | [] => best
  | x :: rest => min_by key (if Qltb (key x) (key best) then x else best) rest
  end.

Definition closest_common_bpm (bpm : Q) : Q :=
  match common_bpms with
  | [] => 0
  | x :: rest => min_by (fun c => Qabs (c - bpm)) x rest
  end.

(** The intervals kept by [[i for i in intervals if 0.2 <= i <= 2.0]]. *)
Definition valid_intervals (intervals : list Q) : list Q :=
  List.filter (fun i => Qleb (2 # 10) i && Qleb i 2) intervals.

(** [estimate_tempo_from_intervals]. *)
Definition estimate_tempo_from_intervals (intervals : list Q) : Q :=
  if (length intervals <? 3)%nat then 0
  else
    let valid := valid_intervals intervals in
    if (length valid <? 2)%nat then 0
    else
      let median_interval := median valid in
      let bpm := 60 / median_interval in
      let closest_bpm := closest_common_bpm bpm in
      if Qltb (Qabs (bpm - closest_bpm)) 8 then closest_bpm else bpm.

End Groove.

(** ** VoiceClassifier *)

Module Classifier.

Inductive voice_type :=
  | Bass | Baritone | Tenor | Alto | MezzoSoprano | Soprano | Child | Unknown.

Definition voice_type_name (v : voice_type) : string :=
  match v with
  | Bass => "bass" | Baritone => "baritone" | Tenor => "tenor"
  | Alto => "alto" | MezzoSoprano => "mezzo-soprano"
  | Soprano => "soprano" | Child => "child" | Unknown => "unknown"
  end.

(** [self.voice_ranges]; a Python dict iterates in insertion order, so the
    table is an association list. *)
Definition voice_ranges : list (voice_type * (Q * Q)) :=
  [ (Bass, (75, 165)); (Baritone, (96, 192)); (Tenor, (123, 246));
    (Alto, (155, 330)); (MezzoSoprano, (185, 370)); (Soprano, (220, 440));
    (Child, (300, 600)) ].

(** The loop [for voice_type, (low, high) in ...: if low <= pitch <= high:
    return voice_type]. *)
Fixpoint first_range (pitch : Q) (table : list (voice_type * (Q * Q)))
    : option voice_type :=
  match table with
  | [] => None
  | (v, (low, high)) :: rest =>
      if Qleb low pitch && Qleb pitch high then Some v
      else first_range pitch rest
  end.

Inductive gender := Male | Female | UnknownGender.

Definition fallback_by_pitch (pitch : Q) : voice_type :=
  if Qltb 400 pitch then Child
  else if Qltb 250 pitch then Soprano
  else if Qltb 180 pitch then Alto
  else if Qltb 140 pitch then Tenor
  else if Qltb 110 pitch then Baritone
  else Bass.

(** [classify_voice_type]. *)
Definition classify_voice_type (pitch : Q) (formants : list Q) : voice_type :=
  if Qleb pitch 0 then Unknown
  else
    match first_range pitch voice_ranges with
    | Some v => v
    | None =>
        match formants with
        | f1 :: f2 :: _ =>
            let g :=
              if Qltb f1 600 && Qltb f2 1800 then Male
              else if Qltb 800 f1 || Qltb 2000 f2 then Female
              else UnknownGender in
            match g with
            | Male =>
                if Qltb pitch 130 then Bass
                else if Qltb pitch 200 then Baritone
                else Tenor
            | Female =>
                if Qltb pitch 250 then Alto
                else if Qltb pitch 350 then MezzoSoprano
                else Soprano
            | UnknownGender => fallback_by_pitch pitch
            end
        | _ => fallback_by_pitch pitch
        end
    end.

End Classifier.

(** ** Python values, result dictionaries and exceptions *)

Module Py.

Inductive atom :=
  | ABool (b : bool)
  | AFloat (x : Q).

Inductive value :=
  | VNone
  | VBool (b : bool)
  | VFloat (x : Q)
  | VStr (s : string)
  | VFloatList (l : list Q)
  | VDict (d : gmap string atom).

(** [d.get(key, default)] at the types the analysis stores. *)
Definition get_float (d : gmap string value) (key : string) (default : Q) : Q :=
  match d !! key with
  | Some (VFloat x) => x
  | _ => default
  end.

Definition get_floats (d : gmap string value) (key : string) : list Q :=
  match d !! key with
  | Some (VFloatList l) => l
  | _ => []
  end.

Definition get_dict (d : gmap string value) (key : string) : gmap string atom :=
  match d !! key with
  | Some (VDict m) => m
  | _ => ∅
  end.

Definition atom_float (m : gmap string atom) (key : string) (default : Q) : Q :=
  match m !! key with
  | Some (AFloat x) => x
  | _ => default
  end.

Definition atom_bool (m : gmap string atom) (key : string) (default : bool) : bool :=
  match m !! key with
  | Some (ABool b) => b
  | _ => default
  end.

(** [d.update(other)]: the keys of [other] overwrite those of [d]. *)
Definition update (d other : gmap string value) : gmap string value :=
  other ∪ d.

(** Exceptions, by class name. *)
Inductive exn := Exception (class : string).

Inductive outcome (A : Type) :=
  | Return (a : A)
  | Raise (e : exn).
Arguments Return {A} a.
Arguments Raise {A} e.

End Py.

(** ** IndustryVoiceDetector *)

Module Voice.

Import Py.

Record State := mkState {
  vad_counter : Z;
  vocal_energy_history : list Q;           (* deque(maxlen=10) *)
  pitch_history : list Q;                  (* deque(maxlen=30) *)
  hnr_history : list Q;                    (* deque(maxlen=15) *)
  spectral_features_history : list (gmap string atom);  (* deque(maxlen=10) *)
  frame_counter : Z
}.

Definition sample_rate : Z := 48000.
Definition f0_range : Q * Q := (150, 500).
Definition f0_range_extended : Q * Q := (75, 600).
Definition vad_threshold : Q := 5 # 1000.
Definition vad_hangover : Z := 12.
Definition analysis_frame_skip : Z := 2.

Definition init : State :=
  {| vad_counter := 0; vocal_energy_history := []; pitch_history := [];
     hnr_history := []; spectral_features_history := []; frame_counter := 0 |}.

(** *** State and exception monad of the methods *)

Definition M (A : Type) : Type := State -> State * outcome A.

Definition ret {A} (a : A) : M A := fun st => (st, Return a).
Definition raise {A} (e : exn) : M A := fun st => (st, Raise e).
Definition bind {A B} (c : M A) (k : A -> M B) : M B :=
  fun st =>
    match c st with
    | (st', Return a) => k a st'
    | (st', Raise e) => (st', Raise e)
    end.
Definition get_state : M State := fun st => (st, Return st).
Definition modify (f : State -> State) : M unit := fun st => (f st, Return tt).
(** A pure library call that may raise. *)
Definition lift {A} (o : outcome A) : M A := fun st => (st, o).
(** [try: c  except Exception: return handler]; the state changes made
    before the exception stay. *)
Definition try_except {A} (c : M A) (handler : A) : M A :=
  fun st =>
    match c st with
    | (st', Return a) => (st', Return a)
    | (st', Raise _) => (st', Return handler)
    end.

Declare Scope voice_scope.
Delimit Scope voice_scope with voice.
Notation "x <- c ;; k" := (bind c (fun x => k))
  (at level 100, c at next level, right associativity) : voice_scope.
Notation "c ;;; k" := (bind c (fun _ => k))
  (at level 100, right associativity) : voice_scope.
Local Open Scope voice_scope.

(** *** Voice activity detection *)

(** What [quick_vad_check] measures on the frame's spectrum. *)
Record VadSpectrum := mkVadSpectrum {
  vocal_core_energy : Q;     (* magnitude**2 summed over 200..3500 Hz *)
  drum_bass_energy : Q;      (* over 20..150 Hz *)
  high_freq_energy : Q;      (* over 3500..8000 Hz *)
  total_energy : Q;          (* over all bins *)
  spectral_flatness : Q      (* of the 200..3500 Hz slice *)
}.

(** The hangover of lines 212-219: reset on detection, decrement
    otherwise while positive, and then still report voice. *)
Definition hangover (has_voice : bool) (counter : Z) : Z * bool :=
  if has_voice then (vad_hangover, true)
  else if (0 <? counter)%Z then ((counter - 1)%Z, true)
  else (counter, false).

(** The raw decision of [quick_vad_check], before the hangover.
    [vocal_core_ratio] is assigned only when [total_energy > 1e-10]; the
    last operand of the [or] reads it, and is reached only when the first
    two operands are false. *)
Definition vad_decision (rms_energy : Q) (sp : VadSpectrum) : outcome bool :=
  let energetic := Qltb (1 # 10000000000) (total_energy sp) in
  let vocal_core_ratio :=
    if energetic then Some (vocal_core_energy sp / total_energy sp) else None in
  let vocal_probability :=
    if energetic then
      let drum_bass_ratio := drum_bass_energy sp / total_energy sp in
      let high_freq_ratio := high_freq_energy sp / total_energy sp in
      let vocal_score :=
        vocal_core_energy sp / total_energy sp + high_freq_ratio * (5 # 10) in
      let drum_suppression := pymax (1 # 10) (1 - drum_bass_ratio * 2) in
      vocal_score * drum_suppression
    else 0 in
  let energy_sufficient := Qltb vad_threshold rms_energy in
  let vocal_characteristics := Qltb (5 # 100) vocal_probability in
  let is_tonal := Qltb (spectral_flatness sp) (8 # 10) in
  let has_vocal_energy :=
    Qltb (total_energy sp * (2 # 100)) (vocal_core_energy sp) in
  if energy_sufficient && vocal_characteristics && is_tonal then Return true
  else if has_vocal_energy then Return true
  else
    match vocal_core_ratio with
    | Some r => Return (Qltb (8 # 100) r)
    | None => Raise (Exception "UnboundLocalError")
    end.

Definition push_vocal_energy (x : Q) (st : State) : State :=
  {| vad_counter := vad_counter st;
     vocal_energy_history := deque_append 10 x (vocal_energy_history st);
     pitch_history := pitch_history st;
     hnr_history := hnr_history st;
     spectral_features_history := spectral_features_history st;
     frame_counter := frame_counter st |}.

Definition set_vad_counter (c : Z) (st : State) : State :=
  {| vad_counter := c;
     vocal_energy_history := vocal_energy_history st;
     pitch_history := pitch_history st;
     hnr_history := hnr_history st;
     spectral_features_history := spectral_features_history st;
     frame_counter := frame_counter st |}.

Definition push_pitch (x : Q) (st : State) : State :=
  {| vad_counter := vad_counter st;
     vocal_energy_history := vocal_energy_history st;
     pitch_history := deque_append 30 x (pitch_history st);
     hnr_history := hnr_history st;
     spectral_features_history := spectral_features_history st;
     frame_counter := frame_counter st |}.

Definition push_hnr (x : Q) (st : State) : State :=
  {| vad_counter := vad_counter st;
     vocal_energy_history := vocal_energy_history st;
     pitch_history := pitch_history st;
     hnr_history := deque_append 15 x (hnr_history st);
     spectral_features_history := spectral_features_history st;
     frame_counter := frame_counter st |}.

Definition push_spectral (x : gmap string atom) (st : State) : State :=
  {| vad_counter := vad_counter st;
     vocal_energy_history := vocal_energy_history st;
     pitch_history := pitch_history st;
     hnr_history := hnr_history st;
     spectral_features_history := deque_append 10 x (spectral_features_history st);
     frame_counter := frame_counter st |}.

Definition incr_frame_counter (st : State) : State :=
  {| vad_counter := vad_counter st;
     vocal_energy_history := vocal_energy_history st;
     pitch_history := pitch_history st;
     hnr_history := hnr_history st;
     spectral_features_history := spectral_features_history st;
     frame_counter := (frame_counter st + 1)%Z |}.

(** [quick_vad_check], on the measured RMS and spectrum of the frame. The
    history append happens before the decision, so it stays when the
    decision raises; the hangover runs only when it does not. *)
Definition quick_vad_check (rms_energy : Q) (sp : VadSpectrum) : M bool :=
  modify (push_vocal_energy (vocal_core_energy sp)) ;;;
  has_voice <- lift (vad_decision rms_energy sp) ;;
  st <- get_state ;;
  let '(c, v) := hangover has_voice (vad_counter st) in
  modify (set_vad_counter c) ;;;
  ret v.

(** *** Pitch: YIN *)

(** The cumulative mean normalised difference function computed in
    [detect_pitch_yin] from the autocorrelation. [tau] runs from 1 over
    [count] lags, [cumulative_sum] is the running sum. Lags beyond the
    autocorrelation keep the [0] of [np.zeros]. *)
Fixpoint cmndf_from (autocorr : list Q) (tau : nat) (count : nat)
    (cumulative_sum : Q) : list Q :=
  match count with
  | O => []
  | S count' =>
      if (tau <? length autocorr)%nat then
        let diff_val :=
          1 - nth tau autocorr 0 / (nth 0 autocorr 0 + (1 # 10000000000)) in
        let cumulative_sum' := cumulative_sum + diff_val in
        let d :=
          if Qltb 0 cumulative_sum'
          then diff_val / (cumulative_sum' / inject_Z (Z.of_nat tau))
          else diff_val in
        d :: cmndf_from autocorr (S tau) count' cumulative_sum'
      else 0 :: cmndf_from autocorr (S tau) count' cumulative_sum
  end.

(** [diff_function], of length [frame_size // 2] (which must be positive:
    [diff_function[0] = 1.0] is an index error otherwise). *)
Definition diff_function (autocorr : list Q) (frame_size : nat) : outcome (list Q) :=
  match (frame_size / 2)%nat with
  | O => Raise (Exception "IndexError")
  | S n => Return (1 :: cmndf_from autocorr 1 n 0)
  end.

(** The body of the loop of [find_pitch_in_range] at a lag [tau] whose
    difference value is under the threshold: [Some (f0, confidence,
    clarity)] when the parabola is valid (the loop then breaks), [None]
    when the loop goes on. The result's frequency is [sample_rate / x0];
    a zero [x0], for which the float division yields an infinity, is
    outside this embedding. *)
Definition pitch_at (diff autocorr : list Q) (tau : nat) : option (Q * Q * Q) :=
  if (0 <? tau)%nat && (tau <? length diff - 1)%nat then
    let y1 := nth (tau - 1) diff 0 in
    let y2 := nth tau diff 0 in
    let y3 := nth (tau + 1) diff 0 in
    let denom := 2 * (2 * y2 - y1 - y3) in
    if Qltb (1 # 10000000000) (Qabs denom) then
      let x0 := inject_Z (Z.of_nat tau) + (y3 - y1) / denom in
      let f0 := inject_Z sample_rate / x0 in
      let raw_confidence := pymax 0 (1 - pymin 1 y2) in
      let clarity :=
        if (tau <? length autocorr)%nat
        then Qabs (nth tau autocorr 0) / (nth 0 autocorr 0 + (1 # 10000000000))
        else 0 in
      let c0 := pymax (4 # 10) raw_confidence in
      let c1 := if Qltb 0 f0 then pymax c0 (5 # 10) else c0 in
      let c2 :=
        if Qltb (6 # 10) clarity then c1 * (14 # 10)
        else if Qltb (4 # 10) clarity then c1 * (12 # 10)
        else c1 in
      let c3 :=
        if Qleb 150 f0 && Qleb f0 400 then c2 * (13 # 10)
        else if Qleb 100 f0 && Qleb f0 300 then c2 * (11 # 10)
        else c2 in
      Some (f0, c3, clarity)
    else None
  else None.

(** The loop [for tau in range(min_period, min(max_period, len(diff)))],
    over the remaining [count] lags. *)
Fixpoint search_pitch (diff autocorr : list Q) (threshold : Q)
    (tau count : nat) : Q * Q * Q :=
  match count with
  | O => (0, 0, 0)
  | S count' =>
      if Qltb (nth tau diff 0) threshold then
        match pitch_at diff autocorr tau with
        | Some r => r
        | None => search_pitch diff autocorr threshold (S tau) count'
        end
      else search_pitch diff autocorr threshold (S tau) count'
  end.

(** [find_pitch_in_range]: frequency, confidence and clarity. *)
Definition find_pitch_in_range (diff autocorr : list Q) (freq_range : Q * Q)
    (threshold : Q) : Q * Q * Q :=
  let min_period := Z.to_nat (py_int (inject_Z sample_rate / snd freq_range)) in
  let max_period := Z.to_nat (py_int (inject_Z sample_rate / fst freq_range)) in
  let stop := Nat.min max_period (length diff) in
  let '(f0, confidence, clarity) :=
    search_pitch diff autocorr threshold min_period (stop - min_period) in
  (f0, pymin 1 confidence, clarity).

Definition note_names : list string :=
  ["C"; "C#"; "D"; "D#"; "E"; "F"; "F#"; "G"; "G#"; "A"; "A#"; "B"].

Record PitchInfo := mkPitchInfo {
  frequency : Q;
  confidence : Q;
  note : option string;
  clarity : Q
}.

(** What the spectral kernels measure on a frame. *)
Record SpectralMeasure := mkSpectralMeasure {
  sm_centroid : Q; sm_rolloff : Q; sm_flatness : Q; sm_zcr : Q;
  sm_low_energy : Q; sm_mid_energy : Q; sm_high_energy : Q
}.

Record VibratoMeasure := mkVibratoMeasure {
  vm_any_in_range : bool;        (* np.any(vibrato_mask) *)
  vm_peak_freq : Q;              (* vibrato_freqs[peak_idx] *)
  vm_peak_strength : Q;          (* vibrato_spectrum[peak_idx] *)
  vm_total_energy : Q            (* np.sum(np.abs(fft) ** 2) *)
}.

Section WithKernels.

(** The numerical kernels of NumPy and SciPy the detector calls. Those
    that can fail return an [outcome]. *)

(** [np.sqrt(np.mean(audio_frame ** 2))]. *)
Variable frame_rms : list Q -> Q.
(** The band energies and flatness of [np.abs(np.fft.rfft(audio_frame))]. *)
Variable vad_spectrum : list Q -> VadSpectrum.
(** Second half of the full autocorrelation of
    [preprocess_for_vocal_pitch(audio_frame)]. *)
Variable yin_autocorr : list Q -> outcome (list Q).
(** [np.log2] and [np.log10]. *)
Variable log2 : Q -> Q.
Variable log10 : Q -> Q.
(** The roots of the LPC polynomial of the frame, each as its imaginary
    part and [np.angle(root) * sample_rate / (2 * np.pi)]. *)
Variable lpc_roots : list Q -> outcome (list (Q * Q)).
(** Harmonic and noise energy sums of [calculate_hnr] at pitch [f0]. *)
Variable hnr_energies : list Q -> Q -> outcome (Q * Q).
(** The measurements of [extract_spectral_features]. *)
Variable spectral_measure : list Q -> outcome SpectralMeasure.
(** Detrending, windowing and FFT of the positive pitches. *)
Variable vibrato_measure : list Q -> outcome VibratoMeasure.

(** [frequency_to_note]. *)
Definition frequency_to_note (f : Q) : option string :=
  if Qleb f 0 then None
  else
    let semitones_from_A4 := 12 * log2 (f / 440) in
    let note_number := (py_round semitones_from_A4 + 9)%Z in
    let octave := (4 + note_number `div` 12)%Z in
    let note_name := nth (Z.to_nat (note_number `mod` 12)) note_names "" in
    Some (note_name +:+ pretty octave).

(** [detect_pitch_yin]; it reads the pitch history. *)
Definition detect_pitch_yin (audio_frame : list Q) : M PitchInfo :=
  autocorr <- lift (yin_autocorr audio_frame) ;;
  diff <- lift (diff_function autocorr (length audio_frame)) ;;
  st <- get_state ;;
  let '(female_f0, female_conf, female_clarity) :=
    find_pitch_in_range diff autocorr f0_range (5 # 10) in
  let '(extended_f0, extended_conf, extended_clarity) :=
    find_pitch_in_range diff autocorr f0_range_extended (6 # 10) in
  let '(f0, conf0, cl) :=
    if Qltb extended_conf female_conf && Qltb 0 female_f0
    then (female_f0, female_conf, female_clarity)
    else if Qltb 0 extended_f0
    then (extended_f0, extended_conf, extended_clarity)
    else (0, 0, 0) in
  let conf1 :=
    if Qltb 0 f0 && (3 <? length (pitch_history st))%nat then
      let recent_pitches :=
        List.filter (fun p => Qltb 0 p)
          (skipn (length (pitch_history st) - 3) (pitch_history st)) in
      match recent_pitches with
      | [] => conf0
      | _ =>
          if Qltb 100 (Qabs (f0 - median recent_pitches))
          then conf0 * (5 # 10) else conf0
      end
    else conf0 in
  let nt := if Qltb 0 f0 then frequency_to_note f0 else None in
  let conf2 :=
    if Qltb 0 f0 && Qltb conf1 (2 # 10) then
      if Qleb 80 f0 && Qleb f0 800 then 4 # 10 else 2 # 10
    else conf1 in
  ret {| frequency := f0; confidence := conf2; note := nt; clarity := cl |}.

(** [analyze_formants_lpc]. Reading [audio_frame[0]] fails on an empty
    frame; failures of the root finding are swallowed by the bare
    [except]. *)
Definition analyze_formants_lpc (audio_frame : list Q) : outcome (list Q) :=
  match audio_frame with
  | [] => Raise (Exception "IndexError")
  | _ =>
      let len := Z.of_nat (length audio_frame) in
      let lpc_order := Z.min (2 + sample_rate `div` 1000) (len - 1) in
      if (lpc_order <? 4)%Z then Return []
      else if (lpc_order <? len)%Z then
        match lpc_roots audio_frame with
        | Raise _ => Return []
        | Return roots =>
            let formants :=
              map snd
                (List.filter
                   (fun r => Qltb 0 (fst r) && (Qltb 90 (snd r) && Qltb (snd r) 5500))
                   roots) in
            Return (firstn 4 (qsort formants))
        end
      else Return []
  end.

(** [calculate_hnr]. *)
Definition calculate_hnr (audio_frame : list Q) (f0 : Q) : outcome Q :=
  if Qleb f0 0 then Return 0
  else
    match hnr_energies audio_frame f0 with
    | Raise e => Raise e
    | Return (harmonic_energy, noise_energy) =>
        if Qltb 0 noise_energy then
          let hnr_ratio := harmonic_energy / (noise_energy + (1 # 10000000000)) in
          let hnr_db := 10 * log10 (hnr_ratio + (1 # 10000000000)) in
          Return (pymax 0 (pymin 40 hnr_db))
        else Return 0
    end.

(** [extract_spectral_features]: the feature dictionary. *)
Definition extract_spectral_features (audio_frame : list Q)
    : outcome (gmap string atom) :=
  match spectral_measure audio_frame with
  | Raise e => Raise e
  | Return m =>
      Return (<["centroid" := AFloat (sm_centroid m)]>
             (<["rolloff" := AFloat (sm_rolloff m)]>
             (<["flatness" := AFloat (sm_flatness m)]>
             (<["zcr" := AFloat (sm_zcr m)]>
             (<["low_energy" := AFloat (sm_low_energy m)]>
             (<["mid_energy" := AFloat (sm_mid_energy m)]>
             (<["high_energy" := AFloat (sm_high_energy m)]> ∅)))))))
  end.

(** [VibratoDetector.detect_vibrato]: [None], or the vibrato dictionary. *)
Definition detect_vibrato (pitch_hist : list Q)
    : outcome (option (gmap string atom)) :=
  if (length pitch_hist <? 20)%nat then Return None
  else
    let pitches := List.filter (fun p => Qltb 0 p) pitch_hist in
    if (length pitches <? 20)%nat then Return None
    else
      match vibrato_measure pitches with
      | Raise e => Raise e
      | Return m =>
          if negb (vm_any_in_range m) then
            Return (Some (<["detected" := ABool false]>
                         (<["frequency" := AFloat 0]>
                         (<["strength" := AFloat 0]> ∅))))
          else
            let vibrato_strength := vm_peak_strength m in
            let normalized_strength :=
              vibrato_strength * vibrato_strength
              / (vm_total_energy m + (1 # 10000000000)) in
            let detected :=
              Qltb (1 # 100) normalized_strength && Qltb (1 # 10) vibrato_strength in
            Return (Some (<["detected" := ABool detected]>
                         (<["frequency" := AFloat (vm_peak_freq m)]>
                         (<["strength" := AFloat normalized_strength]>
                         (<["rate" := AFloat (vm_peak_freq m)]> ∅)))))
      end.

Definition bool_to_Z (b : bool) : Z := if b then 1%Z else 0%Z.

(** [detect_singing]. *)
Definition detect_singing (voice_results : gmap string value)
    (vibrato_info : option (gmap string atom)) : bool :=
  let pitch_stability := Qltb (8 # 10) (get_float voice_results "pitch_confidence" 0) in
  let high_pitch := Qltb 200 (get_float voice_results "pitch" 0) in
  let has_vibrato :=
    match vibrato_info with
    | Some v => atom_bool v "detected" false
    | None => false
    end in
  let clear_tone := Qltb 15 (get_float voice_results "hnr" 0) in
  let spectral := get_dict voice_results "spectral_features" in
  let bright_tone := Qltb 1000 (atom_float spectral "centroid" 0) in
  let tonal := Qltb (atom_float spectral "flatness" 1) (5 # 10) in
  let singing_score :=
    (bool_to_Z pitch_stability * 2 + bool_to_Z high_pitch
     + bool_to_Z has_vibrato * 3 + bool_to_Z clear_tone * 2
     + bool_to_Z bright_tone + bool_to_Z tonal)%Z in
  (4 <=? singing_score)%Z.

(** The weighted indicators gathered by [calculate_voice_confidence], as
    pairs of a factor and its weight, in the order they are appended. *)
Definition confidence_factors (results : gmap string value) : list (Q * Q) :=
  let pitch_conf := get_float results "pitch_confidence" 0 in
  let pitch_freq := get_float results "pitch" 0 in
  let from_pitch :=
    if Qltb 0 pitch_freq then [(pymax (5 # 10) pitch_conf, 3)]
    else if Qltb 0 pitch_conf then [(pitch_conf * (7 # 10), 2)]
    else [] in
  let hnr_value := get_float results "hnr" 0 in
  let from_hnr :=
    if Qltb 0 hnr_value then [(pymin 1 (hnr_value / 15), 2)] else [] in
  let formants := get_floats results "formants" in
  let from_formants :=
    if (0 <? length formants)%nat
    then [(pymin 1 (inject_Z (Z.of_nat (length formants)) / (25 # 10)), 25 # 10)]
    else [] in
  let spectral := get_dict results "spectral_features" in
  let from_spectral :=
    if decide (spectral = ∅) then []
    else
      let flatness := atom_float spectral "flatness" 1 in
      let spectral_score := pymax 0 (1 - flatness) in
      let voice_energy :=
        atom_float spectral "mid_energy" 0 + atom_float spectral "high_energy" 0 in
      let total_energy := voice_energy + atom_float spectral "low_energy" 0 in
      (if Qltb (1 # 10) spectral_score then [(spectral_score, 15 # 10)] else [])
      ++ (if Qltb 0 total_energy then
            let voice_ratio := voice_energy / total_energy in
            if Qltb (3 # 10) voice_ratio then [(voice_ratio, 1)] else []
          else []) in
  let vocal_energy := get_float results "vocal_energy" 0 in
  let from_energy :=
    if Qltb (2 # 1000) vocal_energy
    then [(pymin 1 (vocal_energy / (1 # 100)), 1)] else [] in
  from_pitch ++ from_hnr ++ from_formants ++ from_spectral ++ from_energy.

(** [calculate_voice_confidence]. *)
Definition calculate_voice_confidence (results : gmap string value) : Q :=
  let pitch_freq := get_float results "pitch" 0 in
  let formants := get_floats results "formants" in
  let fw := confidence_factors results in
  match fw with
  | _ :: _ =>
      let weighted_sum := qsum (map (fun p => fst p * snd p) fw) in
      let total_weight := qsum (map snd fw) in
      let c0 := weighted_sum / total_weight in
      let c1 := if (3 <=? length fw)%nat then c0 * (12 # 10) else c0 in
      let c2 :=
        if Qltb 0 pitch_freq && (2 <=? length formants)%nat
        then pymax c1 (4 # 10) else c1 in
      let c3 := if Qltb 0 pitch_freq then pymax c2 (3 # 10) else c2 in
      pymin 1 c3
  | [] => if Qltb 0 pitch_freq then 5 # 10 else 0
  end.

Definition option_str (o : option string) : value :=
  match o with Some s => VStr s | None => VNone end.

Definition option_dict (o : option (gmap string atom)) : value :=
  match o with Some d => VDict d | None => VNone end.

(** The dictionary [detailed_voice_analysis] starts from ([voice] is its
    [has_voice] entry) and the one its handler returns. *)
Definition detailed_defaults (voice : bool) : gmap string value :=
  <["has_voice" := VBool voice]>
  (<["voice_confidence" := VFloat 0]>
  (<["pitch" := VFloat 0]>
  (<["pitch_note" := VNone]>
  (<["pitch_confidence" := VFloat 0]>
  (<["formants" := VFloatList []]>
  (<["voice_type" := VStr "unknown"]>
  (<["hnr" := VFloat 0]>
  (<["spectral_features" := VDict ∅]>
  (<["is_singing" := VBool false]>
  (<["vibrato" := VNone]>
  (<["fundamental_clarity" := VFloat 0]> ∅))))))))))).

(** The body of [detailed_voice_analysis], inside its [try]. *)
Definition detailed_voice_analysis_body (audio_frame : list Q)
    : M (gmap string value) :=
  let results := detailed_defaults true in
  pitch_info <- detect_pitch_yin audio_frame ;;
  let results :=
    <["fundamental_clarity" := VFloat (clarity pitch_info)]>
    (<["pitch_note" := option_str (note pitch_info)]>
    (<["pitch_confidence" := VFloat (confidence pitch_info)]>
    (<["pitch" := VFloat (frequency pitch_info)]> results))) in
  (if Qltb 0 (frequency pitch_info)
   then modify (push_pitch (frequency pitch_info)) else ret tt) ;;;
  formants <- lift (analyze_formants_lpc audio_frame) ;;
  let results := <["formants" := VFloatList formants]> results in
  hnr <- lift (calculate_hnr audio_frame (frequency pitch_info)) ;;
  let results := <["hnr" := VFloat hnr]> results in
  modify (push_hnr hnr) ;;;
  features <- lift (extract_spectral_features audio_frame) ;;
  let results := <["spectral_features" := VDict features]> results in
  modify (push_spectral features) ;;;
  let results :=
    <["voice_type" :=
        VStr (Classifier.voice_type_name
                (Classifier.classify_voice_type (frequency pitch_info) formants))]>
      results in
  st <- get_state ;;
  results <-
    (if (15 <=? length (pitch_history st))%nat then
       vibrato_info <- lift (detect_vibrato (pitch_history st)) ;;
       let results := <["vibrato" := option_dict vibrato_info]> results in
       ret (<["is_singing" := VBool (detect_singing results vibrato_info)]> results)
     else ret results) ;;
  let results :=
    <["voice_confidence" := VFloat (calculate_voice_confidence results)]> results in
  let results :=
    if Qltb 0 (get_float results "pitch" 0)
       && Qltb (get_float results "voice_confidence" 0) (3 # 10)
    then <["voice_confidence" := VFloat (5 # 10)]> results
    else results in
  ret results.

(** [detailed_voice_analysis]. *)
Definition detailed_voice_analysis (audio_frame : list Q) : M (gmap string value) :=
  try_except (detailed_voice_analysis_body audio_frame) (detailed_defaults false).

(** The result dictionary of [detect_voice_realtime], also returned by its
    handler. *)
Definition realtime_defaults : gmap string value :=
  <["vocal_energy" := VFloat 0]> (detailed_defaults false).

(** The body of [detect_voice_realtime], inside its [try]. *)
Definition detect_voice_realtime_body (audio_frame : list Q)
    : M (gmap string value) :=
  modify incr_frame_counter ;;;
  let energy := frame_rms audio_frame in
  let results := <["vocal_energy" := VFloat energy]> realtime_defaults in
  if Qltb energy (1 # 1000) then ret results
  else
    vad_result <- quick_vad_check energy (vad_spectrum audio_frame) ;;
    if vad_result : bool then
      st <- get_state ;;
      if (frame_counter st `mod` analysis_frame_skip =? 0)%Z then
        detailed_results <- detailed_voice_analysis audio_frame ;;
        ret (update results detailed_results)
      else
        let results := <["has_voice" := VBool true]> results in
        match List.last (map Some (pitch_history st)) None with
        | Some p =>
            let results := <["pitch" := VFloat p]> results in
            let results :=
              <["voice_confidence" :=
                  VFloat (pymin (7 # 10)
                            (pymax (3 # 10)
                               (inject_Z (Z.of_nat (length (pitch_history st))) / 30)))]>
                results in
            ret (<["voice_type" :=
                     VStr (Classifier.voice_type_name
                             (Classifier.classify_voice_type p []))]> results)
        | None => ret results
        end
    else ret results.

(** [detect_voice_realtime]: the entry point. *)
Definition detect_voice_realtime (audio_frame : list Q) : M (gmap string value) :=
  try_except (detect_voice_realtime_body audio_frame) realtime_defaults.

(** A run of the detector over a sequence of frames: the final state and
    the outcome of every call. *)
Fixpoint run (st : State) (frames : list (list Q))
    : State * list (outcome (gmap string value)) :=
  match frames with
  | [] => (st, [])
  | f :: rest =>
      let '(st', o) := detect_voice_realtime f st in
      let '(st'', os) := run st' rest in
      (st'', o :: os)
  end.

End WithKernels.

End Voice.

(** ** The spectrum of [quick_vad_check] over the reals

    [np.fft.rfft] is the discrete Fourier transform restricted to the
    bins [0 .. n/2]. Sines and cosines are irrational, so this part of
    the detector is embedded over [R]. *)

Module VadReal.

Local Open Scope R_scope.

(** Sum of [f 0 .. f (n-1)]. *)
Fixpoint rsum (f : nat -> R) (n : nat) : R :=
  match n with
  | O => 0
  | S n' => rsum f n' + f n'
  end.

Definition sample (x : list R) (i : nat) : R := nth i x 0.

(** The angle [2 pi k i / n] of the transform. *)
Definition angle (n k i : nat) : R := 2 * PI * INR k * INR i / INR n.

(** Real and imaginary part of bin [k] of the transform of [x]. *)
Definition dft_re (x : list R) (k : nat) : R :=
  rsum (fun i => sample x i * cos (angle (length x) k i)) (length x).

Definition dft_im (x : list R) (k : nat) : R :=
  - rsum (fun i => sample x i * sin (angle (length x) k i)) (length x).

(** [magnitude = np.abs(fft)]. *)
Definition magnitude (x : list R) (k : nat) : R :=
  sqrt (dft_re x k * dft_re x k + dft_im x k * dft_im x k).

(** The number of bins of [np.fft.rfft]. *)
Definition rfft_bins (x : list R) : nat := S (length x / 2).

(** [total_energy = np.sum(magnitude ** 2)]. *)
Definition total_energy (x : list R) : R :=
  rsum (fun k => magnitude x k * magnitude x k) (rfft_bins x).

(** [np.sqrt(np.mean(audio_frame ** 2))]. *)
Definition rms_energy (x : list R) : R :=
  sqrt (rsum (fun i => sample x i * sample x i) (length x) / INR (length x)).

End VadReal.

(** ** Frequency bands of the spectrum bars: [_create_band_mapping] *)

Module BandMap.

Definition MAX_FREQ : Q := 20000.

(** [self.freqs = np.fft.rfftfreq(FFT_SIZE, 1/SAMPLE_RATE)]: the
    frequencies of the bins [0 .. FFT_SIZE/2]. *)
Definition n_bins : nat := FFT_SIZE / 2 + 1.
Definition freqs : list Q := map Bars.freqs (seq 0 n_bins).

(** [np.linspace(start, stop, num)], end point included. *)
Definition linspace (start stop : Q) (num : nat) : list Q :=
  match num with
  | 0%nat => []
  | 1%nat => [start]
  | _ =>
      let step := (stop - start) / inject_Z (Z.of_nat (num - 1)) in
      map (fun i => start + inject_Z (Z.of_nat i) * step) (seq 0 num)
  end.

(** [np.argmin]: the first index of the least value. *)
Fixpoint argmin_from (l : list Q) (i best_i : nat) (best : Q) : nat :=
  match l with
  | [] => best_i
  | x :: rest =>
      if Qltb x best then argmin_from rest (S i) i x
      else argmin_from rest (S i) best_i best
  end.

Definition argmin (l : list Q) : nat :=
  match l with
  | [] => 0%nat
  | x :: rest => argmin_from rest 1 0 x
  end.

(** [np.where((self.freqs >= low) & (self.freqs <= high))[0]]. *)
Definition bins_between (low high : Q) : list nat :=
  List.filter (fun k => Qleb low (Bars.freqs k) && Qleb (Bars.freqs k) high)
              (seq 0 n_bins).

(** The bins of the band between two consecutive frequency points: those
    inside it, or else the bin nearest to its centre. *)
Definition band_of (low_freq high_freq : Q) : list nat :=
  match bins_between low_freq high_freq with
  | [] => [argmin (map (fun f => Qabs (f - (low_freq + high_freq) / 2)) freqs)]
  | indices => indices
  end.

(** The loop [for i in range(len(all_freqs) - 1)]. *)
Fixpoint bands_of (all_freqs : list Q) : list (list nat) :=
  match all_freqs with
  | low_freq :: (high_freq :: _) as rest => band_of low_freq high_freq :: bands_of rest
  | _ => []
  end.

Section WithLog.

(** [np.log10] and [10 ** x]. *)
Variable log10 : Q -> Q.
Variable pow10 : Q -> Q.

(** [np.logspace(start, stop, num)] is [10 ** np.linspace(start, stop, num)]. *)
Definition logspace (start stop : Q) (num : nat) : list Q :=
  map pow10 (linspace start stop num).

(** The frequency points of [_create_band_mapping] for [bars] bars: linear
    in the sub-bass and bass, logarithmic above. *)
Definition all_freqs (bars : nat) : list Q :=
  let freq_min := 20 in
  let freq_max := pymin MAX_FREQ (List.last freqs 0) in
  let low_end_bars := py_int (inject_Z (Z.of_nat bars) * (6 # 10)) in
  let mid_bars := py_int (inject_Z (Z.of_nat bars) * (3 # 10)) in
  let high_bars := (Z.of_nat bars - low_end_bars - mid_bars)%Z in
  let sub_bass_bars := py_int (inject_Z low_end_bars * (4 # 10)) in
  let bass_bars := (low_end_bars - sub_bass_bars)%Z in
  let sub_bass_freqs := linspace freq_min 80 (Z.to_nat (sub_bass_bars + 1)) in
  let bass_freqs := linspace 80 500 (Z.to_nat (bass_bars + 1)) in
  let mid_freqs := logspace (log10 500) (log10 5000) (Z.to_nat (mid_bars + 1)) in
  let high_freqs := logspace (log10 5000) (log10 freq_max) (Z.to_nat (high_bars + 1)) in
  removelast sub_bass_freqs ++ removelast bass_freqs ++ removelast mid_freqs
  ++ high_freqs.

(** [_create_band_mapping]. *)
Definition create_band_mapping (bars : nat) : list (list nat) :=
  bands_of (all_freqs bars).

End WithLog.

End BandMap.

(** ** GrooveAnalyzer: beat grid, tempo candidates and pattern matching *)

Module GrooveAnalyzer.

Record State := mkState {
  beat_grid : list (Q * string * Q);       (* deque(maxlen=64) *)
  tempo_candidates : list Q;               (* deque(maxlen=16) *)
  stable_bpm : Q;
  beat_confidence : Q;
  groove_stability : Q;
  kick_intervals : list Q;                 (* deque(maxlen=8) *)
  snare_intervals : list Q;                (* deque(maxlen=8) *)
  last_kick_time : Q;
  last_snare_time : Q;
  current_pattern : string;
  pattern_confidence : Q;
  pattern_lock_time : Q
}.

Definition pattern_lock_duration : Q := 8.

(** [__init__]. *)
Definition init : State :=
  {| beat_grid := []; tempo_candidates := []; stable_bpm := 0;
     beat_confidence := 0; groove_stability := 0;
     kick_intervals := []; snare_intervals := [];
     last_kick_time := 0; last_snare_time := 0;
     current_pattern := "unknown"; pattern_confidence := 0;
     pattern_lock_time := 0 |}.

(** [self.groove_patterns], in insertion order. *)
Definition groove_patterns : list (string * list Z) :=
  [ ("four_four_basic", [1; 0; 0; 0; 1; 0; 0; 0; 1; 0; 0; 0; 1; 0; 0; 0]);
    ("backbeat",        [1; 0; 1; 0; 1; 0; 1; 0; 1; 0; 1; 0; 1; 0; 1; 0]);
    ("shuffle",         [1; 0; 0; 1; 0; 0; 1; 0; 0; 1; 0; 0; 1; 0; 0; 0]);
    ("latin_clave",     [1; 0; 0; 1; 0; 0; 1; 0; 0; 0; 1; 0; 0; 1; 0; 0]);
    ("breakbeat",       [1; 0; 0; 0; 1; 0; 1; 0; 0; 1; 0; 0; 1; 0; 0; 1]);
    ("drum_and_bass",   [1; 0; 0; 0; 0; 0; 1; 0; 1; 0; 0; 0; 0; 0; 1; 0]);
    ("reggae",          [0; 0; 1; 0; 0; 0; 1; 0; 0; 0; 1; 0; 0; 0; 1; 0]);
    ("rock_basic",      [1; 0; 1; 0; 1; 0; 1; 0; 1; 0; 1; 0; 1; 0; 1; 0]) ]%Z.

(** Python's [x % m] on floats, for a positive [m]: the result has the
    sign of [m]. *)
Definition py_fmod (x m : Q) : Q := x - m * inject_Z (Qfloor (x / m)).

(** One hit of the loop that fills the 16-step grid. *)
Definition place_hit (start_time beat_interval : Q) (grid : list Z)
    (hit : Q * string) : list Z :=
  let relative_time := fst hit - start_time in
  let beat_position := py_int (py_fmod (relative_time / beat_interval) 16) in
  if ((0 <=? beat_position) && (beat_position <? 16))%Z then
    if existsb (String.eqb (snd hit)) ["kick"; "snare"] then
      let i := Z.to_nat beat_position in
      <[i := Z.max (nth i grid 0%Z) 1]> grid
    else grid
  else grid.

(** [sum(1 for i in range(16) if beat_grid[i] == pattern[i])]. *)
Definition matches (grid pattern : list Z) : Z :=
  Z.of_nat (length (List.filter (fun i => (nth i grid 0 =? nth i pattern 0)%Z)
                                (seq 0 16))).

Definition score (grid pattern : list Z) : Q := inject_Z (matches grid pattern) / 16.

(** One pattern of the comparison loop. *)
Definition compare_pattern (grid : list Z) (best : string * Q)
    (entry : string * list Z) : string * Q :=
  let s := score grid (snd entry) in
  if Qltb (snd best) s && Qltb (6 # 10) s then (fst entry, s) else best.

Definition set_pattern_confidence (c : Q) (st : State) : State :=
  {| beat_grid := beat_grid st; tempo_candidates := tempo_candidates st;
     stable_bpm := stable_bpm st; beat_confidence := beat_confidence st;
     groove_stability := groove_stability st;
     kick_intervals := kick_intervals st; snare_intervals := snare_intervals st;
     last_kick_time := last_kick_time st; last_snare_time := last_snare_time st;
     current_pattern := current_pattern st; pattern_confidence := c;
     pattern_lock_time := pattern_lock_time st |}.

Definition lock_pattern (name : string) (t : Q) (st : State) : State :=
  {| beat_grid := beat_grid st; tempo_candidates := tempo_candidates st;
     stable_bpm := stable_bpm st; beat_confidence := beat_confidence st;
     groove_stability := groove_stability st;
     kick_intervals := kick_intervals st; snare_intervals := snare_intervals st;
     last_kick_time := last_kick_time st; last_snare_time := last_snare_time st;
     current_pattern := name; pattern_confidence := pattern_confidence st;
     pattern_lock_time := t |}.

(** [match_groove_pattern]; [current_time] is the reading of [time.time()],
    taken only when there are at least eight hits. *)
Definition match_groove_pattern (st : State) (current_time : Q)
    (recent_hits : list (Q * string)) : State * string :=
  if (length recent_hits <? 8)%nat then (st, "insufficient_data")
  else if Qltb (current_time - pattern_lock_time st) pattern_lock_duration
  then (st, current_pattern st)
  else if Qltb 60 (stable_bpm st) then
    let beat_interval := 60 / stable_bpm st in
    let start_time := match recent_hits with h :: _ => fst h | [] => 0 end in
    let grid :=
      fold_left (place_hit start_time beat_interval)
                (skipn (length recent_hits - 16) recent_hits)
                (repeat 0%Z 16) in
    let '(best_match, best_score) :=
      fold_left (compare_pattern grid) groove_patterns ("unknown", 0) in
    let st1 := set_pattern_confidence best_score st in
    let st2 :=
      if Qltb (8 # 10) best_score then lock_pattern best_match current_time st1
      else st1 in
    (st2, best_match)
  else (st, "no_tempo").

Record Result := mkResult {
  r_stable_bpm : Q;
  r_groove_pattern : string;
  r_pattern_confidence : Q;
  r_beat_confidence : Q;
  r_groove_stability : Q;
  r_tempo_std : Q;
  r_active_beats : nat
}.

(** What one call of [analyze_groove] is given: the detections of the
    frame, and the two clock readings of the call (its own and the one of
    [match_groove_pattern]). *)
Record Input := mkInput {
  i_time : Q;
  i_match_time : Q;
  i_kick_detected : bool;
  i_snare_detected : bool;
  i_kick_strength : Q;
  i_snare_strength : Q
}.

Section WithKernels.

(** [np.exp] and [np.std]. *)
Variable exp : Q -> Q.
Variable std : list Q -> Q.

(** [np.average(recent_tempos, weights=np.exp(np.linspace(-1, 0, n)))]. *)
Definition weighted_average (recent_tempos : list Q) : Q :=
  let weights := map exp (BandMap.linspace (-1) 0 (length recent_tempos)) in
  qsum (map (fun p => fst p * snd p) (combine recent_tempos weights)) / qsum weights.

(** [round(x, 1)]. *)
Definition round1 (x : Q) : Q := inject_Z (py_round (x * 10)) / 10.

(** The timing part of [analyze_groove] for one instrument: the interval
    since its last hit is stored once a first hit has been seen. *)
Definition track_kick (inp : Input) (st : State) : State :=
  if i_kick_detected inp then
    {| beat_grid := deque_append 64 (i_time inp, "kick", i_kick_strength inp) (beat_grid st);
       tempo_candidates := tempo_candidates st;
       stable_bpm := stable_bpm st; beat_confidence := beat_confidence st;
       groove_stability := groove_stability st;
       kick_intervals :=
         if Qltb 0 (last_kick_time st)
         then deque_append 8 (i_time inp - last_kick_time st) (kick_intervals st)
         else kick_intervals st;
       snare_intervals := snare_intervals st;
       last_kick_time := i_time inp; last_snare_time := last_snare_time st;
       current_pattern := current_pattern st;
       pattern_confidence := pattern_confidence st;
       pattern_lock_time := pattern_lock_time st |}
  else st.

Definition track_snare (inp : Input) (st : State) : State :=
  if i_snare_detected inp then
    {| beat_grid := deque_append 64 (i_time inp, "snare", i_snare_strength inp) (beat_grid st);
       tempo_candidates := tempo_candidates st;
       stable_bpm := stable_bpm st; beat_confidence := beat_confidence st;
       groove_stability := groove_stability st;
       kick_intervals := kick_intervals st;
       snare_intervals :=
         if Qltb 0 (last_snare_time st)
         then deque_append 8 (i_time inp - last_snare_time st) (snare_intervals st)
         else snare_intervals st;
       last_kick_time := last_kick_time st; last_snare_time := i_time inp;
       current_pattern := current_pattern st;
       pattern_confidence := pattern_confidence st;
       pattern_lock_time := pattern_lock_time st |}
  else st.

(** The tempo part: a positive estimate becomes a candidate, and four
    candidates give a stable tempo and a stability. *)
Definition update_tempo (st : State) : State :=
  let all_intervals := kick_intervals st ++ snare_intervals st in
  if (3 <=? length all_intervals)%nat then
    let tempo_estimate := Groove.estimate_tempo_from_intervals all_intervals in
    let candidates :=
      if Qltb 0 tempo_estimate
      then deque_append 16 tempo_estimate (tempo_candidates st)
      else tempo_candidates st in
    let '(bpm, stability) :=
      if (4 <=? length candidates)%nat
      then (weighted_average candidates, pymax 0 (1 - std candidates / 20))
      else (stable_bpm st, groove_stability st) in
    {| beat_grid := beat_grid st; tempo_candidates := candidates;
       stable_bpm := bpm; beat_confidence := beat_confidence st;
       groove_stability := stability;
       kick_intervals := kick_intervals st; snare_intervals := snare_intervals st;
       last_kick_time := last_kick_time st; last_snare_time := last_snare_time st;
       current_pattern := current_pattern st;
       pattern_confidence := pattern_confidence st;
       pattern_lock_time := pattern_lock_time st |}
  else st.

Definition set_beat_confidence (st : State) : State :=
  {| beat_grid := beat_grid st; tempo_candidates := tempo_candidates st;
     stable_bpm := stable_bpm st;
     beat_confidence := groove_stability st * (6 # 10) + pattern_confidence st * (4 # 10);
     groove_stability := groove_stability st;
     kick_intervals := kick_intervals st; snare_intervals := snare_intervals st;
     last_kick_time := last_kick_time st; last_snare_time := last_snare_time st;
     current_pattern := current_pattern st;
     pattern_confidence := pattern_confidence st;
     pattern_lock_time := pattern_lock_time st |}.

(** [analyze_groove]. *)
Definition analyze_groove (st : State) (inp : Input) : State * Result :=
  let st1 := track_kick inp st in
  let st2 := track_snare inp st1 in
  let st3 := update_tempo st2 in
  let recent_hits :=
    map (fun h => (fst (fst h), snd (fst h)))
        (skipn (length (beat_grid st3) - 16) (beat_grid st3)) in
  let '(st4, pattern_match) := match_groove_pattern st3 (i_match_time inp) recent_hits in
  let st5 := set_beat_confidence st4 in
  (st5,
   {| r_stable_bpm := round1 (stable_bpm st5);
      r_groove_pattern := pattern_match;
      r_pattern_confidence := pattern_confidence st5;
      r_beat_confidence := beat_confidence st5;
      r_groove_stability := groove_stability st5;
      r_tempo_std :=
        if (1 <? length (tempo_candidates st5))%nat
        then std (tempo_candidates st5) else 0;
      r_active_beats := length (beat_grid st5) |}).

(** A run of the analyzer over the frames' inputs. *)
Fixpoint run (st : State) (inputs : list Input) : list Result :=
  match inputs with
  | [] => []
  | inp :: rest =>
      let '(st', r) := analyze_groove st inp in
      r :: run st' rest
  end.

Fixpoint final (st : State) (inputs : list Input) : State :=
  match inputs with
  | [] => st
  | inp :: rest => final (fst (analyze_groove st inp)) rest
  end.

End WithKernels.

End GrooveAnalyzer.

(** ** EnhancedDrumDetector: [process_audio] *)

Module DrumDetector.

Record State := mkState {
  kick_detector : Kick.State;
  snare_detector : Snare.State;
  groove_analyzer : GrooveAnalyzer.State;
  kick_times : list Q;                          (* deque(maxlen=8) *)
  current_bpm : Q;
  pattern_history : list (string * Q * Z)       (* deque(maxlen=32) *)
}.

(** [__init__]. *)
Definition init (sr : Z) (sens : Q) : State :=
  {| kick_detector := Kick.init sr sens;
     snare_detector := Snare.init sr sens;
     groove_analyzer := GrooveAnalyzer.init;
     kick_times := []; current_bpm := 0; pattern_history := [] |}.

(** The clock readings of one call, in the order they are taken: by
    [process_audio] itself, by the kick detector, by the snare detector,
    by [analyze_groove] and by [match_groove_pattern]. *)
Record Clock := mkClock {
  c_process : Q;
  c_kick : Q;
  c_snare : Q;
  c_groove : Q;
  c_match : Q
}.

Record Result := mkResult {
  r_kick : Kick.Result;
  r_snare : Snare.Result;
  r_groove : GrooveAnalyzer.Result;
  r_bpm : Q;
  r_simultaneous_hit : bool;
  r_pattern_length : nat;
  r_beat_detected : bool;
  r_beat_strength : Q
}.

(** The differences [kick_times[i] - kick_times[i-1]] that lie strictly
    between 0.3 and 2.0 seconds. *)
Fixpoint recent_intervals (times : list Q) : list Q :=
  match times with
  | a :: (b :: _) as rest =>
      let interval := b - a in
      if Qltb (3 # 10) interval && Qltb interval 2
      then interval :: recent_intervals rest
      else recent_intervals rest
  | _ => []
  end.

(** [np.mean] of a non-empty list. *)
Definition mean (l : list Q) : Q := qsum l / inject_Z (Z.of_nat (length l)).

(** The legacy tempo: 60 over the mean of the recent intervals, when there
    are any; otherwise the tempo stays. *)
Definition legacy_bpm (times : list Q) (bpm : Q) : Q :=
  if (2 <=? length times)%nat then
    match recent_intervals times with
    | [] => bpm
    | intervals => 60 / mean intervals
    end
  else bpm.

Section WithKernels.

Variable exp : Q -> Q.
Variable std : list Q -> Q.

(** [process_audio]. *)
Definition process_audio (st : State) (clk : Clock) (fft_data : list Q)
    : State * Result :=
  let '(kick_st, kick_info) :=
    Kick.detect_kick_onset (kick_detector st) (c_kick clk) fft_data in
  let '(snare_st, snare_info) :=
    Snare.detect_snare_onset (snare_detector st) (c_snare clk) fft_data in
  let '(groove_st, groove_info) :=
    GrooveAnalyzer.analyze_groove exp std (groove_analyzer st)
      {| GrooveAnalyzer.i_time := c_groove clk;
         GrooveAnalyzer.i_match_time := c_match clk;
         GrooveAnalyzer.i_kick_detected := Kick.r_kick_detected kick_info;
         GrooveAnalyzer.i_snare_detected := Snare.r_snare_detected snare_info;
         GrooveAnalyzer.i_kick_strength := Kick.r_kick_strength kick_info;
         GrooveAnalyzer.i_snare_strength := Snare.r_snare_strength snare_info |} in
  let times :=
    if Kick.r_kick_detected kick_info
    then deque_append 8 (c_process clk) (kick_times st) else kick_times st in
  let history1 :=
    if Kick.r_kick_detected kick_info
    then deque_append 32 ("kick", c_process clk, Kick.r_kick_velocity kick_info)
           (pattern_history st)
    else pattern_history st in
  let bpm :=
    if Kick.r_kick_detected kick_info then legacy_bpm times (current_bpm st)
    else current_bpm st in
  let history2 :=
    if Snare.r_snare_detected snare_info
    then deque_append 32 ("snare", c_process clk, Snare.r_snare_velocity snare_info)
           history1
    else history1 in
  ({| kick_detector := kick_st; snare_detector := snare_st;
      groove_analyzer := groove_st;
      kick_times := times; current_bpm := bpm; pattern_history := history2 |},
   {| r_kick := kick_info; r_snare := snare_info; r_groove := groove_info;
      r_bpm := pymax bpm (GrooveAnalyzer.r_stable_bpm groove_info);
      r_simultaneous_hit :=
        Kick.r_kick_detected kick_info && Snare.r_snare_detected snare_info;
      r_pattern_length := length history2;
      r_beat_detected :=
        Kick.r_kick_detected kick_info || Snare.r_snare_detected snare_info;
      r_beat_strength :=
        pymax (Kick.r_kick_strength kick_info) (Snare.r_snare_strength snare_info) |}).

(** A run over frames, each with its clock readings and spectrum. *)
Fixpoint run (st : State) (frames : list (Clock * list Q)) : list Result :=
  match frames with
  | [] => []
  | (clk, fft_data) :: rest =>
      let '(st', r) := process_audio st clk fft_data in
      r :: run st' rest
  end.

Fixpoint final (st : State) (frames : list (Clock * list Q)) : State :=
  match frames with
  | [] => st
  | (clk, fft_data) :: rest => final (fst (process_audio st clk fft_data)) rest
  end.

End WithKernels.

End DrumDetector.

(** ** Bar of a frequency: [find_bar_position_for_frequency] *)

Module BarLookup.

(** The loop over [enumerate(self.band_indices)], from bar [i] on: the
    first bar with bins whose range holds the frequency, or whose centre
    is nearer to it than half the width of the range. *)
Fixpoint find_from (band_indices : list (list nat)) (bands : list (list nat))
    (i : nat) (target_freq : Q) : option nat :=
  match bands with
  | [] => None
  | indices :: rest =>
      match indices with
      | [] => find_from band_indices rest (S i) target_freq
      | _ =>
          let freq_range := Bars.get_frequency_range_for_bar band_indices i in
          if Qleb (fst freq_range) target_freq && Qleb target_freq (snd freq_range)
          then Some i
          else
            let center_freq := (fst freq_range + snd freq_range) / 2 in
            if Qltb (Qabs (target_freq - center_freq))
                    ((snd freq_range - fst freq_range) / 2)
            then Some i
            else find_from band_indices rest (S i) target_freq
      end
  end.

(** [find_bar_position_for_frequency]. *)
Definition find_bar_position_for_frequency (band_indices : list (list nat))
    (target_freq : Q) : option nat :=
  find_from band_indices band_indices 0 target_freq.

End BarLookup.

(** * Properties *)

(** ** Comparisons, minimum and maximum *)

Lemma Qltb_lt (x y : Q) : Qltb x y = true <-> x < y.
Proof.
  unfold Qltb. rewrite Qlt_alt.
  destruct (x ?= y); split; intro H; congruence.
Qed.

Lemma Qltb_ge (x y : Q) : Qltb x y = false <-> y <= x.
Proof.
  split; intro H.
  - apply Qnot_lt_le. intro Hlt. apply Qltb_lt in Hlt. congruence.
  - destruct (Qltb x y) eqn:E; [ | reflexivity ].
    apply Qltb_lt in E. apply Qle_not_lt in H. contradiction.
Qed.

Lemma Qleb_le (x y : Q) : Qleb x y = true <-> x <= y.
Proof.
  unfold Qleb. rewrite Qle_alt.
  destruct (x ?= y); split; intro H; congruence.
Qed.

Lemma Qleb_gt (x y : Q) : Qleb x y = false <-> y < x.
Proof.
  split; intro H.
  - apply Qnot_le_lt. intro Hle. apply Qleb_le in Hle. congruence.
  - destruct (Qleb x y) eqn:E; [ | reflexivity ].
    apply Qleb_le in E. apply Qlt_not_le in H. contradiction.
Qed.

(** Case analysis on a float comparison, leaving the order fact in the
    context for [lra]. *)
Ltac case_Qltb x y :=
  let H := fresh "Hcmp" in
  destruct (Qltb x y) eqn:H;
  [ apply Qltb_lt in H | apply Qltb_ge in H ].

Ltac case_Qleb x y :=
  let H := fresh "Hcmp" in
  destruct (Qleb x y) eqn:H;
  [ apply Qleb_le in H | apply Qleb_gt in H ].

Lemma pymin_spec (a b : Q) :
  (b < a /\ pymin a b = b) \/ (a <= b /\ pymin a b = a).
Proof. unfold pymin. case_Qltb b a; auto. Qed.

Lemma pymax_spec (a b : Q) :
  (a < b /\ pymax a b = b) \/ (b <= a /\ pymax a b = a).
Proof. unfold pymax. case_Qltb a b; auto. Qed.

Lemma pymin_le_l (a b : Q) : pymin a b <= a.
Proof. destruct (pymin_spec a b) as [[? ->]|[? ->]]; lra. Qed.

Lemma pymin_le_r (a b : Q) : pymin a b <= b.
Proof. destruct (pymin_spec a b) as [[? ->]|[? ->]]; lra. Qed.

Lemma pymin_glb (a b c : Q) : c <= a -> c <= b -> c <= pymin a b.
Proof. intros. destruct (pymin_spec a b) as [[? ->]|[? ->]]; lra. Qed.

Lemma pymax_ge_l (a b : Q) : a <= pymax a b.
Proof. destruct (pymax_spec a b) as [[? ->]|[? ->]]; lra. Qed.

Lemma pymax_ge_r (a b : Q) : b <= pymax a b.
Proof. destruct (pymax_spec a b) as [[? ->]|[? ->]]; lra. Qed.

Lemma pymax_lub (a b c : Q) : a <= c -> b <= c -> pymax a b <= c.
Proof. intros. destruct (pymax_spec a b) as [[? ->]|[? ->]]; lra. Qed.

(** On non-negative floats [int] is the floor. *)
Lemma py_int_floor (x : Q) : 0 <= x -> py_int x = Qfloor x.
Proof.
  destruct x as [n d]. unfold Qle, py_int, Qfloor. simpl. intro H.
  apply Z.quot_div_nonneg; lia.
Qed.

(** ** Velocity of a detection (C5) *)

Lemma velocity_floor (s : Q) :
  0 <= s <= 1 ->
  Z.min 127 (py_int (s * 127)) = Qfloor (s * 127)
  /\ (0 <= Qfloor (s * 127) <= 127)%Z.
Proof.
  intros [H0 H1].
  rewrite py_int_floor by nra.
  assert (Hlo : (Qfloor 0 <= Qfloor (s * 127))%Z)
    by (apply Qfloor_resp_le; lra).
  assert (Hhi : (Qfloor (s * 127) <= Qfloor 127)%Z)
    by (apply Qfloor_resp_le; lra).
  change (Qfloor 0) with 0%Z in Hlo. change (Qfloor 127) with 127%Z in Hhi.
  lia.
Qed.



(** A run of the kick detector from its initial state: ten silent frames
    of 1025 magnitude bins, one per second, then a frame that raises the
    five lowest bins. *)
Definition silent_magnitude : list Q := repeat 0 1025.
Definition onset_magnitude : list Q := repeat (3 # 10000000) 5 ++ repeat 0 1020.
Definition onset_run : list (Q * list Q) :=
  map (fun i => (inject_Z (Z.of_nat i), silent_magnitude)) (seq 1 10)
  ++ [(11, onset_magnitude)].





(** ** Voice type from the pitch table (C4) *)

(** The specification's reading of the table: rows are tried in table
    order, the bounds are inclusive, the first row containing the pitch
    wins. *)
Inductive first_match (pitch : Q)
    : list (Classifier.voice_type * (Q * Q)) -> Classifier.voice_type -> Prop :=
  | first_match_here v low high rest :
      low <= pitch <= high ->
      first_match pitch ((v, (low, high)) :: rest) v
  | first_match_later v' low high rest v :
      ~ (low <= pitch <= high) ->
      first_match pitch rest v ->
      first_match pitch ((v', (low, high)) :: rest) v.

Lemma first_range_sound (pitch : Q) table v :
  first_match pitch table v -> Classifier.first_range pitch table = Some v.
Proof.
  induction 1 as [v low high rest [Hl Hh] | v' low high rest v Hn _ IH];
    cbn [Classifier.first_range].
  - apply Qleb_le in Hl, Hh. rewrite Hl, Hh. reflexivity.
  - case_Qleb low pitch; case_Qleb pitch high; cbn [andb]; auto.
    exfalso. apply Hn. split; assumption.
Qed.

Lemma first_range_complete (pitch : Q) table v :
  Classifier.first_range pitch table = Some v -> first_match pitch table v.
Proof.
  induction table as [| [v' [low high]] rest IH]; cbn [Classifier.first_range].
  - discriminate.
  - case_Qleb low pitch; case_Qleb pitch high; cbn [andb]; intro H.
    + injection H as <-. constructor. split; assumption.
    + apply first_match_later; [ lra | auto ].
    + apply first_match_later; [ lra | auto ].
    + apply first_match_later; [ lra | auto ].
Qed.

(** C4, counterexample: at 220 Hz without formants the classifier answers
    tenor, not alto; the answer is outside {alto, mezzo-soprano}. *)
Lemma C4_pitch_220_not_alto :
  Classifier.classify_voice_type 220 [] <> Classifier.Alto
  /\ Classifier.classify_voice_type 220 [] <> Classifier.MezzoSoprano.
Proof. split; vm_compute; discriminate. Qed.

(** C4, as the code has it: a positive pitch that some row of the table
    contains is classified by the first such row in table order, whatever
    the formants; at 220 Hz with no formants the first such row is tenor
    (123-246), since bass and baritone end below 220. *)
Theorem C4_first_match_wins :
  forall (pitch : Q) (formants : list Q) (v : Classifier.voice_type),
    0 < pitch ->
    first_match pitch Classifier.voice_ranges v ->
    Classifier.classify_voice_type pitch formants = v
    /\ Classifier.classify_voice_type 220 [] = Classifier.Tenor
    /\ first_match 220 Classifier.voice_ranges Classifier.Tenor.
Proof.
  intros pitch formants v Hpos Hm.
  split; [ | split ].
  - unfold Classifier.classify_voice_type.
    case_Qleb pitch 0; [ lra | ].
    rewrite (first_range_sound _ _ _ Hm). reflexivity.
  - vm_compute. reflexivity.
  - apply first_range_complete. vm_compute. reflexivity.
Qed.

Lemma C4_first_match_wins_witness :
  Classifier.classify_voice_type 300 [] = Classifier.Alto.
Proof.
  assert (Hpos : 0 < 300) by reflexivity.
  assert (Hm : first_match 300 Classifier.voice_ranges Classifier.Alto).
  { apply first_range_complete. vm_compute. reflexivity. }
  exact (proj1 (C4_first_match_wins 300 [] Classifier.Alto Hpos Hm)).
Defined.

(** ** Voice-activity hangover (C9) *)

(** [quick_vad_check] unfolded: history append, decision, hangover. *)
Lemma quick_vad_check_eq (rms : Q) (sp : Voice.VadSpectrum) (st : Voice.State) :
  Voice.quick_vad_check rms sp st
  = let st1 := Voice.push_vocal_energy (Voice.vocal_core_energy sp) st in
    match Voice.vad_decision rms sp with
    | Py.Return b =>
        let cv := Voice.hangover b (Voice.vad_counter st) in
        (Voice.set_vad_counter (fst cv) st1, Py.Return (snd cv))
    | Py.Raise e => (st1, Py.Raise e)
    end.
Proof.
  unfold Voice.quick_vad_check, Voice.bind, Voice.modify, Voice.lift,
    Voice.get_state, Voice.ret.
  cbv zeta.
  destruct (Voice.vad_decision rms sp) as [b | e]; [ | reflexivity ].
  cbn [Voice.push_vocal_energy Voice.vad_counter].
  destruct (Voice.hangover b (Voice.vad_counter st)) as [c v].
  reflexivity.
Qed.

(** A sequence of [quick_vad_check] calls on measured frames. *)
Fixpoint vad_run (st : Voice.State) (calls : list (Q * Voice.VadSpectrum))
    : Voice.State * list (Py.outcome bool) :=
  match calls with
  | [] => (st, [])
  | (rms, sp) :: rest =>
      let '(st', o) := Voice.quick_vad_check rms sp st in
      let '(st'', os) := vad_run st' rest in
      (st'', o :: os)
  end.

Lemma vad_run_quiet (calls : list (Q * Voice.VadSpectrum)) (st : Voice.State) :
  Forall (fun c => Voice.vad_decision (fst c) (snd c) = Py.Return false) calls ->
  (Z.of_nat (length calls) <= Voice.vad_counter st)%Z ->
  snd (vad_run st calls) = repeat (Py.Return true) (length calls)
  /\ Voice.vad_counter (fst (vad_run st calls))
     = (Voice.vad_counter st - Z.of_nat (length calls))%Z.
Proof.
  revert st. induction calls as [| [rms sp] rest IH]; intros st Hq Hc.
  - cbn. split; [ reflexivity | lia ].
  - inversion Hq as [| ? ? Hd Hrest]; subst. cbn [fst snd] in Hd.
    cbn [vad_run length repeat]. rewrite quick_vad_check_eq, Hd. cbv zeta.
    unfold Voice.hangover.
    cbn [length] in Hc.
    destruct (0 <? Voice.vad_counter st)%Z eqn:E; [ | apply Z.ltb_ge in E; lia ].
    cbn [fst snd].
    specialize (IH (Voice.set_vad_counter (Voice.vad_counter st - 1)
                      (Voice.push_vocal_energy (Voice.vocal_core_energy sp) st))
                   Hrest).
    cbn [Voice.set_vad_counter Voice.vad_counter] in IH.
    destruct IH as [IH1 IH2]; [ lia | ].
    destruct (vad_run _ rest) as [st'' os]. cbn [fst snd] in *.
    split; [ f_equal; assumption | lia ].
Qed.

(** C9: the hangover sets the counter to 12 when the raw criteria hold and
    otherwise decrements it while it is positive; the returned flag is
    asserted whenever the raw criteria hold or the counter was positive.
    Hence after a [quick_vad_check] call with a raw detection, each of the
    next calls, up to 12 of them, returns an asserted flag even though the
    raw criteria fail on all of them. *)
Theorem C9_hangover_holds_12_calls :
  forall (st : Voice.State) (rms : Q) (sp : Voice.VadSpectrum)
         (calls : list (Q * Voice.VadSpectrum)),
    Voice.vad_decision rms sp = Py.Return true ->
    Forall (fun c => Voice.vad_decision (fst c) (snd c) = Py.Return false) calls ->
    (length calls <= 12)%nat ->
    let st1 := fst (Voice.quick_vad_check rms sp st) in
    (Voice.hangover true (Voice.vad_counter st) = (12%Z, true)
     /\ (forall c, (0 < c)%Z -> Voice.hangover false c = ((c - 1)%Z, true))
     /\ (forall c, (c <= 0)%Z -> Voice.hangover false c = (c, false)))
    /\ snd (Voice.quick_vad_check rms sp st) = Py.Return true
    /\ Voice.vad_counter st1 = 12%Z
    /\ snd (vad_run st1 calls) = repeat (Py.Return true) (length calls).
Proof.
  intros st rms sp calls Hd Hq Hlen st1.
  split.
  { unfold Voice.hangover. split; [ reflexivity | ].
    split; intros c Hc.
    - apply Z.ltb_lt in Hc. rewrite Hc. reflexivity.
    - apply Z.ltb_ge in Hc. rewrite Hc. reflexivity. }
  subst st1. rewrite quick_vad_check_eq, Hd. cbv zeta.
  cbn [Voice.hangover fst snd Voice.set_vad_counter Voice.vad_counter].
  split; [ reflexivity | ]. split; [ reflexivity | ].
  apply vad_run_quiet; [ assumption | ].
  cbn [Voice.set_vad_counter Voice.vad_counter]. unfold Voice.vad_hangover. lia.
Qed.

(** A frame spectrum with all its energy in the vocal core, and a silent
    one whose energy lies outside it. *)
Definition voiced_spectrum : Voice.VadSpectrum :=
  {| Voice.vocal_core_energy := 1; Voice.drum_bass_energy := 0;
     Voice.high_freq_energy := 0; Voice.total_energy := 1;
     Voice.spectral_flatness := 1 # 10 |}.
Definition unvoiced_spectrum : Voice.VadSpectrum :=
  {| Voice.vocal_core_energy := 0; Voice.drum_bass_energy := 1;
     Voice.high_freq_energy := 0; Voice.total_energy := 1;
     Voice.spectral_flatness := 1 |}.

Lemma C9_hangover_holds_12_calls_witness :
  snd (vad_run (fst (Voice.quick_vad_check (1 # 10) voiced_spectrum Voice.init))
         (repeat (1 # 10, unvoiced_spectrum) 12))
  = repeat (Py.Return true) 12.
Proof.
  assert (Hd : Voice.vad_decision (1 # 10) voiced_spectrum = Py.Return true)
    by (vm_compute; reflexivity).
  assert (Hq : Forall (fun c => Voice.vad_decision (fst c) (snd c) = Py.Return false)
                 (repeat (1 # 10, unvoiced_spectrum) 12)).
  { apply Forall_forall. intros c Hc. apply repeat_spec in Hc. subst c.
    vm_compute. reflexivity. }
  assert (Hlen : (length (repeat (1 # 10, unvoiced_spectrum) 12) <= 12)%nat)
    by (rewrite repeat_length; lia).
  exact (proj2 (proj2 (proj2
    (C9_hangover_holds_12_calls Voice.init (1 # 10) voiced_spectrum
       (repeat (1 # 10, unvoiced_spectrum) 12) Hd Hq Hlen)))).
Defined.

(** ** Tempo from inter-onset intervals (C8) *)

Lemma min_by_spec (key : Q -> Q) (xs : list Q) (best : Q) :
  In (Groove.min_by key best xs) (best :: xs)
  /\ forall x, In x (best :: xs) -> key (Groove.min_by key best xs) <= key x.
Proof.
  revert best. induction xs as [| y ys IH]; intro best; cbn [Groove.min_by].
  - split; [ left; reflexivity | ].
    intros x [<- | []]. lra.
  - case_Qltb (key y) (key best).
    + destruct (IH y) as [Hin Hmin]. split.
      * destruct Hin as [<- | Hin]; [ right; left; reflexivity | right; right; exact Hin ].
      * intros x [<- | [<- | Hx]].
        -- specialize (Hmin y (or_introl eq_refl)). lra.
        -- apply Hmin. left; reflexivity.
        -- apply Hmin. right; exact Hx.
    + destruct (IH best) as [Hin Hmin]. split.
      * destruct Hin as [<- | Hin]; [ left; reflexivity | right; right; exact Hin ].
      * intros x [<- | [<- | Hx]].
        -- apply Hmin. left; reflexivity.
        -- specialize (Hmin best (or_introl eq_refl)). lra.
        -- apply Hmin. right; exact Hx.
Qed.

Lemma closest_common_bpm_spec (bpm : Q) :
  In (Groove.closest_common_bpm bpm) Groove.common_bpms
  /\ forall x, In x Groove.common_bpms ->
       Qabs (Groove.closest_common_bpm bpm - bpm) <= Qabs (x - bpm).
Proof.
  unfold Groove.closest_common_bpm, Groove.common_bpms.
  apply (min_by_spec (fun c => Qabs (c - bpm))).
Qed.

Lemma valid_intervals_spec (intervals : list Q) (i : Q) :
  In i (Groove.valid_intervals intervals)
  <-> In i intervals /\ (2 # 10) <= i <= 2.
Proof.
  unfold Groove.valid_intervals. rewrite filter_In, andb_true_iff, !Qleb_le.
  tauto.
Qed.


(** Three onsets half a second apart give 120 BPM; a raw BPM of 188 is
    not snapped to 180. *)
Example tempo_120 :
  Groove.estimate_tempo_from_intervals [5 # 10; 5 # 10; 3; 5 # 10] == 120.
Proof. vm_compute. reflexivity. Qed.

Example tempo_188_raw :
  Groove.estimate_tempo_from_intervals [60 # 188; 60 # 188; 60 # 188] == 188.
Proof. vm_compute. reflexivity. Qed.

(** ** Spectrum bars (C1) *)


Lemma qsum_nonneg (l : list Q) : Forall (fun x => 0 <= x) l -> 0 <= qsum l.
Proof.
  induction 1 as [| x l Hx _ IH]; cbn [qsum fold_right]; [ lra | ].
  unfold qsum in IH. lra.
Qed.
















(** ** Kick and snare gates (C2) *)
Lemma calculate_band_flux_last_kick (st : Kick.State) m a b band :
  Kick.last_kick_time (fst (Kick.calculate_band_flux st m a b band))
  = Kick.last_kick_time st.
Proof.
  unfold Kick.calculate_band_flux.
  destruct (Kick.prev_magnitude st); [ destruct band | ]; reflexivity.
Qed.

Lemma kick_detect_fields (st : Kick.State) (t : Q) (m : list Q) :
  let st' := fst (Kick.detect_kick_onset st t m) in
  let r := snd (Kick.detect_kick_onset st t m) in
  Kick.r_kick_detected r
  = ((10 <=? length (Kick.sub_flux_history st'))%nat
     && (10 <=? length (Kick.body_flux_history st'))%nat
     && Qltb Kick.min_kick_interval (t - Kick.last_kick_time st))
    && (Qltb (Kick.r_sub_threshold r) (Kick.r_sub_flux r)
        && Qltb (Kick.r_body_threshold r) (Kick.r_body_flux r))
  /\ Kick.last_kick_time st'
     = (if Kick.r_kick_detected r then t else Kick.last_kick_time st)
  /\ Kick.r_sub_threshold r
     = Kick.calculate_adaptive_threshold st' (Kick.sub_flux_history st')
  /\ Kick.r_body_threshold r
     = Kick.calculate_adaptive_threshold st' (Kick.body_flux_history st').
Proof.
  unfold Kick.detect_kick_onset.
  pose proof (calculate_band_flux_last_kick st m
    (Kick.band_bin (Kick.sample_rate st) (fst Kick.sub_bass_range) (length m))
    (Kick.band_bin (Kick.sample_rate st) (snd Kick.sub_bass_range) (length m))
    Kick.Sub) as H1.
  destruct (Kick.calculate_band_flux st m _ _ Kick.Sub) as [st1 f1].
  pose proof (calculate_band_flux_last_kick st1 m
    (Kick.band_bin (Kick.sample_rate st) (fst Kick.kick_body_range) (length m))
    (Kick.band_bin (Kick.sample_rate st) (snd Kick.kick_body_range) (length m))
    Kick.Body) as H2.
  destruct (Kick.calculate_band_flux st1 m _ _ Kick.Body) as [st2 f2].
  pose proof (calculate_band_flux_last_kick st2 m
    (Kick.band_bin (Kick.sample_rate st) (fst Kick.kick_click_range) (length m))
    (Kick.band_bin (Kick.sample_rate st) (snd Kick.kick_click_range) (length m))
    Kick.Click) as H3.
  destruct (Kick.calculate_band_flux st2 m _ _ Kick.Click) as [st3 f3].
  cbn [fst] in H1, H2, H3.
  cbv zeta.
  match goal with
  | |- context [ if ?d && Qltb 0 ?s then (?a, ?b) else ?e ] =>
      destruct (if d && Qltb 0 s then (a, b) else e) as [ds dv]
  end.
  unfold Kick.calculate_adaptive_threshold.
  cbn [fst snd Kick.r_kick_detected Kick.r_sub_threshold Kick.r_sub_flux
       Kick.r_body_threshold Kick.r_body_flux Kick.last_kick_time
       Kick.sub_flux_history Kick.body_flux_history Kick.sensitivity
       Kick.set_prev_magnitude].
  rewrite H3, H2, H1.
  split; [ reflexivity | ]. split; [ | split; reflexivity ].
  match goal with |- (if ?d then _ else _) = (if ?d' then _ else _) =>
    destruct d; reflexivity end.
Qed.








(** ** Frame windower (C3) *)

(** *** The window at every write position *)

Module WindowerFacts.

Import Windower.

Lemma fft_size_chunks : FFT_SIZE = (4 * CHUNK_SIZE)%nat.
Proof. reflexivity. Qed.

Lemma chunk_size_pos : (0 < CHUNK_SIZE)%nat.
Proof. unfold CHUNK_SIZE. lia. Qed.

Lemma newest_all (n : nat) (l : list Q) : (length l <= n)%nat -> newest n l = l.
Proof.
  intro H. unfold newest. replace (length l - n)%nat with 0%nat by lia.
  reflexivity.
Qed.

Lemma newest_app (n : nat) (l1 l2 : list Q) :
  (n <= length l2)%nat -> newest n (l1 ++ l2) = newest n l2.
Proof.
  intro H. unfold newest. rewrite length_app, skipn_app.
  rewrite skipn_all2 by lia. cbn [app]. f_equal. lia.
Qed.

Lemma newest_app_long (n : nat) (l1 l2 : list Q) :
  (length l2 <= n)%nat ->
  newest n (l1 ++ l2) = newest (n - length l2) l1 ++ l2.
Proof.
  intro H. unfold newest. rewrite length_app, skipn_app.
  replace (length l1 + length l2 - n - length l1)%nat with 0%nat by lia.
  cbn [skipn]. f_equal. f_equal. lia.
Qed.

Lemma newest_length (n : nat) (l : list Q) :
  (n <= length l)%nat -> length (newest n l) = n.
Proof. intro H. unfold newest. rewrite length_skipn. lia. Qed.

Lemma newest_newest (n m : nat) (l : list Q) :
  (n <= m)%nat -> newest n (newest m l) = newest n l.
Proof.
  intro H. unfold newest. rewrite length_skipn, skipn_skipn. f_equal. lia.
Qed.

Lemma write_at_whole (data a : list Q) (pos : nat) :
  (pos + length data <= length a)%nat ->
  length (write_at pos data a) = length a.
Proof.
  intro H. unfold write_at.
  rewrite !length_app, length_firstn, length_skipn. lia.
Qed.

Lemma write_at_tail (data a : list Q) :
  (length data <= length a)%nat ->
  write_at (length a - length data) data a
  = firstn (length a - length data) a ++ data.
Proof.
  intro H. unfold write_at.
  rewrite skipn_all2 by lia. rewrite app_nil_r. reflexivity.
Qed.

Lemma write_at_head (data a : list Q) :
  write_at 0 data a = data ++ skipn (length data) a.
Proof. reflexivity. Qed.

(** The state after some chunks represents the samples [s] received so
    far: the ring splits at the write index into the newest [buffer_pos]
    samples and, behind them, the older ones; and the window is the newest
    [FFT_SIZE] samples unless the index is 0. *)
Definition represents (st : State) (s : list Q) : Prop :=
  exists (q : nat) (newer older : list Q),
    buffer_pos st = (q * CHUNK_SIZE)%nat /\ (q < 8)%nat
    /\ ring_buffer st = newer ++ older
    /\ length newer = buffer_pos st
    /\ length (ring_buffer st) = (FFT_SIZE * 2)%nat
    /\ newest (FFT_SIZE * 2) s = older ++ newer
    /\ length (audio_buffer st) = FFT_SIZE
    /\ (buffer_pos st <> 0%nat -> audio_buffer st = newest FFT_SIZE s).

Lemma represents_init : represents init (stream []).
Proof.
  exists 0%nat, [], (repeat 0 (FFT_SIZE * 2)).
  unfold init, stream. cbn [buffer_pos ring_buffer audio_buffer concat].
  rewrite app_nil_r, !repeat_length.
  repeat split; try reflexivity; try lia.
Qed.

(** One chunk keeps the representation. *)
Lemma represents_step (K : list Q -> list Q) (st : State) (s c : list Q) :
  represents st s -> length c = CHUNK_SIZE ->
  represents (fst (process_audio_chunk K st c)) (s ++ c).
Proof.
  intros (q & newer & older & Hpos & Hq & Hring & Hnewer & Hlen & Hs & Haudio & _) Hc.
  unfold process_audio_chunk. cbn [fst].
  pose proof fft_size_chunks as HN. pose proof chunk_size_pos as HC.
  assert (Holder : length older = (FFT_SIZE * 2 - buffer_pos st)%nat).
  { rewrite Hring, length_app in Hlen. lia. }
  assert (Hfit : (buffer_pos st + length c <= length (ring_buffer st))%nat).
  { rewrite Hlen, Hc, Hpos, HN. nia. }
  (* the ring after the write *)
  assert (Hring' : write_ring (ring_buffer st) (buffer_pos st) c
                   = (newer ++ c) ++ skipn CHUNK_SIZE older).
  { unfold write_ring. apply Nat.leb_le in Hfit. rewrite Hfit.
    unfold write_at. rewrite Hring, Hc.
    rewrite firstn_app, firstn_all2, skipn_app, skipn_all2 by lia.
    replace (buffer_pos st - length newer)%nat with 0%nat by lia.
    replace (buffer_pos st + CHUNK_SIZE - length newer)%nat with CHUNK_SIZE by lia.
    cbn [firstn app]. rewrite app_nil_r, app_assoc. reflexivity. }
  (* the newest samples after the chunk *)
  assert (Hs' : newest (FFT_SIZE * 2) (s ++ c)
                = skipn CHUNK_SIZE older ++ (newer ++ c)).
  { rewrite newest_app_long by lia. rewrite Hc.
    rewrite <- (newest_newest _ (FFT_SIZE * 2)) by lia. rewrite Hs.
    unfold newest. rewrite length_app, skipn_app, app_assoc.
    f_equal. replace (length older + length newer - (FFT_SIZE * 2 - CHUNK_SIZE))%nat
      with CHUNK_SIZE by lia.
    replace (CHUNK_SIZE - length older)%nat with 0%nat by (rewrite Holder, Hpos, HN; nia).
    cbn [skipn]. reflexivity. }
  rewrite Hring', Hlen, Hc.
  set (ring' := (newer ++ c) ++ skipn CHUNK_SIZE older).
  set (pos' := ((buffer_pos st + CHUNK_SIZE) mod (FFT_SIZE * 2))%nat).
  assert (Holder' : length (skipn CHUNK_SIZE older)
                    = (FFT_SIZE * 2 - buffer_pos st - CHUNK_SIZE)%nat).
  { rewrite length_skipn. lia. }
  assert (Hlen' : length ring' = (FFT_SIZE * 2)%nat).
  { subst ring'. rewrite !length_app, Holder', Hc, Hnewer, Hpos, HN. nia. }
  destruct (Nat.eq_dec q 7) as [-> | Hq7].
  - (* the write index wraps to 0 *)
    assert (Hp0 : pos' = 0%nat).
    { subst pos'. rewrite Hpos, HN.
      replace (7 * CHUNK_SIZE + CHUNK_SIZE)%nat with (4 * CHUNK_SIZE * 2)%nat by lia.
      apply Nat.Div0.mod_same. }
    exists 0%nat, [], ring'.
    cbn [buffer_pos ring_buffer audio_buffer]. rewrite Hp0.
    unfold extract_latest.
    replace (FFT_SIZE <=? 0)%nat with false
      by (symmetry; apply Nat.leb_gt; rewrite HN; lia).
    cbn [Nat.ltb Nat.leb].
    repeat split; try reflexivity; try lia; try assumption.
    + rewrite Hs', app_nil_r. subst ring'.
      assert (Hnil : skipn CHUNK_SIZE older = []).
      { apply skipn_all2. rewrite Holder, Hpos, HN. lia. }
      rewrite Hnil, app_nil_r. reflexivity.
  - assert (Hp : pos' = (S q * CHUNK_SIZE)%nat).
    { subst pos'. rewrite Hpos. rewrite Nat.mod_small; [ lia | rewrite HN; nia ]. }
    exists (S q), (newer ++ c), (skipn CHUNK_SIZE older).
    cbn [buffer_pos ring_buffer audio_buffer]. rewrite Hp.
    assert (Hnc : length (newer ++ c) = (S q * CHUNK_SIZE)%nat).
    { rewrite length_app, Hnewer, Hc, Hpos. lia. }
    assert (Haudio' :
      extract_latest ring' (S q * CHUNK_SIZE) (audio_buffer st)
      = newest FFT_SIZE (s ++ c)).
    { rewrite <- (newest_newest _ (FFT_SIZE * 2)) by lia. rewrite Hs'.
      unfold extract_latest.
      destruct (FFT_SIZE <=? S q * CHUNK_SIZE)%nat eqn:E.
      - apply Nat.leb_le in E.
        rewrite newest_app by lia.
        unfold slice, newest. subst ring'.
        rewrite skipn_app, firstn_app, Hnc.
        rewrite length_skipn, Hnc.
        replace (S q * CHUNK_SIZE - (S q * CHUNK_SIZE - FFT_SIZE))%nat
          with FFT_SIZE by lia.
        rewrite firstn_all2 by (rewrite length_skipn, Hnc; lia).
        replace (S q * CHUNK_SIZE - FFT_SIZE - S q * CHUNK_SIZE)%nat with 0%nat by lia.
        replace (FFT_SIZE - FFT_SIZE)%nat with 0%nat by lia.
        cbn [skipn firstn]. rewrite app_nil_r. reflexivity.
      - apply Nat.leb_gt in E.
        replace (0 <? S q * CHUNK_SIZE)%nat with true
          by (symmetry; apply Nat.ltb_lt; lia).
        rewrite newest_app_long by lia. rewrite Hnc.
        assert (Htail : firstn (S q * CHUNK_SIZE) ring' = newer ++ c).
        { subst ring'. rewrite firstn_app, Hnc, firstn_all2 by lia.
          replace (S q * CHUNK_SIZE - S q * CHUNK_SIZE)%nat with 0%nat by lia.
          cbn [firstn]. apply app_nil_r. }
        assert (Hhead : skipn (length ring' - (FFT_SIZE - S q * CHUNK_SIZE)) ring'
                        = newest (FFT_SIZE - S q * CHUNK_SIZE) (skipn CHUNK_SIZE older)).
        { rewrite Hlen'. subst ring'. unfold newest.
          rewrite skipn_app, Hnc, skipn_all2 by lia. cbn [app].
          f_equal. rewrite Holder', Hpos. lia. }
        rewrite Htail, Hhead.
        set (head_part := newest (FFT_SIZE - S q * CHUNK_SIZE) (skipn CHUNK_SIZE older)).
        assert (Hhl : length head_part = (FFT_SIZE - S q * CHUNK_SIZE)%nat).
        { subst head_part. apply newest_length. rewrite Holder', Hpos. lia. }
        replace (length (audio_buffer st) - S q * CHUNK_SIZE)%nat
          with (length (audio_buffer st) - length (newer ++ c))%nat by (rewrite Hnc; lia).
        rewrite write_at_tail by (rewrite Hnc, Haudio; lia).
        rewrite write_at_head, skipn_app.
        rewrite skipn_all2 by (rewrite length_firstn, Hhl, Hnc, Haudio; lia).
        rewrite length_firstn, Hhl, Hnc, Haudio.
        replace (FFT_SIZE - S q * CHUNK_SIZE
                 - Init.Nat.min (FFT_SIZE - S q * CHUNK_SIZE) FFT_SIZE)%nat
          with 0%nat by lia.
        reflexivity. }
    repeat split; try reflexivity; try lia; try assumption.
    + rewrite Haudio'. apply newest_length. rewrite length_app, Hc.
      assert (FFT_SIZE * 2 <= length (older ++ newer))%nat
        by (rewrite length_app; lia).
      rewrite <- Hs in H. unfold newest in H. rewrite length_skipn in H. lia.
    + intros _. exact Haudio'.
Qed.

Lemma represents_feed (K : list Q -> list Q) (chunks : list (list Q)) :
  forall (st : State) (s : list Q),
    represents st s ->
    Forall (fun c => length c = CHUNK_SIZE) chunks ->
    represents (feed K st chunks) (s ++ concat chunks).
Proof.
  induction chunks as [| c rest IH]; intros st s Hrep Hall; cbn [feed concat].
  - rewrite app_nil_r. exact Hrep.
  - inversion Hall as [| ? ? Hc Hrest]; subst.
    rewrite app_assoc. apply IH; [ | exact Hrest ].
    apply represents_step; assumption.
Qed.

Lemma feed_app (K : list Q -> list Q) (chunks1 chunks2 : list (list Q)) (st : State) :
  feed K st (chunks1 ++ chunks2) = feed K (feed K st chunks1) chunks2.
Proof.
  revert st. induction chunks1 as [| c rest IH]; intro st; cbn [feed app];
    [ reflexivity | apply IH ].
Qed.

(** For chunks of [CHUNK_SIZE] samples fed from the initial state: at
    every write index other than 0 the window is the newest [FFT_SIZE]
    samples. *)
Lemma window_newest_off_wrap (K : list Q -> list Q) (chunks : list (list Q)) :
  Forall (fun c => length c = CHUNK_SIZE) chunks ->
  let st := feed K init chunks in
  buffer_pos st <> 0%nat ->
  audio_buffer st = newest FFT_SIZE (stream chunks).
Proof.
  intros Hall st Hpos.
  pose proof (represents_feed K chunks init (stream []) represents_init Hall) as Hrep.
  unfold stream in Hrep. cbn [concat] in Hrep. rewrite app_nil_r in Hrep.
  destruct Hrep as (q & newer & older & _ & _ & _ & _ & _ & _ & _ & H).
  apply H, Hpos.
Qed.

(** At write index 0 the call leaves the window of the call before. *)
Lemma window_stale_at_wrap (K : list Q -> list Q) (chunks : list (list Q))
    (c : list Q) :
  Forall (fun c => length c = CHUNK_SIZE) (chunks ++ [c]) ->
  let st := feed K init (chunks ++ [c]) in
  buffer_pos st = 0%nat ->
  audio_buffer st = audio_buffer (feed K init chunks)
  /\ audio_buffer st = newest FFT_SIZE (stream chunks).
Proof.
  intros Hall st Hpos. subst st. rewrite feed_app in *. cbn [feed] in *.
  apply Forall_app in Hall. destruct Hall as [Hall Hc].
  inversion Hc as [| ? ? Hlen _]; subst.
  set (st0 := feed K init chunks) in *.
  pose proof (represents_feed K chunks init (stream []) represents_init Hall) as Hrep.
  unfold stream in Hrep. cbn [concat] in Hrep. rewrite app_nil_r in Hrep.
  fold st0 in Hrep.
  destruct Hrep as (q & newer & older & Hq & Hq8 & _ & _ & Hrl & _ & _ & Hwin).
  unfold process_audio_chunk in *. cbn [fst buffer_pos audio_buffer] in *.
  rewrite Hpos. unfold extract_latest.
  pose proof fft_size_chunks as HN. pose proof chunk_size_pos as HC.
  replace (FFT_SIZE <=? 0)%nat with false
    by (symmetry; apply Nat.leb_gt; rewrite HN; lia).
  cbn [Nat.ltb Nat.leb]. split; [ reflexivity | ].
  apply Hwin. intro Hz.
  rewrite Hz, Hlen, Hrl, HN in Hpos.
  rewrite Nat.mod_small in Hpos by lia. lia.
Qed.

End WindowerFacts.

(** *** The wrap on concrete chunks *)
(** Chunks of 512 samples, the [k]-th filled with the value [k]. *)
Definition ramp_chunks (n : nat) : list (list Q) :=
  map (fun k => repeat (inject_Z (Z.of_nat k)) CHUNK_SIZE) (seq 1 n).

(** C3, the failing input: eight chunks from the initial state. After
    the seventh chunk the window is the newest 2048 samples (chunks 4 to
    7). The eighth chunk wraps the write index to 0, for which
    [process_audio_chunk] has no branch: the window is left as it was, it
    is not the newest 2048 samples (chunks 5 to 8), and the magnitude
    returned is the spectrum of the old window. The lemmas
    [window_newest_off_wrap] and [window_stale_at_wrap] above give the
    same for every stream of 512-sample chunks. *)
Theorem C3_window_stale_at_wrap :
  forall (hann_rfft_magnitude : list Q -> list Q),
    let st7 := Windower.feed hann_rfft_magnitude Windower.init (ramp_chunks 7) in
    let st8 := Windower.feed hann_rfft_magnitude Windower.init (ramp_chunks 8) in
    Windower.audio_buffer st7
      = Windower.newest FFT_SIZE (Windower.stream (ramp_chunks 7))
    /\ Windower.buffer_pos st8 = 0%nat
    /\ Windower.audio_buffer st8 = Windower.audio_buffer st7
    /\ Windower.audio_buffer st8
       <> Windower.newest FFT_SIZE (Windower.stream (ramp_chunks 8))
    /\ Windower.last_magnitude hann_rfft_magnitude Windower.init (ramp_chunks 8)
       = hann_rfft_magnitude
           (Windower.newest FFT_SIZE (Windower.stream (ramp_chunks 7))).
Proof.
  intros K st7 st8.
  split; [ vm_compute; reflexivity | ].
  split; [ vm_compute; reflexivity | ].
  split; [ vm_compute; reflexivity | ].
  split.
  - intro H. apply (f_equal (fun l => nth 0 l 0)) in H.
    vm_compute in H. discriminate H.
  - vm_compute. reflexivity.
Qed.

(** ** Sorting *)

Lemma insert_sorted_Forall (P : Q -> Prop) (x : Q) (l : list Q) :
  P x -> Forall P l -> Forall P (insert_sorted x l).
Proof.
  intros Hx Hl. induction Hl as [| y l Hy Hl IH]; cbn [insert_sorted].
  - constructor; [ exact Hx | constructor ].
  - destruct (Qleb x y); constructor; auto.
Qed.

Lemma qsort_Forall (P : Q -> Prop) (l : list Q) :
  Forall P l -> Forall P (qsort l).
Proof.
  unfold qsort. induction 1 as [| x l Hx Hl IH]; cbn [fold_right].
  - constructor.
  - apply insert_sorted_Forall; assumption.
Qed.

Lemma insert_sorted_length (x : Q) (l : list Q) :
  length (insert_sorted x l) = S (length l).
Proof.
  induction l as [| y l IH]; cbn [insert_sorted]; [ reflexivity | ].
  destruct (Qleb x y); cbn [length]; congruence.
Qed.

Lemma qsort_length (l : list Q) : length (qsort l) = length l.
Proof.
  unfold qsort. induction l as [| x l IH]; cbn [fold_right length];
    [ reflexivity | ].
  rewrite insert_sorted_length. congruence.
Qed.

Lemma insert_sorted_HdRel (a x : Q) (l : list Q) :
  a <= x -> HdRel Qle a l -> HdRel Qle a (insert_sorted x l).
Proof.
  intros Hax Hl. destruct l as [| y l]; cbn [insert_sorted].
  - constructor. exact Hax.
  - destruct (Qleb x y); constructor; [ exact Hax | ].
    inversion Hl. assumption.
Qed.

Lemma insert_sorted_Sorted (x : Q) (l : list Q) :
  Sorted Qle l -> Sorted Qle (insert_sorted x l).
Proof.
  induction 1 as [| y l Hs IH Hhd]; cbn [insert_sorted].
  - repeat constructor.
  - case_Qleb x y.
    + constructor; [ constructor; assumption | constructor; assumption ].
    + constructor; [ exact IH | ].
      apply insert_sorted_HdRel; [ lra | exact Hhd ].
Qed.

Lemma qsort_Sorted (l : list Q) : Sorted Qle (qsort l).
Proof.
  unfold qsort. induction l as [| x l IH]; cbn [fold_right].
  - constructor.
  - apply insert_sorted_Sorted, IH.
Qed.

Lemma firstn_Sorted (n : nat) (l : list Q) :
  Sorted Qle l -> Sorted Qle (firstn n l).
Proof.
  intro Hs. revert n. induction Hs as [| y l Hs IH Hhd]; intro n.
  - rewrite firstn_nil. constructor.
  - destruct n as [| n]; cbn [firstn]; [ constructor | ].
    constructor; [ apply IH | ].
    destruct Hhd as [| z l' Hyz]; destruct n; cbn [firstn]; constructor.
    exact Hyz.
Qed.

(** ** Bounds of the voice analysis (C6) *)

(** *** Pitch confidence *)

Lemma pitch_at_confidence (diff autocorr : list Q) (tau : nat) f c cl :
  Voice.pitch_at diff autocorr tau = Some (f, c, cl) -> 0 <= c.
Proof.
  unfold Voice.pitch_at.
  destruct ((0 <? tau)%nat && (tau <? length diff - 1)%nat); [ | discriminate ].
  cbv zeta.
  match goal with |- context [ Qltb ?a (Qabs ?d) ] => destruct (Qltb a (Qabs d)) end;
    [ | discriminate ].
  intro H. injection H as _ Hc _. subst c.
  match goal with |- context [ pymax (4 # 10) ?r ] =>
    pose proof (pymax_ge_l (4 # 10) r) as H0; set (c0 := pymax (4 # 10) r) in * end.
  pose proof (pymax_ge_l c0 (5 # 10)) as H1.
  repeat match goal with
  | |- context [ if ?b then _ else _ ] => destruct b
  end; lra.
Qed.

Lemma search_pitch_confidence (diff autocorr : list Q) (threshold : Q)
    (count tau : nat) :
  0 <= snd (fst (Voice.search_pitch diff autocorr threshold tau count)).
Proof.
  revert tau. induction count as [| count IH]; intro tau; cbn [Voice.search_pitch].
  - cbn. lra.
  - destruct (Qltb (nth tau diff 0) threshold); [ | apply IH ].
    destruct (Voice.pitch_at diff autocorr tau) as [[[f c] cl] |] eqn:E; [ | apply IH ].
    cbn [fst snd]. eapply pitch_at_confidence, E.
Qed.

Lemma find_pitch_in_range_confidence (diff autocorr : list Q) (rng : Q * Q)
    (threshold : Q) :
  0 <= snd (fst (Voice.find_pitch_in_range diff autocorr rng threshold)) <= 1.
Proof.
  unfold Voice.find_pitch_in_range. cbv zeta.
  match goal with |- context [ Voice.search_pitch ?d ?a ?t ?tau ?n ] =>
    pose proof (search_pitch_confidence d a t n tau) as H;
    destruct (Voice.search_pitch d a t tau n) as [[f c] cl] end.
  cbn [fst snd] in *.
  split; [ apply pymin_glb; lra | apply pymin_le_l ].
Qed.

(** *** A partial-correctness rule set for the method monad *)

(** [post c P]: whenever [c] returns a value, the value satisfies [P]. *)
Definition post {A} (c : Voice.M A) (P : A -> Prop) : Prop :=
  forall st, match snd (c st) with
             | Py.Return a => P a
             | Py.Raise _ => True
             end.

Lemma post_ret {A} (a : A) (P : A -> Prop) : P a -> post (Voice.ret a) P.
Proof. intros H st. exact H. Qed.

Lemma post_bind {A B} (c : Voice.M A) (k : A -> Voice.M B)
    (P : A -> Prop) (Q : B -> Prop) :
  post c P -> (forall a, P a -> post (k a) Q) -> post (Voice.bind c k) Q.
Proof.
  intros Hc Hk st. unfold Voice.bind. specialize (Hc st).
  destruct (c st) as [st' [a | e]]; cbn [snd] in *; [ | exact I ].
  apply (Hk a Hc st').
Qed.

Lemma post_lift {A} (o : Py.outcome A) (P : A -> Prop) :
  match o with Py.Return a => P a | Py.Raise _ => True end ->
  post (Voice.lift o) P.
Proof. intros H st. exact H. Qed.

Lemma post_modify (f : Voice.State -> Voice.State) (P : unit -> Prop) :
  P tt -> post (Voice.modify f) P.
Proof. intros H st. exact H. Qed.

Lemma post_get_state (P : Voice.State -> Prop) :
  (forall st, P st) -> post Voice.get_state P.
Proof. intros H st. apply H. Qed.

Lemma post_weaken {A} (c : Voice.M A) (P Q : A -> Prop) :
  post c P -> (forall a, P a -> Q a) -> post c Q.
Proof.
  intros Hc HPQ st. specialize (Hc st).
  destruct (snd (c st)); auto.
Qed.

(** A handler turns partial into total correctness: the call returns. *)
Lemma try_except_returns {A} (c : Voice.M A) (handler : A) (P : A -> Prop) :
  post c P -> P handler ->
  forall st, exists st' a,
    Voice.try_except c handler st = (st', Py.Return a) /\ P a.
Proof.
  intros Hc Hh st. unfold Voice.try_except. specialize (Hc st).
  destruct (c st) as [st' [a | e]]; cbn [snd] in Hc; eauto.
Qed.

Lemma post_try_except {A} (c : Voice.M A) (handler : A) (P : A -> Prop) :
  post c P -> P handler -> post (Voice.try_except c handler) P.
Proof.
  intros Hc Hh st.
  destruct (try_except_returns c handler P Hc Hh st) as (st' & a & -> & Ha).
  exact Ha.
Qed.

(** *** The fields of a voice result *)

(** What C6 asks of a result dictionary. *)
Definition formants_ok (fs : list Q) : Prop :=
  Sorted Qle fs /\ (length fs <= 4)%nat /\ Forall (fun f => 90 < f /\ f < 5500) fs.

Definition fields_ok (r : gmap string Py.value) : Prop :=
  exists pc vc h fs,
    r !! "pitch_confidence" = Some (Py.VFloat pc) /\ 0 <= pc <= 1
    /\ r !! "voice_confidence" = Some (Py.VFloat vc) /\ 0 <= vc <= 1
    /\ r !! "hnr" = Some (Py.VFloat h) /\ 0 <= h <= 40
    /\ r !! "formants" = Some (Py.VFloatList fs) /\ formants_ok fs.

Lemma formants_ok_nil : formants_ok [].
Proof. repeat split; [ constructor | cbn; lia | constructor ]. Qed.

Lemma fields_ok_defaults (b : bool) : fields_ok (Voice.detailed_defaults b).
Proof.
  exists 0, 0, 0, []. unfold Voice.detailed_defaults.
  repeat split; try reflexivity; try lra; apply formants_ok_nil.
Qed.

(** Writing a key other than the four keeps them. *)
Lemma fields_ok_insert_other (r : gmap string Py.value) (k : string) (v : Py.value) :
  k <> "pitch_confidence" -> k <> "voice_confidence" ->
  k <> "hnr" -> k <> "formants" ->
  fields_ok r -> fields_ok (<[k := v]> r).
Proof.
  intros H1 H2 H3 H4 (pc & vc & h & fs & Hpc & ? & Hvc & ? & Hh & ? & Hf & ?).
  exists pc, vc, h, fs. rewrite !lookup_insert_ne by assumption. auto 10.
Qed.

Lemma fields_ok_insert_pitch_confidence (r : gmap string Py.value) (x : Q) :
  0 <= x <= 1 -> fields_ok r -> fields_ok (<["pitch_confidence" := Py.VFloat x]> r).
Proof.
  intros Hx (pc & vc & h & fs & Hpc & ? & Hvc & ? & Hh & ? & Hf & ?).
  exists x, vc, h, fs. rewrite lookup_insert_eq, !lookup_insert_ne by discriminate.
  auto 10.
Qed.

Lemma fields_ok_insert_voice_confidence (r : gmap string Py.value) (x : Q) :
  0 <= x <= 1 -> fields_ok r -> fields_ok (<["voice_confidence" := Py.VFloat x]> r).
Proof.
  intros Hx (pc & vc & h & fs & Hpc & ? & Hvc & ? & Hh & ? & Hf & ?).
  exists pc, x, h, fs. rewrite lookup_insert_eq, !lookup_insert_ne by discriminate.
  auto 10.
Qed.

Lemma fields_ok_insert_hnr (r : gmap string Py.value) (x : Q) :
  0 <= x <= 40 -> fields_ok r -> fields_ok (<["hnr" := Py.VFloat x]> r).
Proof.
  intros Hx (pc & vc & h & fs & Hpc & ? & Hvc & ? & Hh & ? & Hf & ?).
  exists pc, vc, x, fs. rewrite lookup_insert_eq, !lookup_insert_ne by discriminate.
  auto 10.
Qed.

Lemma fields_ok_insert_formants (r : gmap string Py.value) (l : list Q) :
  formants_ok l -> fields_ok r -> fields_ok (<["formants" := Py.VFloatList l]> r).
Proof.
  intros Hx (pc & vc & h & fs & Hpc & ? & Hvc & ? & Hh & ? & Hf & ?).
  exists pc, vc, h, l. rewrite lookup_insert_eq, !lookup_insert_ne by discriminate.
  auto 10.
Qed.

Section VoiceBounds.

Variable frame_rms : list Q -> Q.
Variable vad_spectrum : list Q -> Voice.VadSpectrum.
Variable yin_autocorr : list Q -> Py.outcome (list Q).
Variable log2 : Q -> Q.
Variable log10 : Q -> Q.
Variable lpc_roots : list Q -> Py.outcome (list (Q * Q)).
Variable hnr_energies : list Q -> Q -> Py.outcome (Q * Q).
Variable spectral_measure : list Q -> Py.outcome Voice.SpectralMeasure.
Variable vibrato_measure : list Q -> Py.outcome Voice.VibratoMeasure.

Lemma detect_pitch_yin_confidence (audio_frame : list Q) :
  post (Voice.detect_pitch_yin yin_autocorr log2 audio_frame)
       (fun p => 0 <= Voice.confidence p <= 1).
Proof.
  unfold Voice.detect_pitch_yin.
  eapply post_bind; [ apply post_lift;
    instantiate (1 := fun _ => True); destruct (yin_autocorr audio_frame); exact I | ].
  intros autocorr _.
  eapply post_bind; [ apply post_lift; instantiate (1 := fun _ => True);
    destruct (Voice.diff_function autocorr (length audio_frame)); exact I | ].
  intros diff _.
  eapply post_bind; [ apply post_get_state; instantiate (1 := fun _ => True);
    intro; exact I | ].
  intros st _.
  pose proof (find_pitch_in_range_confidence diff autocorr Voice.f0_range (5 # 10)) as Hf.
  pose proof (find_pitch_in_range_confidence diff autocorr
                Voice.f0_range_extended (6 # 10)) as He.
  destruct (Voice.find_pitch_in_range diff autocorr Voice.f0_range (5 # 10))
    as [[ff fc] fcl].
  destruct (Voice.find_pitch_in_range diff autocorr Voice.f0_range_extended (6 # 10))
    as [[ef ec] ecl].
  cbn [fst snd] in Hf, He.
  match goal with |- context [ if ?b then (ff, fc, fcl) else ?e ] =>
    assert (Hsel : 0 <= snd (fst (if b then (ff, fc, fcl) else e)) <= 1)
      by (destruct b; [ exact Hf | destruct (Qltb 0 ef); cbn [fst snd]; [ exact He | lra ] ]);
    destruct (if b then (ff, fc, fcl) else e) as [[f0 conf0] cl]
  end.
  cbn [fst snd] in Hsel.
  apply post_ret. cbn [Voice.confidence].
  match goal with |- context [ if Qltb 0 f0 && Qltb ?c1 (2 # 10) then _ else _ ] =>
    assert (H1 : 0 <= c1 <= 1); [ | destruct (Qltb 0 f0 && Qltb c1 (2 # 10));
      [ destruct (Qleb 80 f0 && Qleb f0 800); lra | exact H1 ] ]
  end.
  destruct (Qltb 0 f0 && (3 <? length (Voice.pitch_history st))%nat); [ | exact Hsel ].
  destruct (filter _ _); [ exact Hsel | ].
  match goal with |- context [ if ?b then _ else _ ] => destruct b end; lra.
Qed.

Lemma analyze_formants_lpc_ok (audio_frame : list Q) :
  match Voice.analyze_formants_lpc lpc_roots audio_frame with
  | Py.Return fs => formants_ok fs
  | Py.Raise _ => True
  end.
Proof.
  unfold Voice.analyze_formants_lpc.
  destruct audio_frame as [| x rest]; [ exact I | ].
  cbv zeta.
  match goal with |- context [ (?a <? 4)%Z ] => destruct (a <? 4)%Z end;
    [ apply formants_ok_nil | ].
  match goal with |- context [ if ?b then _ else Py.Return [] ] => destruct b end;
    [ | apply formants_ok_nil ].
  destruct (lpc_roots (x :: rest)) as [roots | e]; [ | apply formants_ok_nil ].
  unfold formants_ok. split; [ | split ].
  - apply firstn_Sorted, qsort_Sorted.
  - rewrite length_take. lia.
  - apply Forall_take, qsort_Forall, Forall_map, Forall_forall.
    intros r Hr. apply filter_In in Hr. destruct Hr as [_ Hr].
    rewrite !andb_true_iff, !Qltb_lt in Hr. tauto.
Qed.

Lemma calculate_hnr_range (audio_frame : list Q) (f0 : Q) :
  match Voice.calculate_hnr log10 hnr_energies audio_frame f0 with
  | Py.Return h => 0 <= h <= 40
  | Py.Raise _ => True
  end.
Proof.
  unfold Voice.calculate_hnr.
  destruct (Qleb f0 0); [ lra | ].
  destruct (hnr_energies audio_frame f0) as [[he ne] | e]; [ | exact I ].
  destruct (Qltb 0 ne); [ | lra ].
  split; [ apply pymax_ge_l | ].
  apply pymax_lub; [ lra | apply pymin_le_l ].
Qed.

(** *** Overall voice confidence *)

Definition factor_ok (p : Q * Q) : Prop := 0 <= fst p /\ 0 < snd p.

Lemma factor_ok_one (f w : Q) : 0 <= f -> 0 < w -> Forall factor_ok [(f, w)].
Proof. intros Hf Hw. constructor; [ split; assumption | constructor ]. Qed.

Lemma confidence_factors_ok (results : gmap string Py.value) :
  Forall factor_ok (Voice.confidence_factors results).
Proof.
  unfold Voice.confidence_factors. cbv zeta.
  apply Forall_app_2; [ | apply Forall_app_2; [ | apply Forall_app_2;
    [ | apply Forall_app_2 ] ] ].
  - case_Qltb 0 (Py.get_float results "pitch" 0).
    + apply factor_ok_one; [ | lra ].
      pose proof (pymax_ge_l (5 # 10) (Py.get_float results "pitch_confidence" 0)). lra.
    + case_Qltb 0 (Py.get_float results "pitch_confidence" 0);
        [ apply factor_ok_one; lra | constructor ].
  - case_Qltb 0 (Py.get_float results "hnr" 0); [ | constructor ].
    apply factor_ok_one; [ | lra ].
    apply pymin_glb; [ lra | ]. apply Qle_shift_div_l; lra.
  - destruct (0 <? length (Py.get_floats results "formants"))%nat eqn:E;
      [ | constructor ].
    apply factor_ok_one; [ | lra ].
    apply pymin_glb; [ lra | ]. apply Qle_shift_div_l; [ lra | ].
    rewrite Qmult_0_l. change 0 with (inject_Z 0). rewrite <- Zle_Qle. lia.
  - destruct (decide (Py.get_dict results "spectral_features" = ∅));
      [ constructor | ].
    apply Forall_app_2.
    + match goal with |- context [ Qltb (1 # 10) ?x ] => case_Qltb (1 # 10) x end;
        [ apply factor_ok_one; lra | constructor ].
    + match goal with |- context [ if Qltb 0 ?x then _ else _ ] => destruct (Qltb 0 x) end;
        [ | constructor ].
      match goal with |- context [ Qltb (3 # 10) ?x ] => case_Qltb (3 # 10) x end;
        [ apply factor_ok_one; lra | constructor ].
  - case_Qltb (2 # 1000) (Py.get_float results "vocal_energy" 0); [ | constructor ].
    apply factor_ok_one; [ | lra ].
    apply pymin_glb; [ lra | ]. apply Qle_shift_div_l; lra.
Qed.

Lemma weighted_sum_nonneg (fw : list (Q * Q)) :
  Forall factor_ok fw -> 0 <= qsum (map (fun p => fst p * snd p) fw).
Proof.
  intro H. apply qsum_nonneg, Forall_map.
  eapply Forall_impl; [ | exact H ].
  intros p [H1 H2]. cbn beta. nra.
Qed.

Lemma total_weight_pos (p : Q * Q) (fw : list (Q * Q)) :
  Forall factor_ok (p :: fw) -> 0 < qsum (map snd (p :: fw)).
Proof.
  intro H. inversion H as [| ? ? [_ Hp] Hfw]; subst.
  assert (0 <= qsum (map snd fw)).
  { apply qsum_nonneg, Forall_map. eapply Forall_impl; [ | exact Hfw ].
    intros q [_ Hq]. cbn beta. lra. }
  cbn [map qsum fold_right]. unfold qsum in *. lra.
Qed.

Lemma calculate_voice_confidence_range (results : gmap string Py.value) :
  0 <= Voice.calculate_voice_confidence results <= 1.
Proof.
  unfold Voice.calculate_voice_confidence. cbv zeta.
  pose proof (confidence_factors_ok results) as Hfw.
  destruct (Voice.confidence_factors results) as [| p fw].
  - destruct (Qltb 0 (Py.get_float results "pitch" 0)); lra.
  - pose proof (weighted_sum_nonneg _ Hfw) as Hs.
    pose proof (total_weight_pos _ _ Hfw) as Hw.
    set (ws := qsum (map (fun p => fst p * snd p) (p :: fw))) in *.
    set (tw := qsum (map snd (p :: fw))) in *.
    assert (H0 : 0 <= ws / tw) by (apply Qle_shift_div_l; lra).
    split; [ | apply pymin_le_l ].
    apply pymin_glb; [ lra | ].
    set (c1 := if (3 <=? length (p :: fw))%nat then ws / tw * (12 # 10) else ws / tw).
    assert (H1 : 0 <= c1) by (subst c1; destruct (3 <=? length (p :: fw))%nat; lra).
    set (c2 := if Qltb 0 (Py.get_float results "pitch" 0)
                  && (2 <=? length (Py.get_floats results "formants"))%nat
               then pymax c1 (4 # 10) else c1).
    assert (H2 : 0 <= c2).
    { subst c2. destruct (_ && _); [ | exact H1 ].
      pose proof (pymax_ge_l c1 (4 # 10)). lra. }
    destruct (Qltb 0 (Py.get_float results "pitch" 0)); [ | exact H2 ].
    pose proof (pymax_ge_l c2 (3 # 10)). lra.
Qed.

(** *** Keys of the result dictionaries *)

Definition detailed_keys : gset string :=
  list_to_set
    ["has_voice"; "voice_confidence"; "pitch"; "pitch_note"; "pitch_confidence";
     "formants"; "voice_type"; "hnr"; "spectral_features"; "is_singing";
     "vibrato"; "fundamental_clarity"].

(** The thirteen fields of a voice frame result. *)
Definition result_keys : gset string := {["vocal_energy"]} ∪ detailed_keys.

(** A well-formed dictionary over a key set: exactly those keys, and the
    four bounded fields within their bounds. *)
Definition well_formed (keys : gset string) (r : gmap string Py.value) : Prop :=
  dom r = keys /\ fields_ok r.

Lemma well_formed_detailed_defaults (b : bool) :
  well_formed detailed_keys (Voice.detailed_defaults b).
Proof.
  split; [ | apply fields_ok_defaults ].
  unfold Voice.detailed_defaults, detailed_keys.
  rewrite !dom_insert_L, dom_empty_L. set_solver.
Qed.

Lemma dom_insert_present (keys : gset string) (r : gmap string Py.value)
    (k : string) (v : Py.value) :
  k ∈ keys -> dom r = keys -> dom (<[k := v]> r) = keys.
Proof.
  intros Hk Hd. rewrite dom_insert_L, Hd.
  apply set_eq. intro x. rewrite elem_of_union, elem_of_singleton.
  split; [ intros [-> | H]; assumption | auto ].
Qed.

Lemma well_formed_insert (keys : gset string) (r : gmap string Py.value)
    (k : string) (v : Py.value) :
  k ∈ keys ->
  k <> "pitch_confidence" -> k <> "voice_confidence" ->
  k <> "hnr" -> k <> "formants" ->
  well_formed keys r -> well_formed keys (<[k := v]> r).
Proof.
  intros Hk H1 H2 H3 H4 [Hd Hf]. split.
  - apply dom_insert_present; assumption.
  - apply fields_ok_insert_other; assumption.
Qed.

Lemma well_formed_insert_pitch_confidence keys (r : gmap string Py.value) (x : Q) :
  "pitch_confidence" ∈ keys -> 0 <= x <= 1 ->
  well_formed keys r -> well_formed keys (<["pitch_confidence" := Py.VFloat x]> r).
Proof.
  intros Hk Hx [Hd Hf]. split.
  - apply dom_insert_present; assumption.
  - apply fields_ok_insert_pitch_confidence; assumption.
Qed.

Lemma well_formed_insert_voice_confidence keys (r : gmap string Py.value) (x : Q) :
  "voice_confidence" ∈ keys -> 0 <= x <= 1 ->
  well_formed keys r -> well_formed keys (<["voice_confidence" := Py.VFloat x]> r).
Proof.
  intros Hk Hx [Hd Hf]. split.
  - apply dom_insert_present; assumption.
  - apply fields_ok_insert_voice_confidence; assumption.
Qed.

Lemma well_formed_insert_hnr keys (r : gmap string Py.value) (x : Q) :
  "hnr" ∈ keys -> 0 <= x <= 40 ->
  well_formed keys r -> well_formed keys (<["hnr" := Py.VFloat x]> r).
Proof.
  intros Hk Hx [Hd Hf]. split.
  - apply dom_insert_present; assumption.
  - apply fields_ok_insert_hnr; assumption.
Qed.

Lemma well_formed_insert_formants keys (r : gmap string Py.value) (l : list Q) :
  "formants" ∈ keys -> formants_ok l ->
  well_formed keys r -> well_formed keys (<["formants" := Py.VFloatList l]> r).
Proof.
  intros Hk Hx [Hd Hf]. split.
  - apply dom_insert_present; assumption.
  - apply fields_ok_insert_formants; assumption.
Qed.

Lemma in_detailed_keys (k : string) :
  In k ["has_voice"; "voice_confidence"; "pitch"; "pitch_note"; "pitch_confidence";
        "formants"; "voice_type"; "hnr"; "spectral_features"; "is_singing";
        "vibrato"; "fundamental_clarity"] ->
  k ∈ detailed_keys.
Proof. intro H. unfold detailed_keys. apply elem_of_list_to_set, list_elem_of_In, H. Qed.

Lemma in_result_keys (k : string) :
  In k ["vocal_energy"; "has_voice"; "voice_confidence"; "pitch"; "pitch_note";
        "pitch_confidence"; "formants"; "voice_type"; "hnr"; "spectral_features";
        "is_singing"; "vibrato"; "fundamental_clarity"] ->
  k ∈ result_keys.
Proof.
  intros [<- | H]; unfold result_keys; [ set_solver | ].
  apply elem_of_union_r, in_detailed_keys, H.
Qed.

(** Discharges the side conditions of an insert of a literal key. *)
Ltac key_side :=
  first [ discriminate
        | apply in_detailed_keys; cbn [In]; tauto
        | apply in_result_keys; cbn [In]; tauto ].

Ltac insert_other := apply well_formed_insert; [ key_side .. | ].

(** *** The detailed analysis and the entry point *)

Lemma detailed_voice_analysis_body_ok (audio_frame : list Q) :
  post (Voice.detailed_voice_analysis_body yin_autocorr log2 log10 lpc_roots
          hnr_energies spectral_measure vibrato_measure audio_frame)
       (well_formed detailed_keys).
Proof.
  unfold Voice.detailed_voice_analysis_body.
  eapply post_bind; [ apply detect_pitch_yin_confidence | ].
  intros pitch_info Hconf. cbv zeta.
  eapply (post_bind _ _ (fun _ => True));
    [ destruct (Qltb 0 (Voice.frequency pitch_info));
      [ apply post_modify | apply post_ret ]; exact I | ].
  intros _ _.
  eapply post_bind; [ apply post_lift, analyze_formants_lpc_ok | ].
  intros formants Hformants. cbv beta.
  eapply post_bind; [ apply post_lift, calculate_hnr_range | ].
  intros hnr Hhnr. cbv beta.
  eapply (post_bind _ _ (fun _ => True)); [ apply post_modify; exact I | ].
  intros _ _.
  eapply (post_bind _ _ (fun _ => True));
    [ apply post_lift; destruct (Voice.extract_spectral_features _ _); exact I | ].
  intros features _.
  eapply (post_bind _ _ (fun _ => True)); [ apply post_modify; exact I | ].
  intros _ _.
  eapply (post_bind _ _ (fun _ => True)); [ apply post_get_state; intro; exact I | ].
  intros st _.
  match goal with
  | |- context [ <["voice_type" := ?v]> ?r ] =>
      assert (Hwf : well_formed detailed_keys (<["voice_type" := v]> r))
  end.
  { insert_other. insert_other.
    apply well_formed_insert_hnr; [ key_side | exact Hhnr | ].
    apply well_formed_insert_formants; [ key_side | exact Hformants | ].
    insert_other. insert_other.
    apply well_formed_insert_pitch_confidence; [ key_side | exact Hconf | ].
    insert_other. apply well_formed_detailed_defaults. }
  eapply post_bind.
  - instantiate (1 := well_formed detailed_keys).
    destruct (15 <=? length (Voice.pitch_history st))%nat; [ | apply post_ret, Hwf ].
    eapply (post_bind _ _ (fun _ => True));
      [ apply post_lift; destruct (Voice.detect_vibrato _ _); exact I | ].
    intros vibrato_info _. apply post_ret.
    insert_other. insert_other. exact Hwf.
  - intros results Hres. apply post_ret.
    assert (Hvc : well_formed detailed_keys
              (<["voice_confidence" :=
                   Py.VFloat (Voice.calculate_voice_confidence results)]> results)).
    { apply well_formed_insert_voice_confidence;
        [ key_side | apply calculate_voice_confidence_range | exact Hres ]. }
    match goal with |- context [ if ?b then _ else _ ] => destruct b end;
      [ | exact Hvc ].
    apply well_formed_insert_voice_confidence; [ key_side | lra | exact Hvc ].
Qed.

Lemma detailed_voice_analysis_ok (audio_frame : list Q) :
  post (Voice.detailed_voice_analysis yin_autocorr log2 log10 lpc_roots
          hnr_energies spectral_measure vibrato_measure audio_frame)
       (well_formed detailed_keys).
Proof.
  apply post_try_except;
    [ apply detailed_voice_analysis_body_ok | apply well_formed_detailed_defaults ].
Qed.

Lemma well_formed_realtime_defaults : well_formed result_keys Voice.realtime_defaults.
Proof.
  destruct (well_formed_detailed_defaults false) as [Hd Hf].
  unfold Voice.realtime_defaults. split.
  - rewrite dom_insert_L, Hd. reflexivity.
  - apply fields_ok_insert_other; [ discriminate .. | exact Hf ].
Qed.

(** [results.update(detailed)] takes the four fields from [detailed]. *)
Lemma well_formed_update (results detailed : gmap string Py.value) :
  well_formed result_keys results -> well_formed detailed_keys detailed ->
  well_formed result_keys (Py.update results detailed).
Proof.
  intros [Hd _] [Hd' (pc & vc & h & fs & Hpc & ? & Hvc & ? & Hh & ? & Hf & ?)].
  unfold Py.update. split.
  - rewrite dom_union_L, Hd, Hd'. unfold result_keys.
    apply set_eq. intro x. rewrite !elem_of_union. tauto.
  - exists pc, vc, h, fs.
    rewrite !(lookup_union_Some_l detailed results _ _ Hpc),
            !(lookup_union_Some_l detailed results _ _ Hvc),
            !(lookup_union_Some_l detailed results _ _ Hh),
            !(lookup_union_Some_l detailed results _ _ Hf).
    auto 10.
Qed.

Lemma detect_voice_realtime_body_ok (audio_frame : list Q) :
  post (Voice.detect_voice_realtime_body frame_rms vad_spectrum yin_autocorr log2
          log10 lpc_roots hnr_energies spectral_measure vibrato_measure audio_frame)
       (well_formed result_keys).
Proof.
  unfold Voice.detect_voice_realtime_body.
  eapply (post_bind _ _ (fun _ => True)); [ apply post_modify; exact I | ].
  intros _ _. cbv zeta.
  assert (Hres : well_formed result_keys
            (<["vocal_energy" := Py.VFloat (frame_rms audio_frame)]>
               Voice.realtime_defaults)).
  { insert_other. apply well_formed_realtime_defaults. }
  destruct (Qltb (frame_rms audio_frame) (1 # 1000)); [ apply post_ret, Hres | ].
  eapply (post_bind _ _ (fun _ => True));
    [ intro st; destruct (snd (Voice.quick_vad_check _ _ st)); exact I | ].
  intros vad_result _.
  destruct vad_result; [ | apply post_ret, Hres ].
  eapply (post_bind _ _ (fun _ => True)); [ apply post_get_state; intro; exact I | ].
  intros st _.
  destruct (Voice.frame_counter st `mod` Voice.analysis_frame_skip =? 0)%Z.
  - eapply post_bind; [ apply detailed_voice_analysis_ok | ].
    intros detailed Hdet. apply post_ret, well_formed_update; assumption.
  - destruct (List.last (map Some (Voice.pitch_history st)) None) as [p |];
      apply post_ret.
    + insert_other.
      apply well_formed_insert_voice_confidence; [ key_side | | ].
      * split.
        -- apply pymin_glb; [ lra | ].
           match goal with |- context [ pymax (3 # 10) ?x ] =>
             pose proof (pymax_ge_l (3 # 10) x) end. lra.
        -- pose proof (pymin_le_l (7 # 10)
             (pymax (3 # 10)
                (inject_Z (Z.of_nat (length (Voice.pitch_history st))) / 30))). lra.
      * insert_other. insert_other. exact Hres.
    + insert_other. exact Hres.
Qed.

(** The entry point always returns, and returns a well-formed result. *)
Lemma detect_voice_realtime_ok (audio_frame : list Q) (st : Voice.State) :
  exists st' r,
    Voice.detect_voice_realtime frame_rms vad_spectrum yin_autocorr log2 log10
      lpc_roots hnr_energies spectral_measure vibrato_measure audio_frame st
    = (st', Py.Return r)
    /\ well_formed result_keys r.
Proof.
  apply try_except_returns;
    [ apply detect_voice_realtime_body_ok | apply well_formed_realtime_defaults ].
Qed.

End VoiceBounds.

(** C6: whatever the numerical kernels compute, and from any detector
    state, the result of [detect_voice_realtime] on a frame has
    pitch_confidence and voice_confidence in [0, 1], hnr in [0, 40], and a
    formants list that is sorted ascending, has at most 4 elements, each
    strictly between 90 and 5500 Hz. *)
Theorem C6_voice_result_bounds :
  forall (frame_rms : list Q -> Q) (vad_spectrum : list Q -> Voice.VadSpectrum)
         (yin_autocorr : list Q -> Py.outcome (list Q)) (log2 log10 : Q -> Q)
         (lpc_roots : list Q -> Py.outcome (list (Q * Q)))
         (hnr_energies : list Q -> Q -> Py.outcome (Q * Q))
         (spectral_measure : list Q -> Py.outcome Voice.SpectralMeasure)
         (vibrato_measure : list Q -> Py.outcome Voice.VibratoMeasure)
         (audio_frame : list Q) (st : Voice.State),
  exists st' r pitch_confidence voice_confidence hnr formants,
    Voice.detect_voice_realtime frame_rms vad_spectrum yin_autocorr log2 log10
      lpc_roots hnr_energies spectral_measure vibrato_measure audio_frame st
    = (st', Py.Return r)
    /\ r !! "pitch_confidence" = Some (Py.VFloat pitch_confidence)
    /\ 0 <= pitch_confidence <= 1
    /\ r !! "voice_confidence" = Some (Py.VFloat voice_confidence)
    /\ 0 <= voice_confidence <= 1
    /\ r !! "hnr" = Some (Py.VFloat hnr)
    /\ 0 <= hnr <= 40
    /\ r !! "formants" = Some (Py.VFloatList formants)
    /\ Sorted Qle formants
    /\ (length formants <= 4)%nat
    /\ Forall (fun f => 90 < f /\ f < 5500) formants.
Proof.
  intros.
  destruct (detect_voice_realtime_ok frame_rms vad_spectrum yin_autocorr log2 log10
              lpc_roots hnr_energies spectral_measure vibrato_measure audio_frame st)
    as (st' & r & Heq & _ & (pc & vc & h & fs & Hpc & Bpc & Hvc & Bvc & Hh & Bh & Hf
                              & Hs & Hl & Hr)).
  exists st', r, pc, vc, h, fs. auto 12.
Qed.

(** The inactive result carrying the measured RMS. *)
Definition inactive_result (rms : Q) : gmap string Py.value :=
  <["vocal_energy" := Py.VFloat rms]> Voice.realtime_defaults.

Lemma inactive_result_fields (rms : Q) :
  inactive_result rms !! "has_voice" = Some (Py.VBool false)
  /\ inactive_result rms !! "voice_confidence" = Some (Py.VFloat 0)
  /\ inactive_result rms !! "pitch_confidence" = Some (Py.VFloat 0)
  /\ inactive_result rms !! "formants" = Some (Py.VFloatList [])
  /\ inactive_result rms !! "voice_type" = Some (Py.VStr "unknown")
  /\ inactive_result rms !! "vocal_energy" = Some (Py.VFloat rms).
Proof.
  unfold inactive_result. rewrite lookup_insert_eq.
  rewrite !lookup_insert_ne by discriminate.
  repeat split; reflexivity.
Qed.

Lemma detect_voice_realtime_quiet
    (frame_rms : list Q -> Q) (vad_spectrum : list Q -> Voice.VadSpectrum)
    (yin_autocorr : list Q -> Py.outcome (list Q)) (log2 log10 : Q -> Q)
    (lpc_roots : list Q -> Py.outcome (list (Q * Q)))
    (hnr_energies : list Q -> Q -> Py.outcome (Q * Q))
    (spectral_measure : list Q -> Py.outcome Voice.SpectralMeasure)
    (vibrato_measure : list Q -> Py.outcome Voice.VibratoMeasure)
    (audio_frame : list Q) (st : Voice.State) :
  frame_rms audio_frame < 1 # 1000 ->
  Voice.detect_voice_realtime frame_rms vad_spectrum yin_autocorr log2 log10
    lpc_roots hnr_energies spectral_measure vibrato_measure audio_frame st
  = (Voice.incr_frame_counter st, Py.Return (inactive_result (frame_rms audio_frame))).
Proof.
  intro Hq. apply Qltb_lt in Hq.
  unfold Voice.detect_voice_realtime, Voice.try_except,
    Voice.detect_voice_realtime_body, Voice.bind, Voice.modify.
  cbv zeta. rewrite Hq. reflexivity.
Qed.

(** C7: from any state and whatever the numerical kernels do (failures
    included), [detect_voice_realtime] returns, never raises, and its
    result has exactly the thirteen fields of a voice frame result; on a
    frame whose RMS is below 0.001 the result is the inactive one
    (has_voice false, confidences 0, no formants, voice type unknown)
    with vocal_energy set to that RMS. *)
Theorem C7_voice_detector_never_raises :
  forall (frame_rms : list Q -> Q) (vad_spectrum : list Q -> Voice.VadSpectrum)
         (yin_autocorr : list Q -> Py.outcome (list Q)) (log2 log10 : Q -> Q)
         (lpc_roots : list Q -> Py.outcome (list (Q * Q)))
         (hnr_energies : list Q -> Q -> Py.outcome (Q * Q))
         (spectral_measure : list Q -> Py.outcome Voice.SpectralMeasure)
         (vibrato_measure : list Q -> Py.outcome Voice.VibratoMeasure)
         (audio_frame : list Q) (st : Voice.State),
  let call :=
    Voice.detect_voice_realtime frame_rms vad_spectrum yin_autocorr log2 log10
      lpc_roots hnr_energies spectral_measure vibrato_measure audio_frame st in
  (exists r,
      snd call = Py.Return r
      /\ dom r = result_keys
      /\ forall k,
           In k ["has_voice"; "voice_confidence"; "pitch"; "pitch_note";
                 "pitch_confidence"; "formants"; "voice_type"; "hnr";
                 "spectral_features"; "is_singing"; "vibrato"; "vocal_energy";
                 "fundamental_clarity"] ->
           is_Some (r !! k))
  /\ (frame_rms audio_frame < 1 # 1000 ->
      let r := inactive_result (frame_rms audio_frame) in
      snd call = Py.Return r
      /\ r !! "has_voice" = Some (Py.VBool false)
      /\ r !! "voice_confidence" = Some (Py.VFloat 0)
      /\ r !! "pitch_confidence" = Some (Py.VFloat 0)
      /\ r !! "formants" = Some (Py.VFloatList [])
      /\ r !! "voice_type" = Some (Py.VStr "unknown")
      /\ r !! "vocal_energy" = Some (Py.VFloat (frame_rms audio_frame))).
Proof.
  intros. split.
  - destruct (detect_voice_realtime_ok frame_rms vad_spectrum yin_autocorr log2
                log10 lpc_roots hnr_energies spectral_measure vibrato_measure
                audio_frame st) as (st' & r & Heq & Hdom & _).
    exists r. subst call. rewrite Heq. split; [ reflexivity | ].
    split; [ exact Hdom | ].
    intros k Hk. apply elem_of_dom. rewrite Hdom.
    apply in_result_keys. cbn [In] in *. tauto.
  - intros Hq r. subst call.
    rewrite (detect_voice_realtime_quiet _ _ _ _ _ _ _ _ _ _ _ Hq).
    split; [ reflexivity | apply inactive_result_fields ].
Qed.

(** ** The spectrum of a frame that is not silent (C10) *)

Section RealSpectrum.

Import VadReal.
Local Open Scope R_scope.

(** *** Finite sums *)













(** *** Sums of cosines over a full period *)




(** *** Parseval's identity for the transform *)






(** *** The bins kept by the real transform *)



(** *** From the RMS to the total spectral energy *)






End RealSpectrum.

(** *** The unassigned read in [quick_vad_check] *)





(** * Further properties of the analysis core *)

(** ** Bounded histories and medians *)

Lemma deque_append_length {A} (maxlen : nat) (x : A) (d : list A) :
  length (deque_append maxlen x d) = Nat.min (S (length d)) maxlen.
Proof.
  unfold deque_append. rewrite length_skipn, length_app. cbn [length]. lia.
Qed.

Lemma deque_append_Forall {A} (P : A -> Prop) (maxlen : nat) (x : A) (d : list A) :
  Forall P d -> P x -> Forall P (deque_append maxlen x d).
Proof.
  intros Hd Hx. unfold deque_append. apply Forall_drop, Forall_app.
  split; [ exact Hd | constructor; [ exact Hx | constructor ] ].
Qed.

Lemma nth_Forall (P : Q -> Prop) (l : list Q) (i : nat) (d : Q) :
  Forall P l -> P d -> P (nth i l d).
Proof.
  intros Hl Hd. destruct (Nat.lt_ge_cases i (length l)) as [Hi | Hi].
  - rewrite Forall_forall in Hl. apply Hl, nth_In, Hi.
  - rewrite nth_overflow by exact Hi. exact Hd.
Qed.

(** The median of data in an interval lies in the interval. *)
Lemma median_range (a b : Q) (l : list Q) :
  l <> [] -> Forall (fun x => a <= x <= b) l -> a <= median l <= b.
Proof.
  intros Hne Hl. unfold median. cbv zeta.
  pose proof (qsort_Forall _ l Hl) as Hs.
  pose proof (qsort_length l) as Hlen.
  assert (Hpos : (0 < length (qsort l))%nat).
  { rewrite Hlen. destruct l; [ congruence | cbn; lia ]. }
  assert (Hnth : forall i, (i < length (qsort l))%nat ->
                           a <= nth i (qsort l) 0 <= b).
  { intros i Hi. rewrite Forall_forall in Hs. apply Hs, nth_In, Hi. }
  destruct (Nat.even (length (qsort l))) eqn:E.
  - assert (H2 : (2 <= length (qsort l))%nat).
    { destruct (length (qsort l)) as [| [| n]]; [ lia | discriminate E | lia ]. }
    pose proof (Nat.div_lt (length (qsort l)) 2 ltac:(lia) ltac:(lia)).
    pose proof (Hnth (length (qsort l) / 2 - 1)%nat ltac:(lia)) as H1.
    pose proof (Hnth (length (qsort l) / 2)%nat ltac:(lia)) as H3.
    split; [ apply Qle_shift_div_l | apply Qle_shift_div_r ]; lra.
  - apply Hnth. apply Nat.div_lt; lia.
Qed.

Lemma median_nonneg (l : list Q) :
  Forall (fun x => 0 <= x) l -> 0 <= median l.
Proof.
  intro Hl. unfold median. cbv zeta.
  pose proof (qsort_Forall _ l Hl) as Hs.
  assert (Hnth : forall i, 0 <= nth i (qsort l) 0)
    by (intro i; apply (nth_Forall (fun x => 0 <= x)); [ exact Hs | lra ]).
  destruct (Nat.even (length (qsort l))); [ | apply Hnth ].
  pose proof (Hnth (length (qsort l) / 2 - 1)%nat).
  pose proof (Hnth (length (qsort l) / 2)%nat).
  apply Qle_shift_div_l; lra.
Qed.

Lemma mad_nonneg (l : list Q) : 0 <= mad l.
Proof.
  unfold mad. cbv zeta. apply median_nonneg, Forall_map, Forall_forall.
  intros x _. apply Qabs_nonneg.
Qed.

(** ** Kick detector: what every frame keeps *)

Definition nonneg_list (l : list Q) : Prop := Forall (fun x => 0 <= x) l.

(** The invariant of a kick detector in use: a non-negative sensitivity,
    histories of non-negative fluxes of at most 21 values, and displayed
    values within the ranges of the instantaneous ones. *)
Record kick_ok (st : Kick.State) : Prop := {
  kick_ok_sens : 0 <= Kick.sensitivity st;
  kick_ok_sub : nonneg_list (Kick.sub_flux_history st);
  kick_ok_body : nonneg_list (Kick.body_flux_history st);
  kick_ok_click : nonneg_list (Kick.click_flux_history st);
  kick_ok_sub_len : (length (Kick.sub_flux_history st) <= 21)%nat;
  kick_ok_body_len : (length (Kick.body_flux_history st) <= 21)%nat;
  kick_ok_click_len : (length (Kick.click_flux_history st) <= 21)%nat;
  kick_ok_disp : 0 <= Kick.display_strength st <= 1;
  kick_ok_vel : (0 <= Kick.display_velocity st <= 127)%Z
}.

Lemma positive_flux_nonneg (magnitude prev : list Q) (a b : nat) :
  0 <= Kick.positive_flux magnitude prev a b.
Proof.
  unfold Kick.positive_flux. apply qsum_nonneg, Forall_map, Forall_forall.
  intros p _. apply pymax_ge_l.
Qed.

(** What [calculate_band_flux] leaves alone, and what it keeps. *)
Lemma calculate_band_flux_keeps (st : Kick.State) m a b band :
  let st' := fst (Kick.calculate_band_flux st m a b band) in
  0 <= snd (Kick.calculate_band_flux st m a b band)
  /\ Kick.sample_rate st' = Kick.sample_rate st
  /\ Kick.sensitivity st' = Kick.sensitivity st
  /\ Kick.display_strength st' = Kick.display_strength st
  /\ Kick.display_velocity st' = Kick.display_velocity st
  /\ Kick.last_detection_time st' = Kick.last_detection_time st
  /\ (kick_ok st -> kick_ok st').
Proof.
  unfold Kick.calculate_band_flux.
  destruct (Kick.prev_magnitude st) as [prev |]; cbn [fst snd].
  - pose proof (positive_flux_nonneg m prev a b) as Hf.
    split; [ exact Hf | ].
    destruct band; (repeat (split; [ reflexivity | ]));
      intros [? ? ? ? ? ? ? ? ?]; constructor;
      cbn [Kick.push_history Kick.sensitivity Kick.sub_flux_history
           Kick.body_flux_history Kick.click_flux_history
           Kick.display_strength Kick.display_velocity];
      try assumption;
      try (apply deque_append_Forall; assumption);
      rewrite deque_append_length; unfold Kick.history_maxlen; lia.
  - split; [ lra | ]. repeat (split; [ reflexivity | ]).
    intros [? ? ? ? ? ? ? ? ?]; constructor; assumption.
Qed.

Lemma threshold_nonneg (st : Kick.State) (h : list Q) :
  0 <= Kick.sensitivity st -> nonneg_list h ->
  0 <= Kick.calculate_adaptive_threshold st h.
Proof.
  intros Hs Hh. unfold Kick.calculate_adaptive_threshold.
  destruct (length h <? 10)%nat; [ lra | ].
  pose proof (median_nonneg h Hh). pose proof (mad_nonneg h). nra.
Qed.

Lemma py_int_range (x : Q) (n : Z) :
  0 <= x -> x <= inject_Z n -> (0 <= py_int x <= n)%Z.
Proof.
  intros H0 H1. rewrite py_int_floor by exact H0.
  pose proof (Qfloor_resp_le _ _ H0) as Hlo.
  pose proof (Qfloor_resp_le _ _ H1) as Hhi.
  rewrite Qfloor_Z in Hhi. change (Qfloor 0) with 0%Z in Hlo. lia.
Qed.

Lemma ratio_nonneg (f thr : Q) : 0 <= f -> 0 <= thr -> 0 <= f / (thr + (1 # 1000000)).
Proof. intros. apply Qle_shift_div_l; lra. Qed.

Lemma ratio_pos (f thr : Q) : 0 <= thr -> thr < f -> 0 < f / (thr + (1 # 1000000)).
Proof. intros. apply Qlt_shift_div_l; lra. Qed.

Lemma velocity_of_strength_range (s : Q) :
  0 <= s <= 1 -> (0 <= Kick.velocity_of_strength s <= 127)%Z.
Proof.
  intro Hs. unfold Kick.velocity_of_strength.
  destruct (velocity_floor s Hs) as [-> H]. exact H.
Qed.

(** The decayed velocity [int(v * 0.92)] stays between 0 and [v]. *)
Lemma decayed_velocity_range (v : Z) (rate : Q) :
  (0 <= v)%Z -> 0 <= rate <= 1 ->
  (0 <= py_int (inject_Z v * rate) <= v)%Z.
Proof.
  intros Hv Hr. apply py_int_range.
  - assert (0 <= inject_Z v) by (change 0 with (inject_Z 0); rewrite <- Zle_Qle; exact Hv).
    nra.
  - assert (0 <= inject_Z v) by (change 0 with (inject_Z 0); rewrite <- Zle_Qle; exact Hv).
    nra.
Qed.

(** One frame of the kick detector. *)
Lemma kick_step_ok (st : Kick.State) (t : Q) (m : list Q) :
  kick_ok st ->
  let st' := fst (Kick.detect_kick_onset st t m) in
  let r := snd (Kick.detect_kick_onset st t m) in
  kick_ok st'
  /\ (0 <= Kick.r_sub_flux r /\ 0 <= Kick.r_body_flux r /\ 0 <= Kick.r_click_flux r)
  /\ (0 <= Kick.r_sub_threshold r /\ 0 <= Kick.r_body_threshold r)
  /\ 0 <= Kick.r_kick_strength r <= 1
  /\ (Kick.r_kick_detected r = true -> 0 < Kick.r_kick_strength r)
  /\ (0 <= Kick.r_kick_velocity r <= 127)%Z
  /\ (Kick.r_display_strength r = Kick.display_strength st'
      /\ Kick.r_display_velocity r = Kick.display_velocity st')
  /\ (Kick.r_kick_detected r = true ->
      Kick.display_strength st' = Kick.r_kick_strength r
      /\ Kick.display_velocity st' = Kick.r_kick_velocity r)
  /\ (Kick.r_kick_detected r = false ->
      Kick.display_strength st' <= Kick.display_strength st
      /\ (Kick.display_velocity st' <= Kick.display_velocity st)%Z
      /\ (Kick.display_strength st' = 0 \/ (5 # 100) <= Kick.display_strength st')
      /\ (Kick.display_strength st' = 0 -> Kick.display_velocity st' = 0%Z)).
Proof.
  intro Hok. unfold Kick.detect_kick_onset.
  pose proof (calculate_band_flux_keeps st m
    (Kick.band_bin (Kick.sample_rate st) (fst Kick.sub_bass_range) (length m))
    (Kick.band_bin (Kick.sample_rate st) (snd Kick.sub_bass_range) (length m))
    Kick.Sub) as H1.
  destruct (Kick.calculate_band_flux st m _ _ Kick.Sub) as [st1 f1].
  pose proof (calculate_band_flux_keeps st1 m
    (Kick.band_bin (Kick.sample_rate st) (fst Kick.kick_body_range) (length m))
    (Kick.band_bin (Kick.sample_rate st) (snd Kick.kick_body_range) (length m))
    Kick.Body) as H2.
  destruct (Kick.calculate_band_flux st1 m _ _ Kick.Body) as [st2 f2].
  pose proof (calculate_band_flux_keeps st2 m
    (Kick.band_bin (Kick.sample_rate st) (fst Kick.kick_click_range) (length m))
    (Kick.band_bin (Kick.sample_rate st) (snd Kick.kick_click_range) (length m))
    Kick.Click) as H3.
  destruct (Kick.calculate_band_flux st2 m _ _ Kick.Click) as [st3 f3].
  cbn [fst snd] in H1, H2, H3.
  destruct H1 as (Hf1 & _ & Hs1 & Hd1 & Hv1 & Ht1 & Hok1).
  destruct H2 as (Hf2 & _ & Hs2 & Hd2 & Hv2 & Ht2 & Hok2).
  destruct H3 as (Hf3 & _ & Hs3 & Hd3 & Hv3 & Ht3 & Hok3).
  pose proof (Hok3 (Hok2 (Hok1 Hok))) as Hok'.
  assert (Hdisp : Kick.display_strength st3 = Kick.display_strength st) by congruence.
  assert (Hvel : Kick.display_velocity st3 = Kick.display_velocity st) by congruence.
  destruct Hok' as [Ksens Ksub Kbody Kclick Lsub Lbody Lclick Kdisp Kvel].
  rewrite Hdisp in Kdisp. rewrite Hvel in Kvel.
  cbv zeta.
  set (st4 := Kick.set_prev_magnitude m st3).
  set (sub_thr := Kick.calculate_adaptive_threshold st4 (Kick.sub_flux_history st4)).
  set (body_thr := Kick.calculate_adaptive_threshold st4 (Kick.body_flux_history st4)).
  set (click_thr := Kick.calculate_adaptive_threshold st4 (Kick.click_flux_history st4)).
  assert (Hsub_thr : 0 <= sub_thr) by (apply threshold_nonneg; assumption).
  assert (Hbody_thr : 0 <= body_thr) by (apply threshold_nonneg; assumption).
  assert (Hclick_thr : 0 <= click_thr) by (apply threshold_nonneg; assumption).
  match goal with
  | |- context [ if ?d && Qltb 0 _ then _ else _ ] => set (det := d)
  end.
  match goal with
  | |- context [ if det && Qltb 0 ?s then _ else _ ] => set (str := s)
  end.
  set (cs := if Qltb 0 click_thr then f3 / (click_thr + (1 # 1000000)) else 0) in *.
  assert (Hcs : 0 <= cs).
  { subst cs. destruct (Qltb 0 click_thr); [ apply ratio_nonneg; assumption | lra ]. }
  assert (Hdet : det = true -> sub_thr < f1 /\ body_thr < f2).
  { subst det. rewrite !andb_true_iff, !Qltb_lt. tauto. }
  clearbody det cs sub_thr body_thr click_thr.
  assert (Hstr : 0 <= str <= 1 /\ (det = true -> 0 < str)).
  { subst str. destruct det.
    - destruct (Hdet eq_refl) as [Ha Hb].
      pose proof (ratio_pos f1 sub_thr Hsub_thr Ha).
      pose proof (ratio_pos f2 body_thr Hbody_thr Hb).
      match goal with |- context [ pymin 1 ?x ] =>
        destruct (pymin_spec 1 x) as [[? ->] | [? ->]] end; split; try lra; intros _; lra.
    - split; [ lra | discriminate ]. }
  destruct Hstr as [Hstr Hstr_pos].
  set (vel := if det then Kick.velocity_of_strength str else 0%Z).
  assert (Hvelr : (0 <= vel <= 127)%Z).
  { subst vel. destruct det; [ apply velocity_of_strength_range, Hstr | lia ]. }
  set (last_det := if det then t else Kick.last_detection_time st4).
  set (decayed := if Qltb Kick.hold_time (t - last_det)
                  then (Kick.display_strength st4 * Kick.decay_rate,
                        py_int (inject_Z (Kick.display_velocity st4) * Kick.decay_rate))
                  else (Kick.display_strength st4, Kick.display_velocity st4)).
  assert (Hdec : 0 <= fst decayed <= Kick.display_strength st
                 /\ (0 <= snd decayed <= Kick.display_velocity st)%Z).
  { subst decayed. subst st4. cbn [Kick.set_prev_magnitude Kick.display_strength
                                   Kick.display_velocity].
    rewrite Hdisp, Hvel.
    destruct (Qltb Kick.hold_time (t - last_det)); cbn [fst snd].
    - unfold Kick.decay_rate. split; [ lra | ].
      apply decayed_velocity_range; [ lia | lra ].
    - split; [ lra | lia ]. }
  destruct decayed as [ds dv]. cbn [fst snd] in Hdec.
  destruct Hdec as [Hds Hdv].
  assert (Hdisp_le : Kick.display_strength st <= 1) by lra.
  assert (Hvel_le : (Kick.display_velocity st <= 127)%Z) by lia.
  destruct det eqn:Edet; cbn [andb].
  - specialize (Hstr_pos eq_refl). apply Qltb_lt in Hstr_pos as Hb. rewrite Hb.
    cbn [fst snd Kick.r_sub_flux Kick.r_body_flux Kick.r_click_flux
         Kick.r_sub_threshold Kick.r_body_threshold Kick.r_kick_strength
         Kick.r_kick_detected Kick.r_kick_velocity Kick.r_display_strength
         Kick.r_display_velocity Kick.display_strength Kick.display_velocity].
    split; [ constructor; cbn; assumption | ].
    repeat split; try assumption; try lra; try lia; try discriminate.
  - assert (Hz : forall s v, 0 <= s <= Kick.display_strength st ->
                 (0 <= v <= Kick.display_velocity st)%Z ->
                 let p := if Qltb s (5 # 100) then (0, 0%Z) else (s, v) in
                 0 <= fst p <= Kick.display_strength st
                 /\ (0 <= snd p <= Kick.display_velocity st)%Z
                 /\ (fst p = 0 \/ (5 # 100) <= fst p)
                 /\ (fst p = 0 -> snd p = 0%Z)).
    { intros s v Hs Hv. cbv zeta. case_Qltb s (5 # 100); cbn [fst snd].
      - split; [ lra | ]. split; [ lia | ].
        split; [ left; reflexivity | intros _; reflexivity ].
      - split; [ lra | ]. split; [ lia | ].
        split; [ right; exact Hcmp | ].
        intro H0. rewrite H0 in Hcmp. lra. }
    specialize (Hz ds dv Hds Hdv). cbv zeta in Hz.
    destruct (if Qltb ds (5 # 100) then (0, 0%Z) else (ds, dv)) as [ds' dv'].
    cbn [fst snd] in Hz. destruct Hz as (Hz1 & Hz2 & Hz3 & Hz4).
    cbn [fst snd Kick.r_sub_flux Kick.r_body_flux Kick.r_click_flux
         Kick.r_sub_threshold Kick.r_body_threshold Kick.r_kick_strength
         Kick.r_kick_detected Kick.r_kick_velocity Kick.r_display_strength
         Kick.r_display_velocity Kick.display_strength Kick.display_velocity].
    split; [ constructor; cbn; try assumption; try lra; lia | ].
    repeat split; try assumption; try lra; try lia; try discriminate.
Qed.

Lemma kick_ok_init (sr : Z) (sens : Q) : 0 <= sens -> kick_ok (Kick.init sr sens).
Proof.
  intro H. constructor; cbn; try assumption; try constructor; try lra; lia.
Qed.

(** The state a run ends in. *)
Fixpoint kick_final (st : Kick.State) (frames : list (Q * list Q)) : Kick.State :=
  match frames with
  | [] => st
  | (t, m) :: rest => kick_final (fst (Kick.detect_kick_onset st t m)) rest
  end.

(** What holds of every result of a kick detector in use. *)
Definition kick_result_ok (r : Kick.Result) : Prop :=
  (0 <= Kick.r_sub_flux r /\ 0 <= Kick.r_body_flux r /\ 0 <= Kick.r_click_flux r)
  /\ (0 <= Kick.r_sub_threshold r /\ 0 <= Kick.r_body_threshold r)
  /\ 0 <= Kick.r_kick_strength r <= 1
  /\ (0 <= Kick.r_kick_velocity r <= 127)%Z
  /\ 0 <= Kick.r_display_strength r <= 1
  /\ (0 <= Kick.r_display_velocity r <= 127)%Z
  /\ (Kick.r_kick_detected r = true ->
      0 < Kick.r_kick_strength r
      /\ Kick.r_display_strength r = Kick.r_kick_strength r
      /\ Kick.r_display_velocity r = Kick.r_kick_velocity r)
  /\ (Kick.r_kick_detected r = false ->
      Kick.r_kick_strength r = 0 /\ Kick.r_kick_velocity r = 0%Z).

Lemma kick_undetected_zero (st : Kick.State) (t : Q) (m : list Q) :
  let r := snd (Kick.detect_kick_onset st t m) in
  Kick.r_kick_detected r = false ->
  Kick.r_kick_strength r = 0 /\ Kick.r_kick_velocity r = 0%Z.
Proof.
  unfold Kick.detect_kick_onset.
  destruct (Kick.calculate_band_flux st m _ _ Kick.Sub) as [st1 f1].
  destruct (Kick.calculate_band_flux st1 m _ _ Kick.Body) as [st2 f2].
  destruct (Kick.calculate_band_flux st2 m _ _ Kick.Click) as [st3 f3].
  cbv zeta.
  match goal with
  | |- context [ if ?d && Qltb 0 ?s then (?a, ?b) else ?e ] =>
      destruct (if d && Qltb 0 s then (a, b) else e) as [ds dv]
  end.
  cbn [snd Kick.r_kick_velocity Kick.r_kick_detected Kick.r_kick_strength].
  intros ->. split; reflexivity.
Qed.

Lemma kick_run_ok (frames : list (Q * list Q)) (st : Kick.State) :
  kick_ok st ->
  Forall (fun tr => kick_result_ok (snd tr)) (Kick.run st frames)
  /\ kick_ok (kick_final st frames).
Proof.
  revert st. induction frames as [| [t m] rest IH]; intros st Hok;
    cbn [Kick.run kick_final].
  - split; [ constructor | exact Hok ].
  - pose proof (kick_step_ok st t m Hok) as Hstep.
    pose proof (kick_undetected_zero st t m) as Hzero.
    destruct (Kick.detect_kick_onset st t m) as [st' r].
    cbn [fst snd] in Hstep, Hzero.
    destruct Hstep as (Hok' & Hfl & Hth & Hstr & Hpos & Hvel & [Hds Hdv] & Hdet & _).
    destruct (IH st' Hok') as [IH1 IH2].
    split; [ | exact IH2 ].
    constructor; [ | exact IH1 ].
    cbn [snd]. unfold kick_result_ok.
    destruct Hok' as [_ _ _ _ _ _ _ Kd Kv].
    rewrite Hds, Hdv.
    repeat split; try tauto; try lra; try lia.
Qed.

(** X1: a kick detector created with a non-negative sensitivity reports, on
    every frame of every run, band fluxes and thresholds that are not
    negative, a strength in [0, 1], a velocity in [0, 127] and displayed
    values in the same ranges; a detection has a positive strength which the
    display shows at once, and a frame without detection reports strength
    and velocity zero. *)
Theorem X1_kick_results_in_range (sr : Z) (sens : Q) (frames : list (Q * list Q)) :
  0 <= sens ->
  Forall (fun tr => kick_result_ok (snd tr)) (Kick.run (Kick.init sr sens) frames).
Proof.
  intro H. apply kick_run_ok, kick_ok_init, H.
Qed.

Lemma X1_kick_results_in_range_witness :
  0 <= 1
  /\ Forall (fun tr => kick_result_ok (snd tr))
            (Kick.run (Kick.init SAMPLE_RATE 1) onset_run).
Proof.
  split; [ lra | apply (X1_kick_results_in_range SAMPLE_RATE 1 onset_run); lra ].
Defined.

(** ** Warm-up of the drum detectors *)

Lemma deque_append_length_le {A} (maxlen : nat) (x : A) (d : list A) :
  (length (deque_append maxlen x d) <= S (length d))%nat.
Proof.
  unfold deque_append. rewrite length_skipn, length_app. cbn. lia.
Qed.

(** One frame adds at most one value to the sub-bass history, and none on
    the very first frame, which only records the spectrum. *)
Lemma kick_step_sub_history (st : Kick.State) (t : Q) (m : list Q) :
  let st' := fst (Kick.detect_kick_onset st t m) in
  (exists p, Kick.prev_magnitude st' = Some p)
  /\ (length (Kick.sub_flux_history st')
      <= match Kick.prev_magnitude st with
         | None => length (Kick.sub_flux_history st)
         | Some _ => S (length (Kick.sub_flux_history st))
         end)%nat.
Proof.
  unfold Kick.detect_kick_onset.
  assert (Hsub : forall s a b band,
    (length (Kick.sub_flux_history (fst (Kick.calculate_band_flux s m a b band)))
     <= match band with
        | Kick.Sub => match Kick.prev_magnitude s with
                      | None => length (Kick.sub_flux_history s)
                      | Some _ => S (length (Kick.sub_flux_history s))
                      end
        | _ => length (Kick.sub_flux_history s)
        end)%nat).
  { intros s a b band. unfold Kick.calculate_band_flux.
    destruct (Kick.prev_magnitude s); destruct band; cbn; try lia.
    apply deque_append_length_le. }
  pose proof (Hsub st
    (Kick.band_bin (Kick.sample_rate st) (fst Kick.sub_bass_range) (length m))
    (Kick.band_bin (Kick.sample_rate st) (snd Kick.sub_bass_range) (length m))
    Kick.Sub) as H1.
  destruct (Kick.calculate_band_flux st m _ _ Kick.Sub) as [st1 f1].
  pose proof (Hsub st1
    (Kick.band_bin (Kick.sample_rate st) (fst Kick.kick_body_range) (length m))
    (Kick.band_bin (Kick.sample_rate st) (snd Kick.kick_body_range) (length m))
    Kick.Body) as H2.
  destruct (Kick.calculate_band_flux st1 m _ _ Kick.Body) as [st2 f2].
  pose proof (Hsub st2
    (Kick.band_bin (Kick.sample_rate st) (fst Kick.kick_click_range) (length m))
    (Kick.band_bin (Kick.sample_rate st) (snd Kick.kick_click_range) (length m))
    Kick.Click) as H3.
  destruct (Kick.calculate_band_flux st2 m _ _ Kick.Click) as [st3 f3].
  cbn [fst] in H1, H2, H3.
  cbv zeta.
  match goal with
  | |- context [ if ?d && Qltb 0 ?s then (?a, ?b) else ?e ] =>
      destruct (if d && Qltb 0 s then (a, b) else e) as [ds dv]
  end.
  cbn [fst Kick.prev_magnitude Kick.sub_flux_history Kick.set_prev_magnitude].
  split; [ eexists; reflexivity | ].
  destruct (Kick.prev_magnitude st); lia.
Qed.

(** While the sub-bass history stays below ten values no kick is reported. *)
Lemma kick_run_underfilled (n : nat) (frames : list (Q * list Q)) (st : Kick.State) :
  (match Kick.prev_magnitude st with
   | None => length (Kick.sub_flux_history st) + n <= 10
   | Some _ => length (Kick.sub_flux_history st) + n <= 9
   end)%nat ->
  Forall (fun tr => Kick.r_kick_detected (snd tr) = false)
         (firstn n (Kick.run st frames)).
Proof.
  revert st frames. induction n as [| n IH]; intros st frames Hlen.
  - constructor.
  - destruct frames as [| [t m] rest]; [ constructor | ].
    cbn [Kick.run].
    pose proof (kick_step_sub_history st t m) as [[p Hp] Hsub].
    pose proof (kick_detect_fields st t m) as [Hdet _].
    destruct (Kick.detect_kick_onset st t m) as [st' r].
    cbn [fst snd] in Hp, Hsub, Hdet. cbn [firstn].
    constructor.
    + cbn [snd]. rewrite Hdet.
      assert ((10 <=? length (Kick.sub_flux_history st'))%nat = false) as ->.
      { apply Nat.leb_gt. destruct (Kick.prev_magnitude st); lia. }
      reflexivity.
    + apply IH. rewrite Hp. destruct (Kick.prev_magnitude st); lia.
Qed.

Lemma snare_step_history (st : Snare.State) (t : Q) (m : list Q) :
  let st' := fst (Snare.detect_snare_onset st t m) in
  let r := snd (Snare.detect_snare_onset st t m) in
  (length (Snare.fundamental_flux_history st')
   <= S (length (Snare.fundamental_flux_history st)))%nat
  /\ (Snare.r_snare_detected r = true ->
      (10 <= length (Snare.fundamental_flux_history st'))%nat).
Proof.
  unfold Snare.detect_snare_onset.
  destruct (Snare.calculate_multi_band_flux _ _ m) as [[[f1 f2] f3] f4].
  cbv zeta.
  match goal with
  | |- context [ if ?d && Qltb 0 ?s then (?a, ?b) else ?e ] =>
      destruct (if d && Qltb 0 s then (a, b) else e) as [ds dv]
  end.
  cbn [fst snd Snare.fundamental_flux_history Snare.r_snare_detected].
  split; [ apply deque_append_length_le | ].
  intro H. apply andb_true_iff in H as [H _]. apply Nat.leb_le in H. exact H.
Qed.

Lemma snare_run_underfilled (n : nat) (frames : list (Q * list Q)) (st : Snare.State) :
  (length (Snare.fundamental_flux_history st) + n <= 9)%nat ->
  Forall (fun tr => Snare.r_snare_detected (snd tr) = false)
         (firstn n (Snare.run st frames)).
Proof.
  revert st frames. induction n as [| n IH]; intros st frames Hlen.
  - constructor.
  - destruct frames as [| [t m] rest]; [ constructor | ].
    cbn [Snare.run].
    pose proof (snare_step_history st t m) as [Hsub Hdet].
    destruct (Snare.detect_snare_onset st t m) as [st' r].
    cbn [fst snd] in Hsub, Hdet. cbn [firstn].
    constructor.
    + cbn [snd]. destruct (Snare.r_snare_detected r); [ | reflexivity ].
      specialize (Hdet eq_refl). lia.
    + apply IH. lia.
Qed.

(** X2: a fresh kick detector reports no kick on the first ten frames and
    a fresh snare detector no snare on the first nine, whatever the audio,
    the clock and the sensitivity: the kick gate needs ten sub-bass flux
    values, and the first frame stores none. *)
Theorem X2_detectors_warm_up (sr : Z) (sens : Q) (frames : list (Q * list Q)) :
  Forall (fun tr => Kick.r_kick_detected (snd tr) = false)
         (firstn 10 (Kick.run (Kick.init sr sens) frames))
  /\ Forall (fun tr => Snare.r_snare_detected (snd tr) = false)
            (firstn 9 (Snare.run (Snare.init sr sens) frames)).
Proof.
  split.
  - apply kick_run_underfilled. cbn. lia.
  - apply snare_run_underfilled. cbn. lia.
Qed.

(** ** The snare detector in use *)

Record snare_ok (st : Snare.State) : Prop := {
  snare_ok_sens : 0 <= Snare.sensitivity st;
  snare_ok_fund : nonneg_list (Snare.fundamental_flux_history st);
  snare_ok_body : nonneg_list (Snare.body_flux_history st);
  snare_ok_snap : nonneg_list (Snare.snap_flux_history st);
  snare_ok_rattle : nonneg_list (Snare.rattle_flux_history st);
  snare_ok_fund_len : (length (Snare.fundamental_flux_history st) <= 21)%nat;
  snare_ok_disp : 0 <= Snare.display_strength st <= 1;
  snare_ok_vel : (0 <= Snare.display_velocity st <= 127)%Z
}.

Lemma calculate_multi_band_flux_nonneg (sr : Z) (prev : option (list Q)) (m : list Q) :
  let '(f1, f2, f3, f4) := Snare.calculate_multi_band_flux sr prev m in
  0 <= f1 /\ 0 <= f2 /\ 0 <= f3 /\ 0 <= f4.
Proof.
  unfold Snare.calculate_multi_band_flux. destruct prev as [p |].
  - repeat split; apply positive_flux_nonneg.
  - repeat split; lra.
Qed.

Lemma band_threshold_nonneg (sens c : Q) (h : list Q) :
  0 <= sens -> 0 <= c -> nonneg_list h -> 0 <= Snare.band_threshold sens c h.
Proof.
  intros Hs Hc Hh. unfold Snare.band_threshold.
  pose proof (median_nonneg h Hh). pose proof (mad_nonneg h).
  assert (0 <= sens * c) by nra. nra.
Qed.

(** What holds of every result of a snare detector in use. *)
Definition snare_result_ok (r : Snare.Result) : Prop :=
  (0 <= Snare.r_fundamental_flux r /\ 0 <= Snare.r_body_flux r
   /\ 0 <= Snare.r_snap_flux r /\ 0 <= Snare.r_rattle_flux r)
  /\ 0 <= Snare.r_snare_strength r <= 1
  /\ (0 <= Snare.r_snare_velocity r <= 127)%Z
  /\ 0 <= Snare.r_display_strength r <= 1
  /\ (0 <= Snare.r_display_velocity r <= 127)%Z
  /\ (Snare.r_snare_detected r = true ->
      0 < Snare.r_snare_strength r
      /\ Snare.r_display_strength r = Snare.r_snare_strength r
      /\ Snare.r_display_velocity r = Snare.r_snare_velocity r)
  /\ (Snare.r_snare_detected r = false ->
      Snare.r_snare_strength r = 0 /\ Snare.r_snare_velocity r = 0%Z).

Lemma snare_velocity_of_strength_range (s : Q) :
  0 <= s <= 1 -> (0 <= Snare.velocity_of_strength s <= 127)%Z.
Proof. exact (velocity_of_strength_range s). Qed.

(** One frame of the snare detector. *)
Lemma snare_step_ok (st : Snare.State) (t : Q) (m : list Q) :
  snare_ok st ->
  let st' := fst (Snare.detect_snare_onset st t m) in
  let r := snd (Snare.detect_snare_onset st t m) in
  snare_ok st'
  /\ snare_result_ok r
  /\ (Snare.r_display_strength r = Snare.display_strength st'
      /\ Snare.r_display_velocity r = Snare.display_velocity st')
  /\ (Snare.r_snare_detected r = false ->
      Snare.display_strength st' <= Snare.display_strength st
      /\ (Snare.display_velocity st' <= Snare.display_velocity st)%Z
      /\ (Snare.display_strength st' = 0 \/ (5 # 100) <= Snare.display_strength st')
      /\ (Snare.display_strength st' = 0 -> Snare.display_velocity st' = 0%Z)).
Proof.
  intros [Ksens Kfund Kbody Ksnap Krattle Lfund Kdisp Kvel].
  unfold Snare.detect_snare_onset.
  pose proof (calculate_multi_band_flux_nonneg (Snare.sample_rate st)
                (Snare.prev_magnitude st) m) as Hfl.
  destruct (Snare.calculate_multi_band_flux _ _ m) as [[[f1 f2] f3] f4].
  destruct Hfl as (Hf1 & Hf2 & Hf3 & Hf4).
  cbv zeta.
  set (fund_h := deque_append Snare.history_maxlen f1 (Snare.fundamental_flux_history st)).
  set (body_h := deque_append Snare.history_maxlen f2 (Snare.body_flux_history st)).
  set (snap_h := deque_append Snare.history_maxlen f3 (Snare.snap_flux_history st)).
  set (rattle_h := deque_append Snare.history_maxlen f4 (Snare.rattle_flux_history st)).
  assert (Nfund : nonneg_list fund_h) by (apply deque_append_Forall; assumption).
  assert (Nbody : nonneg_list body_h) by (apply deque_append_Forall; assumption).
  assert (Nsnap : nonneg_list snap_h) by (apply deque_append_Forall; assumption).
  assert (Nrattle : nonneg_list rattle_h) by (apply deque_append_Forall; assumption).
  assert (Llen : (length fund_h <= 21)%nat).
  { subst fund_h. rewrite deque_append_length. unfold Snare.history_maxlen. lia. }
  set (fund_thr := Snare.band_threshold (Snare.sensitivity st) (25 # 10) fund_h).
  set (body_thr := Snare.band_threshold (Snare.sensitivity st) (23 # 10) body_h).
  set (snap_thr := Snare.band_threshold (Snare.sensitivity st) (20 # 10) snap_h).
  assert (Hfund_thr : 0 <= fund_thr) by (apply band_threshold_nonneg; [ | lra | ]; assumption).
  assert (Hbody_thr : 0 <= body_thr) by (apply band_threshold_nonneg; [ | lra | ]; assumption).
  assert (Hsnap_thr : 0 <= snap_thr) by (apply band_threshold_nonneg; [ | lra | ]; assumption).
  match goal with
  | |- context [ if ?d && Qltb 0 _ then _ else _ ] => set (det := d)
  end.
  match goal with
  | |- context [ if det && Qltb 0 ?s then _ else _ ] => set (str := s)
  end.
  assert (Hdet : det = true -> fund_thr < f1 /\ body_thr < f2 /\ snap_thr < f3).
  { subst det. rewrite !andb_true_iff, !Qltb_lt. tauto. }
  clearbody det fund_thr body_thr snap_thr fund_h body_h snap_h rattle_h.
  assert (Hstr : 0 <= str <= 1 /\ (det = true -> 0 < str)).
  { subst str. destruct det.
    - destruct (Hdet eq_refl) as (Ha & Hb & Hc).
      pose proof (ratio_pos f1 fund_thr Hfund_thr Ha).
      pose proof (ratio_pos f2 body_thr Hbody_thr Hb).
      pose proof (ratio_pos f3 snap_thr Hsnap_thr Hc).
      match goal with |- context [ pymin 1 ?x ] =>
        destruct (pymin_spec 1 x) as [[? ->] | [? ->]] end; split; try lra; intros _; lra.
    - split; [ lra | discriminate ]. }
  destruct Hstr as [Hstr Hstr_pos].
  set (vel := if det then Snare.velocity_of_strength str else 0%Z).
  assert (Hvelr : (0 <= vel <= 127)%Z).
  { subst vel. destruct det; [ apply snare_velocity_of_strength_range, Hstr | lia ]. }
  set (last_det := if det then t else Snare.last_detection_time st).
  set (decayed := if Qltb Snare.hold_time (t - last_det)
                  then (Snare.display_strength st * Snare.decay_rate,
                        py_int (inject_Z (Snare.display_velocity st) * Snare.decay_rate))
                  else (Snare.display_strength st, Snare.display_velocity st)).
  assert (Hdec : 0 <= fst decayed <= Snare.display_strength st
                 /\ (0 <= snd decayed <= Snare.display_velocity st)%Z).
  { subst decayed.
    destruct (Qltb Snare.hold_time (t - last_det)); cbn [fst snd].
    - unfold Snare.decay_rate. split; [ lra | ].
      apply decayed_velocity_range; [ lia | lra ].
    - split; [ lra | lia ]. }
  destruct decayed as [ds dv]. cbn [fst snd] in Hdec.
  destruct Hdec as [Hds Hdv].
  unfold snare_result_ok.
  destruct det eqn:Edet; cbn [andb].
  - specialize (Hstr_pos eq_refl). apply Qltb_lt in Hstr_pos as Hb. rewrite Hb.
    cbn [fst snd Snare.r_fundamental_flux Snare.r_body_flux Snare.r_snap_flux
         Snare.r_rattle_flux Snare.r_snare_strength
         Snare.r_snare_detected Snare.r_snare_velocity Snare.r_display_strength
         Snare.r_display_velocity Snare.display_strength Snare.display_velocity].
    split; [ constructor; cbn; assumption | ].
    repeat split; try assumption; try lra; try lia; try discriminate.
  - assert (Hz : forall s v, 0 <= s <= Snare.display_strength st ->
                 (0 <= v <= Snare.display_velocity st)%Z ->
                 let p := if Qltb s (5 # 100) then (0, 0%Z) else (s, v) in
                 0 <= fst p <= Snare.display_strength st
                 /\ (0 <= snd p <= Snare.display_velocity st)%Z
                 /\ (fst p = 0 \/ (5 # 100) <= fst p)
                 /\ (fst p = 0 -> snd p = 0%Z)).
    { intros s v Hs Hv. cbv zeta. case_Qltb s (5 # 100); cbn [fst snd].
      - split; [ lra | ]. split; [ lia | ].
        split; [ left; reflexivity | intros _; reflexivity ].
      - split; [ lra | ]. split; [ lia | ].
        split; [ right; exact Hcmp | ].
        intro H0. rewrite H0 in Hcmp. lra. }
    specialize (Hz ds dv Hds Hdv). cbv zeta in Hz.
    destruct (if Qltb ds (5 # 100) then (0, 0%Z) else (ds, dv)) as [ds' dv'].
    cbn [fst snd] in Hz. destruct Hz as (Hz1 & Hz2 & Hz3 & Hz4).
    cbn [fst snd Snare.r_fundamental_flux Snare.r_body_flux Snare.r_snap_flux
         Snare.r_rattle_flux Snare.r_snare_strength
         Snare.r_snare_detected Snare.r_snare_velocity Snare.r_display_strength
         Snare.r_display_velocity Snare.display_strength Snare.display_velocity].
    split; [ constructor; cbn; try assumption; try lra; lia | ].
    repeat split; try assumption; try lra; try lia; try discriminate.
Qed.

Lemma snare_ok_init (sr : Z) (sens : Q) : 0 <= sens -> snare_ok (Snare.init sr sens).
Proof.
  intro H. constructor; cbn; try assumption; try constructor; try lra; lia.
Qed.

Fixpoint snare_final (st : Snare.State) (frames : list (Q * list Q)) : Snare.State :=
  match frames with
  | [] => st
  | (t, m) :: rest => snare_final (fst (Snare.detect_snare_onset st t m)) rest
  end.

Lemma snare_run_ok (frames : list (Q * list Q)) (st : Snare.State) :
  snare_ok st ->
  Forall (fun tr => snare_result_ok (snd tr)) (Snare.run st frames)
  /\ snare_ok (snare_final st frames).
Proof.
  revert st. induction frames as [| [t m] rest IH]; intros st Hok;
    cbn [Snare.run snare_final].
  - split; [ constructor | exact Hok ].
  - pose proof (snare_step_ok st t m Hok) as Hstep.
    destruct (Snare.detect_snare_onset st t m) as [st' r].
    cbn [fst snd] in Hstep.
    destruct Hstep as (Hok' & Hr & _).
    destruct (IH st' Hok') as [IH1 IH2].
    split; [ | exact IH2 ].
    constructor; [ exact Hr | exact IH1 ].
Qed.

(** X3: a snare detector created with a non-negative sensitivity reports,
    on every frame of every run, four band fluxes that are not negative, a
    strength in [0, 1], a velocity in [0, 127] and displayed values in the
    same ranges; a detection has a positive strength which the display
    shows at once, and a frame without detection reports strength and
    velocity zero. *)
Theorem X3_snare_results_in_range (sr : Z) (sens : Q) (frames : list (Q * list Q)) :
  0 <= sens ->
  Forall (fun tr => snare_result_ok (snd tr)) (Snare.run (Snare.init sr sens) frames).
Proof.
  intro H. apply snare_run_ok, snare_ok_init, H.
Qed.

Lemma X3_snare_results_in_range_witness :
  0 <= 1
  /\ Forall (fun tr => snare_result_ok (snd tr))
            (Snare.run (Snare.init SAMPLE_RATE 1) onset_run).
Proof.
  split; [ lra | apply (X3_snare_results_in_range SAMPLE_RATE 1 onset_run); lra ].
Defined.

(** ** Spectra that do not rise *)

Lemma qsum_zero (l : list Q) : Forall (fun x => x == 0) l -> qsum l == 0.
Proof.
  induction 1 as [| x l Hx _ IH]; cbn; [ reflexivity | ].
  rewrite Hx, IH. reflexivity.
Qed.

(** No bin of the band rose: the flux of the band is zero. *)
Lemma positive_flux_zero (m p : list Q) (a b : nat) :
  Forall2 Qle m p -> Kick.positive_flux m p a b == 0.
Proof.
  intro H. unfold Kick.positive_flux, slice.
  apply qsum_zero, Forall_map.
  assert (H' : Forall2 Qle (take (b - a) (drop a m)) (take (b - a) (drop a p)))
    by (apply Forall2_take, Forall2_drop, H).
  induction H' as [| x y l l' Hxy _ IH]; cbn [combine]; constructor.
  - cbn [fst snd]. unfold pymax. case_Qltb 0 (x - y); [ lra | reflexivity ].
  - exact IH.
Qed.

Lemma kick_final_snoc (st : Kick.State) (frames : list (Q * list Q)) t m :
  kick_final st (frames ++ [(t, m)])
  = fst (Kick.detect_kick_onset (kick_final st frames) t m).
Proof.
  revert st. induction frames as [| [t' m'] rest IH]; intro st; cbn [app kick_final].
  - reflexivity.
  - apply IH.
Qed.

Lemma snare_final_snoc (st : Snare.State) (frames : list (Q * list Q)) t m :
  snare_final st (frames ++ [(t, m)])
  = fst (Snare.detect_snare_onset (snare_final st frames) t m).
Proof.
  revert st. induction frames as [| [t' m'] rest IH]; intro st; cbn [app snare_final].
  - reflexivity.
  - apply IH.
Qed.

(** The spectrum a frame leaves behind, and the sub-bass flux of the next. *)
Lemma kick_step_prev (st : Kick.State) (t : Q) (m : list Q) :
  Kick.prev_magnitude (fst (Kick.detect_kick_onset st t m)) = Some m
  /\ (forall p, Kick.prev_magnitude st = Some p ->
      Kick.r_sub_flux (snd (Kick.detect_kick_onset st t m))
      = Kick.positive_flux m p
          (Kick.band_bin (Kick.sample_rate st) (fst Kick.sub_bass_range) (length m))
          (Kick.band_bin (Kick.sample_rate st) (snd Kick.sub_bass_range) (length m))).
Proof.
  unfold Kick.detect_kick_onset.
  assert (H1 : forall p, Kick.prev_magnitude st = Some p ->
     snd (Kick.calculate_band_flux st m
       (Kick.band_bin (Kick.sample_rate st) (fst Kick.sub_bass_range) (length m))
       (Kick.band_bin (Kick.sample_rate st) (snd Kick.sub_bass_range) (length m))
       Kick.Sub)
     = Kick.positive_flux m p
       (Kick.band_bin (Kick.sample_rate st) (fst Kick.sub_bass_range) (length m))
       (Kick.band_bin (Kick.sample_rate st) (snd Kick.sub_bass_range) (length m))).
  { intros p Hp. unfold Kick.calculate_band_flux. rewrite Hp. reflexivity. }
  destruct (Kick.calculate_band_flux st m _ _ Kick.Sub) as [st1 f1].
  destruct (Kick.calculate_band_flux st1 m _ _ Kick.Body) as [st2 f2].
  destruct (Kick.calculate_band_flux st2 m _ _ Kick.Click) as [st3 f3].
  cbv zeta.
  match goal with
  | |- context [ if ?d && Qltb 0 ?s then (?a, ?b) else ?e ] =>
      destruct (if d && Qltb 0 s then (a, b) else e) as [ds dv]
  end.
  cbn [fst snd Kick.prev_magnitude Kick.set_prev_magnitude Kick.r_sub_flux] in *.
  split; [ reflexivity | exact H1 ].
Qed.

Lemma snare_step_prev (st : Snare.State) (t : Q) (m : list Q) :
  Snare.prev_magnitude (fst (Snare.detect_snare_onset st t m)) = Some m
  /\ (forall p, Snare.prev_magnitude st = Some p ->
      Snare.r_fundamental_flux (snd (Snare.detect_snare_onset st t m))
      = Kick.positive_flux m p
          (Kick.band_bin (Snare.sample_rate st) (fst Snare.snare_fundamental_range) (length m))
          (Kick.band_bin (Snare.sample_rate st) (snd Snare.snare_fundamental_range) (length m)))
  /\ (Snare.r_snare_detected (snd (Snare.detect_snare_onset st t m)) = true ->
      Snare.band_threshold (Snare.sensitivity st) (25 # 10)
        (Snare.fundamental_flux_history (fst (Snare.detect_snare_onset st t m)))
      < Snare.r_fundamental_flux (snd (Snare.detect_snare_onset st t m))).
Proof.
  unfold Snare.detect_snare_onset.
  assert (H1 : forall p, Snare.prev_magnitude st = Some p ->
     Snare.calculate_multi_band_flux (Snare.sample_rate st) (Snare.prev_magnitude st) m
     = Snare.calculate_multi_band_flux (Snare.sample_rate st) (Some p) m)
    by (intros p ->; reflexivity).
  destruct (Snare.calculate_multi_band_flux _ (Snare.prev_magnitude st) m)
    as [[[f1 f2] f3] f4].
  cbv zeta.
  match goal with
  | |- context [ if ?d && Qltb 0 ?s then (?a, ?b) else ?e ] =>
      destruct (if d && Qltb 0 s then (a, b) else e) as [ds dv]
  end.
  cbn [fst snd Snare.prev_magnitude Snare.r_fundamental_flux Snare.r_snare_detected
       Snare.fundamental_flux_history].
  split; [ reflexivity | ]. split.
  - intros p Hp. specialize (H1 p Hp).
    unfold Snare.calculate_multi_band_flux in H1. cbv beta zeta in H1.
    injection H1 as -> _ _ _. reflexivity.
  - rewrite !andb_true_iff, !Qltb_lt. tauto.
Qed.

(** X4: after any run of a detector with a non-negative sensitivity, a frame
    in which no bin is louder than in the frame before it is never reported
    as a kick nor as a snare: the sub-bass and the fundamental flux are
    zero and no adaptive threshold is negative. *)
Theorem X4_no_onset_without_rise (sr : Z) (sens : Q)
    (before : list (Q * list Q)) (t1 t2 : Q) (m1 m2 : list Q) :
  0 <= sens ->
  Forall2 Qle m2 m1 ->
  Kick.r_kick_detected
    (snd (Kick.detect_kick_onset
            (kick_final (Kick.init sr sens) (before ++ [(t1, m1)])) t2 m2)) = false
  /\ Snare.r_snare_detected
       (snd (Snare.detect_snare_onset
               (snare_final (Snare.init sr sens) (before ++ [(t1, m1)])) t2 m2)) = false.
Proof.
  intros Hsens Hle. split.
  - rewrite kick_final_snoc.
    set (st0 := kick_final (Kick.init sr sens) before).
    assert (Hok0 : kick_ok st0)
      by (apply (kick_run_ok before), kick_ok_init, Hsens).
    pose proof (kick_step_ok st0 t1 m1 Hok0) as (Hok1 & _).
    pose proof (kick_step_prev st0 t1 m1) as [Hp _].
    set (st1 := fst (Kick.detect_kick_onset st0 t1 m1)) in *.
    pose proof (kick_step_ok st1 t2 m2 Hok1) as (_ & _ & [Hthr _] & _).
    pose proof (kick_step_prev st1 t2 m2) as [_ Hflux].
    pose proof (kick_detect_fields st1 t2 m2) as [Hdet _].
    cbv zeta in Hthr, Hdet. rewrite Hdet.
    rewrite (Hflux m1 Hp).
    match goal with |- context [ Qltb ?a ?b && _ ] =>
      assert (Qltb a b = false) as -> end.
    { apply Qltb_ge. rewrite positive_flux_zero by exact Hle. exact Hthr. }
    apply andb_false_r.
  - rewrite snare_final_snoc.
    set (st0 := snare_final (Snare.init sr sens) before).
    assert (Hok0 : snare_ok st0)
      by (apply (snare_run_ok before), snare_ok_init, Hsens).
    pose proof (snare_step_ok st0 t1 m1 Hok0) as (Hok1 & _).
    pose proof (snare_step_prev st0 t1 m1) as [Hp _].
    set (st1 := fst (Snare.detect_snare_onset st0 t1 m1)) in *.
    pose proof (snare_step_ok st1 t2 m2 Hok1) as (Hok2 & _).
    pose proof (snare_step_prev st1 t2 m2) as (_ & Hflux & Hdet).
    destruct (Snare.r_snare_detected _); [ exfalso | reflexivity ].
    specialize (Hdet eq_refl). rewrite (Hflux m1 Hp) in Hdet.
    rewrite positive_flux_zero in Hdet by exact Hle.
    destruct Hok1 as [Hs _ _ _ _ _ _ _]. destruct Hok2 as [_ Hf _ _ _ _ _ _].
    pose proof (band_threshold_nonneg (Snare.sensitivity st1) (25 # 10) _ Hs
                  ltac:(lra) Hf) as Hthr.
    lra.
Qed.

Lemma X4_no_onset_without_rise_witness :
  0 <= 1 /\ Forall2 Qle [1; 2; 3] [1; 2; 3]
  /\ Kick.r_kick_detected
       (snd (Kick.detect_kick_onset
               (kick_final (Kick.init SAMPLE_RATE 1) ([] ++ [(0, [1; 2; 3])]))
               1 [1; 2; 3])) = false.
Proof.
  assert (H0 : 0 <= 1) by lra.
  assert (H1 : Forall2 Qle [1; 2; 3] [1; 2; 3]) by (repeat constructor; lra).
  split; [ exact H0 | ]. split; [ exact H1 | ].
  exact (proj1 (X4_no_onset_without_rise SAMPLE_RATE 1 [] 0 1 [1; 2; 3] [1; 2; 3] H0 H1)).
Defined.

(** ** Tempo estimates *)

(** Every tempo strictly between 52 and 188 BPM is less than 8 BPM away
    from one of the common tempi. *)
Lemma common_bpm_near (bpm : Q) :
  52 < bpm < 188 -> exists x, In x Groove.common_bpms /\ Qabs (x - bpm) < 8.
Proof.
  intros [Hlo Hhi].
  assert (Hnear : forall x, x - 8 < bpm < x + 8 -> Qabs (x - bpm) < 8).
  { intros x [H1 H2]. apply Qabs_Qlt_condition. split; lra. }
  unfold Groove.common_bpms.
  destruct (Qlt_le_dec bpm 65); [ exists 60; split; [ cbn; tauto | apply Hnear; lra ] | ].
  destruct (Qlt_le_dec bpm 75); [ exists 70; split; [ cbn; tauto | apply Hnear; lra ] | ].
  destruct (Qlt_le_dec bpm 85); [ exists 80; split; [ cbn; tauto | apply Hnear; lra ] | ].
  destruct (Qlt_le_dec bpm 95); [ exists 90; split; [ cbn; tauto | apply Hnear; lra ] | ].
  destruct (Qlt_le_dec bpm 105); [ exists 100; split; [ cbn; tauto | apply Hnear; lra ] | ].
  destruct (Qlt_le_dec bpm 115); [ exists 110; split; [ cbn; tauto | apply Hnear; lra ] | ].
  destruct (Qlt_le_dec bpm 125); [ exists 120; split; [ cbn; tauto | apply Hnear; lra ] | ].
  destruct (Qlt_le_dec bpm 135); [ exists 130; split; [ cbn; tauto | apply Hnear; lra ] | ].
  destruct (Qlt_le_dec bpm 145); [ exists 140; split; [ cbn; tauto | apply Hnear; lra ] | ].
  destruct (Qlt_le_dec bpm 155); [ exists 150; split; [ cbn; tauto | apply Hnear; lra ] | ].
  destruct (Qlt_le_dec bpm 165); [ exists 160; split; [ cbn; tauto | apply Hnear; lra ] | ].
  destruct (Qlt_le_dec bpm 175); [ exists 170; split; [ cbn; tauto | apply Hnear; lra ] | ].
  exists 180; split; [ cbn; tauto | apply Hnear; lra ].
Qed.

Lemma valid_intervals_range (intervals : list Q) :
  Forall (fun i => (2 # 10) <= i <= 2) (Groove.valid_intervals intervals).
Proof.
  apply Forall_forall. intros i Hi. apply valid_intervals_spec in Hi. tauto.
Qed.

(** X5: the tempo estimate is either 0 (too few usable intervals), or one
    of the common tempi 60, 70, ..., 180, or a raw tempo in [30, 52] or in
    [188, 300] BPM: no raw tempo strictly between 52 and 188 is ever
    returned. *)
Theorem X5_tempo_estimate_values (intervals : list Q) :
  let bpm := Groove.estimate_tempo_from_intervals intervals in
  bpm = 0
  \/ In bpm Groove.common_bpms
  \/ 30 <= bpm <= 52
  \/ 188 <= bpm <= 300.
Proof.
  unfold Groove.estimate_tempo_from_intervals.
  destruct (length intervals <? 3)%nat; [ left; reflexivity | ].
  destruct (length (Groove.valid_intervals intervals) <? 2)%nat eqn:Hlen;
    [ left; reflexivity | ].
  apply Nat.ltb_ge in Hlen. cbv zeta.
  set (valid := Groove.valid_intervals intervals) in *.
  assert (Hne : valid <> []) by (destruct valid; [ cbn in Hlen; lia | discriminate ]).
  pose proof (median_range (2 # 10) 2 valid Hne (valid_intervals_range intervals)) as Hm.
  set (bpm := 60 / median valid).
  assert (Hb : 30 <= bpm <= 300).
  { subst bpm. split.
    - apply Qle_shift_div_l; lra.
    - apply Qle_shift_div_r; lra. }
  destruct (closest_common_bpm_spec bpm) as [Hin Hmin].
  case_Qltb (Qabs (bpm - Groove.closest_common_bpm bpm)) 8.
  - right; left. exact Hin.
  - right; right.
    destruct (Qlt_le_dec 52 bpm) as [H52 | H52]; [ | left; lra ].
    destruct (Qlt_le_dec bpm 188) as [H188 | H188]; [ | right; lra ].
    exfalso.
    destruct (common_bpm_near bpm (conj H52 H188)) as (x & Hx & Hnear).
    specialize (Hmin x Hx).
    assert (Heq : Qabs (bpm - Groove.closest_common_bpm bpm)
                  == Qabs (Groove.closest_common_bpm bpm - bpm)).
    { rewrite <- Qabs_opp. apply Qabs_wd. ring. }
    rewrite Heq in Hcmp. lra.
Qed.

(** ** Voice types *)

Ltac classify_by_table :=
  unfold Classifier.classify_voice_type, Classifier.voice_ranges;
  cbn [Classifier.first_range];
  repeat match goal with
  | |- context [ Qleb ?a ?b ] =>
      let H := fresh "Hcmp" in
      destruct (Qleb a b) eqn:H;
      [ apply Qleb_le in H | apply Qleb_gt in H ]; try lra; cbn [andb]
  end;
  try reflexivity.

(** "unknown" is the answer for pitches that are not positive, and only
    for them. *)
Lemma voice_type_unknown_iff (pitch : Q) (formants : list Q) :
  Classifier.classify_voice_type pitch formants = Classifier.Unknown <-> pitch <= 0.
Proof.
  unfold Classifier.classify_voice_type. split.
  - case_Qleb pitch 0; [ intros _; exact Hcmp | ].
    destruct (Classifier.first_range pitch Classifier.voice_ranges) as [v |] eqn:Hr.
    + apply first_range_complete in Hr. intros ->.
      unfold Classifier.voice_ranges in Hr.
      repeat match goal with
      | H : first_match _ (_ :: _) _ |- _ => inversion H; subst; clear H
      | H : first_match _ [] _ |- _ => inversion H
      end.
    + destruct formants as [| f1 [| f2 rest]];
        unfold Classifier.fallback_by_pitch;
        repeat match goal with
        | |- context [ if ?b then _ else _ ] => destruct b
        end; discriminate.
  - intro H. apply Qleb_le in H. rewrite H. reflexivity.
Qed.

(** X6: the classifier answers "unknown" exactly when the pitch is not
    positive, and on the span of its table, 75 to 600 Hz, the answer
    depends on the pitch alone, whatever the formants: up to 165 Hz bass,
    up to 192 baritone, up to 246 tenor, up to 330 alto, up to 370
    mezzo-soprano, up to 440 soprano, above that child. *)
Theorem X6_voice_type_bands (pitch : Q) (formants : list Q) :
  (Classifier.classify_voice_type pitch formants = Classifier.Unknown <-> pitch <= 0)
  /\ (75 <= pitch <= 165 ->
      Classifier.classify_voice_type pitch formants = Classifier.Bass)
  /\ (165 < pitch <= 192 ->
      Classifier.classify_voice_type pitch formants = Classifier.Baritone)
  /\ (192 < pitch <= 246 ->
      Classifier.classify_voice_type pitch formants = Classifier.Tenor)
  /\ (246 < pitch <= 330 ->
      Classifier.classify_voice_type pitch formants = Classifier.Alto)
  /\ (330 < pitch <= 370 ->
      Classifier.classify_voice_type pitch formants = Classifier.MezzoSoprano)
  /\ (370 < pitch <= 440 ->
      Classifier.classify_voice_type pitch formants = Classifier.Soprano)
  /\ (440 < pitch <= 600 ->
      Classifier.classify_voice_type pitch formants = Classifier.Child).
Proof.
  split; [ apply voice_type_unknown_iff | ].
  repeat split; intros [Hlo Hhi]; classify_by_table.
Qed.

Lemma X6_voice_type_bands_witness :
  Classifier.classify_voice_type 180 [700; 1200] = Classifier.Baritone.
Proof.
  assert (H : 165 < 180 <= 192) by (split; [ reflexivity | discriminate ]).
  exact (proj1 (proj2 (proj2 (X6_voice_type_bands 180 [700; 1200]))) H).
Defined.

(** X7: outside the table the formants decide.  Below 75 Hz a pitch is
    called alto when the first two formants look female (F1 above 800 Hz
    or F2 above 2000 Hz, and not F1 below 600 with F2 below 1800), and
    bass otherwise; above 600 Hz it is called tenor when they look male
    (F1 below 600 and F2 below 1800), soprano when they look female, and
    child otherwise, in particular when fewer than two formants are
    known. *)
Theorem X7_voice_type_outside_table (pitch : Q) (formants : list Q) :
  let male := match formants with
              | f1 :: f2 :: _ => Qltb f1 600 && Qltb f2 1800
              | _ => false
              end in
  let female := match formants with
                | f1 :: f2 :: _ => negb (Qltb f1 600 && Qltb f2 1800)
                                   && (Qltb 800 f1 || Qltb 2000 f2)
                | _ => false
                end in
  (0 < pitch < 75 ->
   Classifier.classify_voice_type pitch formants
   = if female then Classifier.Alto else Classifier.Bass)
  /\ (600 < pitch ->
      Classifier.classify_voice_type pitch formants
      = if male then Classifier.Tenor
        else if female then Classifier.Soprano else Classifier.Child).
Proof.
  cbv zeta. split.
  - intros [Hlo Hhi]. classify_by_table.
    destruct formants as [| f1 [| f2 rest]];
      unfold Classifier.fallback_by_pitch;
      repeat match goal with
      | |- context [ Qltb pitch ?b ] =>
          let H := fresh "Hc" in
          destruct (Qltb pitch b) eqn:H;
          [ apply Qltb_lt in H | apply Qltb_ge in H ]; try lra
      | |- context [ Qltb ?b pitch ] =>
          let H := fresh "Hc" in
          destruct (Qltb b pitch) eqn:H;
          [ apply Qltb_lt in H | apply Qltb_ge in H ]; try lra
      end; try reflexivity.
    destruct (Qltb f1 600 && Qltb f2 1800); cbn [negb andb]; [ reflexivity | ].
    destruct (Qltb 800 f1 || Qltb 2000 f2); reflexivity.
  - intros Hlo. classify_by_table.
    destruct formants as [| f1 [| f2 rest]];
      unfold Classifier.fallback_by_pitch;
      repeat match goal with
      | |- context [ Qltb pitch ?b ] =>
          let H := fresh "Hc" in
          destruct (Qltb pitch b) eqn:H;
          [ apply Qltb_lt in H | apply Qltb_ge in H ]; try lra
      | |- context [ Qltb ?b pitch ] =>
          let H := fresh "Hc" in
          destruct (Qltb b pitch) eqn:H;
          [ apply Qltb_lt in H | apply Qltb_ge in H ]; try lra
      end; try reflexivity.
    destruct (Qltb f1 600 && Qltb f2 1800); cbn [negb andb]; [ reflexivity | ].
    destruct (Qltb 800 f1 || Qltb 2000 f2); reflexivity.
Qed.

Lemma X7_voice_type_outside_table_witness :
  Classifier.classify_voice_type 700 [500; 1500] = Classifier.Tenor.
Proof.
  assert (H : 600 < 700) by reflexivity.
  exact (proj2 (X7_voice_type_outside_table 700 [500; 1500]) H).
Defined.

(** ** The voice-activity decision *)

(** [vocal_probability] of [quick_vad_check]. *)
Definition vocal_probability (sp : Voice.VadSpectrum) : Q :=
  if Qltb (1 # 10000000000) (Voice.total_energy sp) then
    (Voice.vocal_core_energy sp / Voice.total_energy sp
     + Voice.high_freq_energy sp / Voice.total_energy sp * (5 # 10))
    * pymax (1 # 10) (1 - Voice.drum_bass_energy sp / Voice.total_energy sp * 2)
  else 0.

(** The first operand of the final [or]: energy, vocal characteristics and
    tonality together. *)
Definition traditional_criteria (rms_energy : Q) (sp : Voice.VadSpectrum) : bool :=
  Qltb Voice.vad_threshold rms_energy
  && Qltb (5 # 100) (vocal_probability sp)
  && Qltb (Voice.spectral_flatness sp) (8 # 10).

(** The second operand: the vocal core holds more than 2 % of the energy. *)
Definition has_vocal_energy (sp : Voice.VadSpectrum) : bool :=
  Qltb (Voice.total_energy sp * (2 # 100)) (Voice.vocal_core_energy sp).

(** X8: the third operand of the voice-activity decision, "the vocal core
    is more than 8 % of the total energy", never decides: it is evaluated
    only when the core is at most 2 % of the total, and is then false.
    The decision is true exactly when the traditional criteria hold or
    the core exceeds 2 % of the total energy, and whenever the total
    energy exceeds 1e-10 the decision is the disjunction of these two. *)
Theorem X8_vad_ratio_test_never_decides (rms_energy : Q) (sp : Voice.VadSpectrum) :
  (Voice.vad_decision rms_energy sp = Py.Return true
   <-> traditional_criteria rms_energy sp || has_vocal_energy sp = true)
  /\ (1 # 10000000000 < Voice.total_energy sp ->
      Voice.vad_decision rms_energy sp
      = Py.Return (traditional_criteria rms_energy sp || has_vocal_energy sp)).
Proof.
  assert (Hdead : 1 # 10000000000 < Voice.total_energy sp ->
                  has_vocal_energy sp = false ->
                  Qltb (8 # 100) (Voice.vocal_core_energy sp / Voice.total_energy sp)
                  = false).
  { intros Ht Hv. unfold has_vocal_energy in Hv. apply Qltb_ge in Hv.
    apply Qltb_ge. apply Qle_shift_div_r; lra. }
  unfold Voice.vad_decision. cbv zeta.
  fold (vocal_probability sp).
  fold (traditional_criteria rms_energy sp).
  fold (has_vocal_energy sp).
  destruct (traditional_criteria rms_energy sp) eqn:Ht; cbn [orb].
  - split; [ tauto | reflexivity ].
  - destruct (has_vocal_energy sp) eqn:Hv.
    + split; [ tauto | reflexivity ].
    + case_Qltb (1 # 10000000000) (Voice.total_energy sp).
      * rewrite (Hdead Hcmp eq_refl). split; [ | reflexivity ].
        split; discriminate.
      * split; [ split; discriminate | lra ].
Qed.

Lemma X8_vad_ratio_test_never_decides_witness :
  Voice.vad_decision 1 (Voice.mkVadSpectrum 1 0 0 100 1) = Py.Return false.
Proof.
  assert (H : 1 # 10000000000 < Voice.total_energy (Voice.mkVadSpectrum 1 0 0 100 1))
    by reflexivity.
  exact (proj2 (X8_vad_ratio_test_never_decides 1 (Voice.mkVadSpectrum 1 0 0 100 1)) H).
Defined.

(** ** Pitch results *)

Lemma pitch_at_voiced (diff autocorr : list Q) (tau : nat) f c cl :
  Voice.pitch_at diff autocorr tau = Some (f, c, cl) -> 0 < f -> 1 # 2 <= c.
Proof.
  unfold Voice.pitch_at.
  destruct ((0 <? tau)%nat && (tau <? length diff - 1)%nat); [ | discriminate ].
  cbv zeta.
  match goal with |- context [ Qltb ?a (Qabs ?d) ] => destruct (Qltb a (Qabs d)) end;
    [ | discriminate ].
  intros H Hf. injection H as Hf0 Hc _. subst c. rewrite Hf0.
  apply Qltb_lt in Hf. rewrite Hf.
  match goal with |- context [ pymax (pymax (4 # 10) ?r) (5 # 10) ] =>
    pose proof (pymax_ge_r (pymax (4 # 10) r) (5 # 10)) as H1;
    set (c1 := pymax (pymax (4 # 10) r) (5 # 10)) in * end.
  repeat match goal with
  | |- context [ if ?b then _ else _ ] => destruct b
  end; lra.
Qed.

Lemma search_pitch_voiced (diff autocorr : list Q) (threshold : Q)
    (count tau : nat) :
  let r := Voice.search_pitch diff autocorr threshold tau count in
  0 < fst (fst r) -> 1 # 2 <= snd (fst r).
Proof.
  cbv zeta. revert tau.
  induction count as [| count IH]; intro tau; cbn [Voice.search_pitch].
  - cbn. lra.
  - destruct (Qltb (nth tau diff 0) threshold); [ | apply IH ].
    destruct (Voice.pitch_at diff autocorr tau) as [[[f c] cl] |] eqn:E; [ | apply IH ].
    cbn [fst snd]. eapply pitch_at_voiced, E.
Qed.

Lemma find_pitch_in_range_voiced (diff autocorr : list Q) (rng : Q * Q)
    (threshold : Q) :
  let r := Voice.find_pitch_in_range diff autocorr rng threshold in
  0 < fst (fst r) -> 1 # 2 <= snd (fst r) <= 1.
Proof.
  unfold Voice.find_pitch_in_range. cbv zeta.
  match goal with |- context [ Voice.search_pitch ?d ?a ?t ?tau ?n ] =>
    pose proof (search_pitch_voiced d a t n tau) as H;
    destruct (Voice.search_pitch d a t tau n) as [[f c] cl] end.
  cbn [fst snd] in *. intro Hf. specialize (H Hf).
  split; [ apply pymin_glb; lra | apply pymin_le_l ].
Qed.

(** The confidence of a voiced result: halved at most once by the
    consistency check, it stays at 0.25 or above, out of reach of the
    final safety check. *)
Ltac voiced_confidence :=
  match goal with
  | |- _ <= (if Qltb ?c1 (2 # 10) then _ else _) <= _ =>
      let H := fresh "Hc1" in
      assert (H : 1 # 4 <= c1 <= 1)
        by (repeat match goal with
            | |- context [ if ?b then _ else _ ] => destruct b
            | |- context [ match ?l with [] => _ | _ :: _ => _ end ] => destruct l
            end; lra);
      let Hcmp := fresh "Hlow" in
      destruct (Qltb c1 (2 # 10)) eqn:Hcmp;
      [ apply Qltb_lt in Hcmp; lra | exact H ]
  end.

(** What [detect_pitch_yin] returns, and when it raises. *)
Lemma detect_pitch_yin_result
    (yin_autocorr : list Q -> Py.outcome (list Q)) (log2 : Q -> Q)
    (audio_frame autocorr : list Q) (st : Voice.State) :
  yin_autocorr audio_frame = Py.Return autocorr ->
  ((length audio_frame < 2)%nat ->
   Voice.detect_pitch_yin yin_autocorr log2 audio_frame st
   = (st, Py.Raise (Py.Exception "IndexError")))
  /\ ((2 <= length audio_frame)%nat ->
      exists p,
        Voice.detect_pitch_yin yin_autocorr log2 audio_frame st = (st, Py.Return p)
        /\ ((Voice.frequency p = 0 /\ Voice.confidence p = 0
             /\ Voice.clarity p = 0 /\ Voice.note p = None)
            \/ (0 < Voice.frequency p
                /\ 1 # 4 <= Voice.confidence p <= 1
                /\ Voice.note p = Voice.frequency_to_note log2 (Voice.frequency p)))).
Proof.
  intro Hac.
  unfold Voice.detect_pitch_yin, Voice.bind, Voice.lift, Voice.get_state, Voice.ret.
  rewrite Hac. unfold Voice.diff_function.
  split.
  - intro Hlen.
    assert ((length audio_frame / 2)%nat = 0%nat) as ->
      by (apply Nat.div_small; exact Hlen).
    reflexivity.
  - intro Hlen.
    destruct (length audio_frame / 2)%nat as [| n] eqn:Hdiv.
    { exfalso. apply Nat.div_small_iff in Hdiv; lia. }
    set (diff := 1 :: Voice.cmndf_from autocorr 1 n 0).
    pose proof (find_pitch_in_range_voiced diff autocorr Voice.f0_range (5 # 10)) as Hf.
    pose proof (find_pitch_in_range_voiced diff autocorr
                  Voice.f0_range_extended (6 # 10)) as He.
    cbv zeta in Hf, He.
    destruct (Voice.find_pitch_in_range diff autocorr Voice.f0_range (5 # 10))
      as [[ff fc] fcl].
    destruct (Voice.find_pitch_in_range diff autocorr Voice.f0_range_extended (6 # 10))
      as [[ef ec] ecl].
    cbn [fst snd] in Hf, He.
    case_Qltb 0 ff; case_Qltb 0 ef; rewrite ?andb_true_r, ?andb_false_r.
    + (* both ranges found a pitch *)
      specialize (Hf Hcmp). specialize (He Hcmp0).
      destruct (Qltb ec fc).
      * apply Qltb_lt in Hcmp as Hb. rewrite Hb. cbn [andb].
        eexists; split; [ reflexivity | ]. right.
        cbn [Voice.frequency Voice.confidence Voice.note].
        split; [ exact Hcmp | ]. split; [ | reflexivity ].
        voiced_confidence.
      * apply Qltb_lt in Hcmp0 as Hb. rewrite Hb. cbn [andb].
        eexists; split; [ reflexivity | ]. right.
        cbn [Voice.frequency Voice.confidence Voice.note].
        split; [ exact Hcmp0 | ]. split; [ | reflexivity ].
        voiced_confidence.
    + specialize (Hf Hcmp).
      destruct (Qltb ec fc).
      * apply Qltb_lt in Hcmp as Hb. rewrite Hb. cbn [andb].
        eexists; split; [ reflexivity | ]. right.
        cbn [Voice.frequency Voice.confidence Voice.note].
        split; [ exact Hcmp | ]. split; [ | reflexivity ].
        voiced_confidence.
      * assert (Hb : Qltb 0 0 = false) by reflexivity. rewrite Hb. cbn [andb].
        eexists; split; [ reflexivity | ]. left.
        cbn [Voice.frequency Voice.confidence Voice.note Voice.clarity].
        repeat split; reflexivity.
    + specialize (He Hcmp0).
      apply Qltb_lt in Hcmp0 as Hb. rewrite Hb. cbn [andb].
      eexists; split; [ reflexivity | ]. right.
      cbn [Voice.frequency Voice.confidence Voice.note].
      split; [ exact Hcmp0 | ]. split; [ | reflexivity ].
      voiced_confidence.
    + assert (Hb : Qltb 0 0 = false) by reflexivity. rewrite Hb. cbn [andb].
      eexists; split; [ reflexivity | ]. left.
      cbn [Voice.frequency Voice.confidence Voice.note Voice.clarity].
      repeat split; reflexivity.
Qed.

(** X9: when the autocorrelation is available, pitch detection raises an
    index error on a frame of fewer than two samples and returns
    otherwise, leaving the detector state alone.  The result is either
    unvoiced (frequency, confidence and clarity all 0, no note) or voiced
    with a positive frequency, its note name, and a confidence in
    [0.25, 1]: the final safety check for confidences below 0.2 never
    fires. *)
Theorem X9_pitch_result
    (yin_autocorr : list Q -> Py.outcome (list Q)) (log2 : Q -> Q)
    (audio_frame autocorr : list Q) (st : Voice.State) :
  yin_autocorr audio_frame = Py.Return autocorr ->
  ((length audio_frame < 2)%nat ->
   Voice.detect_pitch_yin yin_autocorr log2 audio_frame st
   = (st, Py.Raise (Py.Exception "IndexError")))
  /\ ((2 <= length audio_frame)%nat ->
      exists p,
        Voice.detect_pitch_yin yin_autocorr log2 audio_frame st = (st, Py.Return p)
        /\ ((Voice.frequency p = 0 /\ Voice.confidence p = 0
             /\ Voice.clarity p = 0 /\ Voice.note p = None)
            \/ (0 < Voice.frequency p
                /\ 1 # 4 <= Voice.confidence p <= 1
                /\ Voice.note p = Voice.frequency_to_note log2 (Voice.frequency p)))).
Proof.
  intro Hac.
  exact (detect_pitch_yin_result yin_autocorr log2 audio_frame autocorr st Hac).
Qed.

Lemma X9_pitch_result_witness :
  exists p,
    Voice.detect_pitch_yin (fun _ => Py.Return [1; 0]) (fun x => x) [1; 0; 1; 0] Voice.init
    = (Voice.init, Py.Return p).
Proof.
  assert (Hac : (fun _ : list Q => Py.Return [1; 0]) [1; 0; 1; 0] = Py.Return [1; 0])
    by reflexivity.
  assert (Hlen : (2 <= length [1; 0; 1; 0])%nat) by (cbn; lia).
  destruct (proj2 (X9_pitch_result (fun _ => Py.Return [1; 0]) (fun x => x)
                     [1; 0; 1; 0] [1; 0] Voice.init Hac) Hlen) as (p & Hp & _).
  exists p. exact Hp.
Defined.

(** ** How fast bars fall *)








(** ** The band mapping *)

Lemma linspace_length (start stop : Q) (num : nat) :
  length (BandMap.linspace start stop num) = num.
Proof.
  unfold BandMap.linspace. destruct num as [| [| n]]; [ reflexivity .. | ].
  cbv zeta. rewrite length_map, length_seq. reflexivity.
Qed.

Lemma removelast_length {A} (l : list A) : length (removelast l) = (length l - 1)%nat.
Proof.
  induction l as [| x [| y l] IH]; [ reflexivity .. | ].
  cbn [removelast length] in *. rewrite IH. lia.
Qed.

Lemma bands_of_length (fs : list Q) :
  length (BandMap.bands_of fs) = (length fs - 1)%nat.
Proof.
  induction fs as [| a [| b fs] IH]; [ reflexivity .. | ].
  cbn [BandMap.bands_of length] in *. rewrite IH. lia.
Qed.

Lemma py_int_below (x : Q) : 0 <= x -> (0 <= py_int x)%Z /\ inject_Z (py_int x) <= x.
Proof.
  intro H. rewrite py_int_floor by exact H. split.
  - pose proof (Qfloor_resp_le _ _ H) as H0. exact H0.
  - apply Qfloor_le.
Qed.

Lemma all_freqs_length (log10 pow10 : Q -> Q) (bars : nat) :
  length (BandMap.all_freqs log10 pow10 bars) = S bars.
Proof.
  unfold BandMap.all_freqs. cbv zeta.
  assert (Hb : 0 <= inject_Z (Z.of_nat bars)).
  { change 0 with (inject_Z 0). rewrite <- Zle_Qle. lia. }
  destruct (py_int_below (inject_Z (Z.of_nat bars) * (6 # 10)) ltac:(nra)) as [Hl0 Hl1].
  destruct (py_int_below (inject_Z (Z.of_nat bars) * (3 # 10)) ltac:(nra)) as [Hm0 Hm1].
  set (low := py_int (inject_Z (Z.of_nat bars) * (6 # 10))) in *.
  set (mid := py_int (inject_Z (Z.of_nat bars) * (3 # 10))) in *.
  assert (Hlq : 0 <= inject_Z low).
  { change 0 with (inject_Z 0). rewrite <- Zle_Qle. exact Hl0. }
  destruct (py_int_below (inject_Z low * (4 # 10)) ltac:(nra)) as [Hs0 Hs1].
  set (sub := py_int (inject_Z low * (4 # 10))) in *.
  assert (Hsum : (low + mid <= Z.of_nat bars)%Z).
  { rewrite Zle_Qle, inject_Z_plus. nra. }
  assert (Hsub : (sub <= low)%Z).
  { rewrite Zle_Qle. nra. }
  rewrite !length_app, !removelast_length.
  unfold BandMap.logspace. rewrite !length_map, !linspace_length. lia.
Qed.

Lemma filter_StronglySorted {A} (R : A -> A -> Prop) (f : A -> bool) (l : list A) :
  StronglySorted R l -> StronglySorted R (List.filter f l).
Proof.
  induction 1 as [| x l Hl IH Hx]; cbn [List.filter]; [ constructor | ].
  destruct (f x); [ | exact IH ].
  constructor; [ exact IH | ].
  apply Forall_forall. intros y Hy. apply filter_In in Hy as [Hy _].
  rewrite Forall_forall in Hx. apply Hx, Hy.
Qed.

Lemma seq_StronglySorted (a n : nat) : StronglySorted lt (seq a n).
Proof.
  revert a. induction n as [| n IH]; intro a; cbn [seq]; constructor.
  - apply IH.
  - apply Forall_forall. intros y Hy. apply in_seq in Hy. lia.
Qed.

Lemma argmin_from_bound (l : list Q) (i best_i : nat) (best : Q) :
  (best_i < i)%nat -> (BandMap.argmin_from l i best_i best < i + length l)%nat.
Proof.
  revert i best_i best. induction l as [| x l IH]; intros i best_i best Hb;
    cbn [BandMap.argmin_from length].
  - lia.
  - destruct (Qltb x best).
    + specialize (IH (S i) i x ltac:(lia)). lia.
    + specialize (IH (S i) best_i best ltac:(lia)). lia.
Qed.

Lemma argmin_bound (l : list Q) : l <> [] -> (BandMap.argmin l < length l)%nat.
Proof.
  destruct l as [| x l]; [ congruence | intros _ ].
  cbn [BandMap.argmin length].
  pose proof (argmin_from_bound l 1 0 x ltac:(lia)). lia.
Qed.

Lemma n_bins_val : BandMap.n_bins = 1025%nat.
Proof. vm_compute. reflexivity. Qed.

(** A band of the mapping: at least one bin, bins of the spectrum only, in
    increasing order. *)
Definition band_ok (indices : list nat) : Prop :=
  indices <> []
  /\ Forall (fun k => (k < BandMap.n_bins)%nat) indices
  /\ StronglySorted lt indices.

Lemma band_of_ok (low_freq high_freq : Q) : band_ok (BandMap.band_of low_freq high_freq).
Proof.
  unfold band_ok, BandMap.band_of, BandMap.bins_between, BandMap.freqs.
  assert (Hn : (0 < BandMap.n_bins)%nat) by (rewrite n_bins_val; lia).
  generalize dependent BandMap.n_bins. intros n Hn.
  set (inside := fun k => Qleb low_freq (Bars.freqs k) && Qleb (Bars.freqs k) high_freq).
  assert (Hb : Forall (fun k => (k < n)%nat) (List.filter inside (seq 0 n))).
  { apply Forall_forall. intros k Hk.
    apply filter_In in Hk as [Hk _]. apply in_seq in Hk. lia. }
  assert (Hs : StronglySorted lt (List.filter inside (seq 0 n)))
    by apply filter_StronglySorted, seq_StronglySorted.
  destruct (List.filter inside (seq 0 n)) as [| k ks].
  - split; [ discriminate | ]. split.
    + constructor; [ | constructor ].
      match goal with |- (BandMap.argmin ?l < _)%nat =>
        assert (Hne : l <> []); [ | pose proof (argmin_bound l Hne) as Ha ] end.
      { intro H. apply (f_equal (@length Q)) in H.
        rewrite !length_map, length_seq in H. cbn [length] in H. lia. }
      rewrite !length_map, length_seq in Ha. exact Ha.
    + constructor; [ constructor | constructor ].
  - split; [ discriminate | ]. split; assumption.
Qed.

Lemma bands_of_ok (fs : list Q) : Forall band_ok (BandMap.bands_of fs).
Proof.
  induction fs as [| a [| b fs] IH]; cbn [BandMap.bands_of]; try constructor.
  - apply band_of_ok.
  - exact IH.
Qed.

Lemma freqs_mono (j k : nat) : (j <= k)%nat -> Bars.freqs j <= Bars.freqs k.
Proof.
  intro H. unfold Bars.freqs, SAMPLE_RATE, FFT_SIZE.
  assert (inject_Z (Z.of_nat j) <= inject_Z (Z.of_nat k)) by (rewrite <- Zle_Qle; lia).
  apply Qle_shift_div_l; [ reflexivity | ].
  field_simplify. lra.
Qed.

Lemma last_sorted (k0 : nat) (rest : list nat) :
  StronglySorted lt (k0 :: rest) -> Forall (fun k => (k < BandMap.n_bins)%nat) (k0 :: rest) ->
  (k0 <= List.last rest k0 < BandMap.n_bins)%nat.
Proof.
  intros Hs Hb.
  assert (Hin : In (List.last rest k0) (k0 :: rest)).
  { clear Hs Hb. induction rest as [| r [| r' rest] IH].
    - left; reflexivity.
    - right; left; reflexivity.
    - change (List.last (r :: r' :: rest) k0) with (List.last (r' :: rest) k0).
      destruct IH as [IH | IH]; [ left; exact IH | right; right; exact IH ]. }
  rewrite Forall_forall in Hb. split; [ | apply Hb, Hin ].
  destruct Hin as [<- | Hin]; [ lia | ].
  inversion Hs as [| ? ? _ Hlt]; subst. rewrite Forall_forall in Hlt.
  specialize (Hlt _ Hin). lia.
Qed.

(** X11: for every number of bars, the band mapping has exactly that many
    bands; every band holds at least one FFT bin, only bins of the
    spectrum (0 .. 1024), in increasing order.  Hence every bar has a
    frequency range with 0 <= low <= high <= 24000 Hz, and the mean of a
    bar is never taken over an empty set. *)
Theorem X11_band_mapping (log10 pow10 : Q -> Q) (bars : nat) :
  let band_indices := BandMap.create_band_mapping log10 pow10 bars in
  length band_indices = bars
  /\ Forall band_ok band_indices
  /\ forall i, (i < bars)%nat ->
       let r := Bars.get_frequency_range_for_bar band_indices i in
       0 <= fst r /\ fst r <= snd r /\ snd r <= 24000.
Proof.
  cbv zeta. unfold BandMap.create_band_mapping.
  pose proof (bands_of_length (BandMap.all_freqs log10 pow10 bars)) as Hlen.
  rewrite all_freqs_length in Hlen.
  pose proof (bands_of_ok (BandMap.all_freqs log10 pow10 bars)) as Hok.
  set (bi := BandMap.bands_of (BandMap.all_freqs log10 pow10 bars)) in *.
  split; [ lia | ]. split; [ exact Hok | ].
  intros i Hi. unfold Bars.get_frequency_range_for_bar.
  destruct (nth_error bi i) as [ix |] eqn:Hnth.
  - rewrite Forall_forall in Hok.
    destruct (Hok ix (nth_error_In _ _ Hnth)) as (Hne & Hb & Hs).
    destruct ix as [| k0 rest]; [ congruence | ].
    destruct (last_sorted k0 rest Hs Hb) as [H1 H2].
    cbn [fst snd]. split; [ | split ].
    + apply (Qle_trans _ (Bars.freqs 0)); [ vm_compute; discriminate | ].
      apply freqs_mono. lia.
    + apply freqs_mono, H1.
    + apply (Qle_trans _ (Bars.freqs 1024)).
      * apply freqs_mono. rewrite n_bins_val in H2. lia.
      * vm_compute. discriminate.
  - apply nth_error_None in Hnth. lia.
Qed.

(** ** Groove patterns *)

(** The names [match_groove_pattern] can pick: "unknown" and every
    pattern but the last, "rock_basic", whose grid repeats "backbeat". *)
Definition live_patterns : list string :=
  ["unknown"; "four_four_basic"; "backbeat"; "shuffle"; "latin_clave";
   "breakbeat"; "drum_and_bass"; "reggae"].

Definition confidence_ok (c : Q) : Prop := c = 0 \/ (5 # 8 <= c /\ c <= 1).

Lemma matches_range (grid pattern : list Z) :
  (0 <= GrooveAnalyzer.matches grid pattern <= 16)%Z.
Proof.
  unfold GrooveAnalyzer.matches.
  pose proof (filter_length_le
                (fun i => (nth i grid 0 =? nth i pattern 0)%Z) (seq 0 16)) as H.
  rewrite length_seq in H. lia.
Qed.

(** A score is a number of sixteenths: above 0.6 it is at least 10/16. *)
Lemma score_above (grid pattern : list Z) :
  6 # 10 < GrooveAnalyzer.score grid pattern ->
  5 # 8 <= GrooveAnalyzer.score grid pattern <= 1.
Proof.
  unfold GrooveAnalyzer.score. pose proof (matches_range grid pattern) as Hm.
  set (m := GrooveAnalyzer.matches grid pattern) in *. intro H.
  assert (H1 : (96 # 10) < inject_Z m).
  { destruct (Qlt_le_dec (96 # 10) (inject_Z m)) as [Hlt | Hle]; [ exact Hlt | ].
    exfalso. assert (inject_Z m / 16 <= 6 # 10)
      by (apply Qle_shift_div_r; [ reflexivity | lra ]).
    lra. }
  assert (H2 : (10 <= m)%Z).
  { unfold Qlt in H1. cbn in H1. lia. }
  assert (H3 : inject_Z 10 <= inject_Z m) by (rewrite <- Zle_Qle; exact H2).
  assert (H4 : inject_Z m <= inject_Z 16) by (rewrite <- Zle_Qle; lia).
  split.
  - apply Qle_shift_div_l; [ reflexivity | ]. change (inject_Z 10) with 10 in H3. lra.
  - apply Qle_shift_div_r; [ reflexivity | ]. change (inject_Z 16) with 16 in H4. lra.
Qed.

(** The comparison loop: the best score only grows, the winner is the
    initial one or a pattern that scored above 0.6, and no pattern seen
    scores both above the best and above 0.6. *)
Lemma compare_fold (grid : list Z) (ps : list (string * list Z)) (best : string * Q) :
  let r := fold_left (GrooveAnalyzer.compare_pattern grid) ps best in
  snd best <= snd r
  /\ (r = best
      \/ (In (fst r) (map fst ps) /\ 6 # 10 < snd r
          /\ exists e, In e ps /\ snd r = GrooveAnalyzer.score grid (snd e)))
  /\ (forall e, In e ps ->
        Qltb (snd r) (GrooveAnalyzer.score grid (snd e))
        && Qltb (6 # 10) (GrooveAnalyzer.score grid (snd e)) = false).
Proof.
  cbv zeta. revert best. induction ps as [| e ps IH]; intro best; cbn [fold_left].
  - split; [ lra | ]. split; [ left; reflexivity | intros e [] ].
  - destruct (IH (GrooveAnalyzer.compare_pattern grid best e)) as (Hmono & Hwin & Hmax).
    set (r := fold_left (GrooveAnalyzer.compare_pattern grid) ps
                (GrooveAnalyzer.compare_pattern grid best e)) in *.
    unfold GrooveAnalyzer.compare_pattern in Hmono, Hwin. cbv zeta in Hmono, Hwin.
    destruct (Qltb (snd best) (GrooveAnalyzer.score grid (snd e))) eqn:H1;
      destruct (Qltb (6 # 10) (GrooveAnalyzer.score grid (snd e))) eqn:H2;
      cbn [andb fst snd] in Hmono, Hwin.
    + apply Qltb_lt in H1, H2.
      split; [ lra | ]. split.
      * right. destruct Hwin as [-> | (Hin & Hs & e' & He' & Hsc)]; cbn [fst snd map].
        -- split; [ left; reflexivity | ]. split; [ exact H2 | ].
           exists e. split; [ left; reflexivity | reflexivity ].
        -- split; [ right; exact Hin | ]. split; [ exact Hs | ].
           exists e'. split; [ right; exact He' | exact Hsc ].
      * intros e' [<- | He']; [ | apply Hmax, He' ].
        apply andb_false_iff. left. apply Qltb_ge. exact Hmono.
    + split; [ exact Hmono | ]. split.
      * destruct Hwin as [-> | (Hin & Hs & e' & He' & Hsc)]; [ left; reflexivity | ].
        right. split; [ right; exact Hin | ]. split; [ exact Hs | ].
        exists e'. split; [ right; exact He' | exact Hsc ].
      * intros e' [<- | He']; [ | apply Hmax, He' ].
        rewrite H2. apply andb_false_r.
    + apply Qltb_ge in H1.
      split; [ exact Hmono | ]. split.
      * destruct Hwin as [-> | (Hin & Hs & e' & He' & Hsc)]; [ left; reflexivity | ].
        right. split; [ right; exact Hin | ]. split; [ exact Hs | ].
        exists e'. split; [ right; exact He' | exact Hsc ].
      * intros e' [<- | He']; [ | apply Hmax, He' ].
        apply andb_false_iff. left. apply Qltb_ge. lra.
    + split; [ exact Hmono | ]. split.
      * destruct Hwin as [-> | (Hin & Hs & e' & He' & Hsc)]; [ left; reflexivity | ].
        right. split; [ right; exact Hin | ]. split; [ exact Hs | ].
        exists e'. split; [ right; exact He' | exact Hsc ].
      * intros e' [<- | He']; [ | apply Hmax, He' ].
        rewrite H2. apply andb_false_r.
Qed.

(** The winner of the comparison over the whole library: never
    "rock_basic", and "unknown" with score 0 or a pattern with a score of
    at least 10/16. *)
Lemma best_pattern (grid : list Z) :
  let r := fold_left (GrooveAnalyzer.compare_pattern grid)
             GrooveAnalyzer.groove_patterns ("unknown", 0) in
  In (fst r) live_patterns
  /\ confidence_ok (snd r)
  /\ (fst r = "unknown" <-> snd r = 0).
Proof.
  cbv zeta.
  set (front := removelast GrooveAnalyzer.groove_patterns).
  set (rock := ("rock_basic",
                [1; 0; 1; 0; 1; 0; 1; 0; 1; 0; 1; 0; 1; 0; 1; 0]%Z)).
  change GrooveAnalyzer.groove_patterns with (front ++ [rock]).
  rewrite fold_left_app. cbn [fold_left].
  destruct (compare_fold grid front ("unknown", 0)) as (_ & Hwin & Hmax).
  cbv zeta in Hwin, Hmax.
  set (r := fold_left (GrooveAnalyzer.compare_pattern grid) front ("unknown", 0)) in *.
  assert (Hstay : GrooveAnalyzer.compare_pattern grid r rock = r).
  { unfold GrooveAnalyzer.compare_pattern. cbv zeta.
    specialize (Hmax ("backbeat", snd rock)). cbn [snd] in Hmax.
    rewrite Hmax; [ reflexivity | ].
    subst front rock. cbn. tauto. }
  rewrite Hstay.
  destruct Hwin as [-> | (Hin & Hs & e & He & Hsc)]; cbn [fst snd].
  - split; [ left; reflexivity | ]. split; [ left; reflexivity | tauto ].
  - split; [ right; exact Hin | ]. split.
    + right. rewrite Hsc in Hs |- *. apply score_above, Hs.
    + split.
      * intro Hu. exfalso. rewrite Hu in Hin. subst front. cbn in Hin.
        repeat destruct Hin as [Hin | Hin]; try discriminate. exact Hin.
      * intro H0. rewrite H0 in Hs. discriminate.
Qed.

(** A tempo estimate is 0 or within 30 .. 300 BPM. *)
Lemma estimate_tempo_range (intervals : list Q) :
  let bpm := Groove.estimate_tempo_from_intervals intervals in
  bpm = 0 \/ 30 <= bpm <= 300.
Proof.
  unfold Groove.estimate_tempo_from_intervals.
  destruct (length intervals <? 3)%nat; [ left; reflexivity | ].
  destruct (length (Groove.valid_intervals intervals) <? 2)%nat eqn:Hlen;
    [ left; reflexivity | ].
  apply Nat.ltb_ge in Hlen. cbv zeta. right.
  set (valid := Groove.valid_intervals intervals) in *.
  assert (Hne : valid <> []) by (destruct valid; [ cbn in Hlen; lia | discriminate ]).
  pose proof (median_range (2 # 10) 2 valid Hne (valid_intervals_range intervals)) as Hm.
  destruct (closest_common_bpm_spec (60 / median valid)) as [Hin _].
  set (c := Groove.closest_common_bpm (60 / median valid)) in *.
  assert (Hc : 30 <= c <= 300).
  { clearbody c. unfold Groove.common_bpms in Hin. cbn [In] in Hin.
    repeat (destruct Hin as [Hin | Hin];
            [ rewrite <- Hin; split; vm_compute; discriminate | ]).
    destruct Hin. }
  destruct (Qltb (Qabs (60 / median valid - c)) 8).
  - exact Hc.
  - split.
    + apply Qle_shift_div_l; lra.
    + apply Qle_shift_div_r; lra.
Qed.

(** The invariant of a groove analyzer in use. *)
Record groove_ok (st : GrooveAnalyzer.State) : Prop := {
  groove_ok_grid : (length (GrooveAnalyzer.beat_grid st) <= 64)%nat;
  groove_ok_candidates :
    Forall (fun b => 30 <= b <= 300) (GrooveAnalyzer.tempo_candidates st);
  groove_ok_candidates_len : (length (GrooveAnalyzer.tempo_candidates st) <= 16)%nat;
  groove_ok_kick_len : (length (GrooveAnalyzer.kick_intervals st) <= 8)%nat;
  groove_ok_snare_len : (length (GrooveAnalyzer.snare_intervals st) <= 8)%nat;
  groove_ok_pattern : In (GrooveAnalyzer.current_pattern st) live_patterns;
  groove_ok_confidence : confidence_ok (GrooveAnalyzer.pattern_confidence st)
}.

Lemma groove_ok_init : groove_ok GrooveAnalyzer.init.
Proof.
  constructor; cbn; try lia; try constructor; try tauto.
Qed.

(** What holds of every result of a groove analyzer in use. *)
Definition groove_result_ok (r : GrooveAnalyzer.Result) : Prop :=
  In (GrooveAnalyzer.r_groove_pattern r)
     ("insufficient_data" :: "no_tempo" :: live_patterns)
  /\ confidence_ok (GrooveAnalyzer.r_pattern_confidence r)
  /\ (GrooveAnalyzer.r_active_beats r <= 64)%nat.

Lemma match_groove_pattern_ok (st : GrooveAnalyzer.State) (t : Q)
    (recent_hits : list (Q * string)) :
  groove_ok st ->
  let st' := fst (GrooveAnalyzer.match_groove_pattern st t recent_hits) in
  let name := snd (GrooveAnalyzer.match_groove_pattern st t recent_hits) in
  groove_ok st'
  /\ In name ("insufficient_data" :: "no_tempo" :: live_patterns)
  /\ GrooveAnalyzer.beat_grid st' = GrooveAnalyzer.beat_grid st.
Proof.
  intro Hok. unfold GrooveAnalyzer.match_groove_pattern.
  destruct (length recent_hits <? 8)%nat; cbn [fst snd].
  { split; [ exact Hok | ]. split; [ left; reflexivity | reflexivity ]. }
  destruct (Qltb _ GrooveAnalyzer.pattern_lock_duration); cbn [fst snd].
  { split; [ exact Hok | ]. split; [ | reflexivity ].
    right; right. apply Hok. }
  destruct (Qltb 60 (GrooveAnalyzer.stable_bpm st)); cbn [fst snd].
  2:{ split; [ exact Hok | ]. split; [ right; left; reflexivity | reflexivity ]. }
  cbv zeta.
  match goal with |- context [ fold_left (GrooveAnalyzer.compare_pattern ?g) _ _ ] =>
    pose proof (best_pattern g) as Hbest; cbv zeta in Hbest;
    destruct (fold_left (GrooveAnalyzer.compare_pattern g) _ _) as [best_match best_score]
  end.
  cbn [fst snd] in Hbest. destruct Hbest as (Hname & Hconf & _).
  destruct Hok as [H1 H2 H3 H4 H5 H6 H7].
  cbn [fst snd].
  split; [ | split; [ right; right; exact Hname | ] ].
  - destruct (Qltb (8 # 10) best_score); constructor; cbn; assumption.
  - destruct (Qltb (8 # 10) best_score); reflexivity.
Qed.

Section GrooveRuns.

Variable exp : Q -> Q.
Variable std : list Q -> Q.

Lemma analyze_groove_ok (st : GrooveAnalyzer.State) (inp : GrooveAnalyzer.Input) :
  groove_ok st ->
  groove_ok (fst (GrooveAnalyzer.analyze_groove exp std st inp))
  /\ groove_result_ok (snd (GrooveAnalyzer.analyze_groove exp std st inp)).
Proof.
  intro Hok. unfold GrooveAnalyzer.analyze_groove. cbv zeta.
  assert (Hk : groove_ok (GrooveAnalyzer.track_kick inp st)).
  { unfold GrooveAnalyzer.track_kick. destruct (GrooveAnalyzer.i_kick_detected inp);
      [ | exact Hok ].
    destruct Hok as [H1 H2 H3 H4 H5 H6 H7]. constructor; cbn; try assumption.
    - rewrite deque_append_length. lia.
    - destruct (Qltb 0 (GrooveAnalyzer.last_kick_time st)); [ | assumption ].
      rewrite deque_append_length. lia. }
  set (st1 := GrooveAnalyzer.track_kick inp st) in *.
  assert (Hs : groove_ok (GrooveAnalyzer.track_snare inp st1)).
  { unfold GrooveAnalyzer.track_snare. destruct (GrooveAnalyzer.i_snare_detected inp);
      [ | exact Hk ].
    destruct Hk as [H1 H2 H3 H4 H5 H6 H7]. constructor; cbn; try assumption.
    - rewrite deque_append_length. lia.
    - destruct (Qltb 0 (GrooveAnalyzer.last_snare_time st1)); [ | assumption ].
      rewrite deque_append_length. lia. }
  set (st2 := GrooveAnalyzer.track_snare inp st1) in *.
  assert (Ht : groove_ok (GrooveAnalyzer.update_tempo exp std st2)).
  { unfold GrooveAnalyzer.update_tempo. cbv zeta.
    destruct (3 <=? length _)%nat; [ | exact Hs ].
    destruct Hs as [H1 H2 H3 H4 H5 H6 H7].
    set (est := Groove.estimate_tempo_from_intervals
                  (GrooveAnalyzer.kick_intervals st2 ++ GrooveAnalyzer.snare_intervals st2)).
    pose proof (estimate_tempo_range
                  (GrooveAnalyzer.kick_intervals st2 ++ GrooveAnalyzer.snare_intervals st2))
      as Hest. cbv zeta in Hest. fold est in Hest.
    set (cands := if Qltb 0 est
                  then deque_append 16 est (GrooveAnalyzer.tempo_candidates st2)
                  else GrooveAnalyzer.tempo_candidates st2).
    assert (Hc : Forall (fun b => 30 <= b <= 300) cands /\ (length cands <= 16)%nat).
    { subst cands. case_Qltb 0 est; [ | split; assumption ]. split.
      - apply deque_append_Forall; [ assumption | ].
        destruct Hest as [H0 | Hr]; [ rewrite H0 in Hcmp; lra | exact Hr ].
      - rewrite deque_append_length. lia. }
    destruct Hc as [Hc1 Hc2].
    destruct (if (4 <=? length cands)%nat then _ else _) as [bpm stability].
    constructor; cbn; assumption. }
  set (st3 := GrooveAnalyzer.update_tempo exp std st2) in *.
  match goal with |- context [ GrooveAnalyzer.match_groove_pattern st3 ?t ?h ] =>
    pose proof (match_groove_pattern_ok st3 t h Ht) as Hm; cbv zeta in Hm;
    destruct (GrooveAnalyzer.match_groove_pattern st3 t h) as [st4 name]
  end.
  cbn [fst snd] in Hm. destruct Hm as (Hok4 & Hname & Hgrid).
  destruct Hok4 as [H1 H2 H3 H4 H5 H6 H7].
  cbn [fst snd]. split.
  - constructor; cbn; assumption.
  - unfold groove_result_ok. cbn. split; [ | split; assumption ].
    cbn in Hname. exact Hname.
Qed.

Lemma groove_run_ok (inputs : list GrooveAnalyzer.Input) (st : GrooveAnalyzer.State) :
  groove_ok st ->
  Forall groove_result_ok (GrooveAnalyzer.run exp std st inputs)
  /\ groove_ok (GrooveAnalyzer.final exp std st inputs).
Proof.
  revert st. induction inputs as [| inp rest IH]; intros st Hok;
    cbn [GrooveAnalyzer.run GrooveAnalyzer.final].
  - split; [ constructor | exact Hok ].
  - pose proof (analyze_groove_ok st inp Hok) as [Hok' Hr].
    destruct (GrooveAnalyzer.analyze_groove exp std st inp) as [st' r].
    cbn [fst snd] in *. destruct (IH st' Hok') as [IH1 IH2].
    split; [ constructor; assumption | exact IH2 ].
Qed.

End GrooveRuns.

(** X12: over every run of the groove analyzer from its initial state,
    whatever the detections, the clock readings and the values of
    [np.exp] and [np.std]: the reported groove pattern is never
    "rock_basic" (its grid repeats that of "backbeat", which is compared
    first, and only a strictly better score replaces the best match); the
    pattern confidence is 0 or at least 10/16 and at most 1; at most 64
    beats are active; and the state keeps at most 16 tempo candidates,
    each within 30 .. 300 BPM. *)
Theorem X12_groove_results (exp : Q -> Q) (std : list Q -> Q)
    (inputs : list GrooveAnalyzer.Input) :
  Forall (fun r =>
            GrooveAnalyzer.r_groove_pattern r <> "rock_basic"
            /\ In (GrooveAnalyzer.r_groove_pattern r)
                  ["insufficient_data"; "no_tempo"; "unknown"; "four_four_basic";
                   "backbeat"; "shuffle"; "latin_clave"; "breakbeat";
                   "drum_and_bass"; "reggae"]
            /\ (GrooveAnalyzer.r_pattern_confidence r = 0
                \/ 5 # 8 <= GrooveAnalyzer.r_pattern_confidence r <= 1)
            /\ (GrooveAnalyzer.r_active_beats r <= 64)%nat)
         (GrooveAnalyzer.run exp std GrooveAnalyzer.init inputs)
  /\ (let st := GrooveAnalyzer.final exp std GrooveAnalyzer.init inputs in
      (length (GrooveAnalyzer.tempo_candidates st) <= 16)%nat
      /\ Forall (fun b => 30 <= b <= 300) (GrooveAnalyzer.tempo_candidates st)).
Proof.
  destruct (groove_run_ok exp std inputs GrooveAnalyzer.init groove_ok_init)
    as [Hres Hfin].
  split.
  - eapply Forall_impl; [ | exact Hres ].
    intros r (Hname & Hconf & Hbeats).
    split; [ | split; [ exact Hname | split; [ exact Hconf | exact Hbeats ] ] ].
    intro Heq. rewrite Heq in Hname. cbn in Hname.
    repeat destruct Hname as [Hname | Hname]; try discriminate. exact Hname.
  - cbv zeta. destruct Hfin as [_ H2 H3 _ _ _ _]. split; assumption.
Qed.

(** ** The drum detector as a whole *)

Lemma recent_intervals_range (times : list Q) :
  Forall (fun i => 3 # 10 < i < 2) (DrumDetector.recent_intervals times).
Proof.
  induction times as [| a [| b rest] IH]; cbn [DrumDetector.recent_intervals];
    try constructor.
  cbv zeta. case_Qltb (3 # 10) (b - a); cbn [andb]; [ | exact IH ].
  case_Qltb (b - a) 2; [ | exact IH ].
  constructor; [ split; assumption | exact IH ].
Qed.

Lemma qsum_bounds (a b : Q) (l : list Q) :
  Forall (fun x => a < x < b) l ->
  a * inject_Z (Z.of_nat (length l)) <= qsum l
  /\ qsum l <= b * inject_Z (Z.of_nat (length l))
  /\ (l <> [] -> a * inject_Z (Z.of_nat (length l)) < qsum l
                 /\ qsum l < b * inject_Z (Z.of_nat (length l))).
Proof.
  induction 1 as [| x l [Hx1 Hx2] _ (IH1 & IH2 & _)].
  - cbn [length qsum fold_right]. change (inject_Z (Z.of_nat 0)) with 0.
    split; [ lra | ]. split; [ lra | congruence ].
  - cbn [length qsum fold_right]. fold (qsum l).
    rewrite Nat2Z.inj_succ, <- Z.add_1_r, inject_Z_plus.
    change (inject_Z 1) with 1.
    set (n := inject_Z (Z.of_nat (length l))) in *.
    split; [ lra | ]. split; [ lra | ]. intros _. split; lra.
Qed.

(** The mean of values strictly between two bounds lies strictly between
    them. *)
Lemma mean_range (a b : Q) (l : list Q) :
  l <> [] -> Forall (fun x => a < x < b) l -> a < DrumDetector.mean l < b.
Proof.
  intros Hne Hl. destruct (qsum_bounds a b l Hl) as (_ & _ & Hs).
  destruct (Hs Hne) as [H1 H2]. unfold DrumDetector.mean.
  assert (Hn : 0 < inject_Z (Z.of_nat (length l))).
  { change 0 with (inject_Z 0). rewrite <- Zlt_Qlt.
    destruct l; [ congruence | cbn [length]; lia ]. }
  split.
  - apply Qlt_shift_div_l; [ exact Hn | exact H1 ].
  - apply Qlt_shift_div_r; [ exact Hn | exact H2 ].
Qed.

Definition legacy_ok (bpm : Q) : Prop := bpm = 0 \/ 30 < bpm < 200.

Lemma legacy_bpm_ok (times : list Q) (bpm : Q) :
  legacy_ok bpm -> legacy_ok (DrumDetector.legacy_bpm times bpm).
Proof.
  intro Hb. unfold DrumDetector.legacy_bpm.
  destruct (2 <=? length times)%nat; [ | exact Hb ].
  pose proof (recent_intervals_range times) as Hr.
  destruct (DrumDetector.recent_intervals times) as [| i more]; [ exact Hb | ].
  right.
  destruct (mean_range (3 # 10) 2 (i :: more) ltac:(discriminate) Hr) as [H1 H2].
  split.
  - apply Qlt_shift_div_l; lra.
  - apply Qlt_shift_div_r; lra.
Qed.

(** The invariant of a drum detector in use. *)
Record drum_ok (st : DrumDetector.State) : Prop := {
  drum_ok_kick : kick_ok (DrumDetector.kick_detector st);
  drum_ok_snare : snare_ok (DrumDetector.snare_detector st);
  drum_ok_groove : groove_ok (DrumDetector.groove_analyzer st);
  drum_ok_times : (length (DrumDetector.kick_times st) <= 8)%nat;
  drum_ok_bpm : legacy_ok (DrumDetector.current_bpm st);
  drum_ok_history : (length (DrumDetector.pattern_history st) <= 32)%nat
}.

Lemma drum_ok_init (sr : Z) (sens : Q) : 0 <= sens -> drum_ok (DrumDetector.init sr sens).
Proof.
  intro H. constructor; cbn.
  - apply kick_ok_init, H.
  - apply snare_ok_init, H.
  - apply groove_ok_init.
  - lia.
  - left; reflexivity.
  - lia.
Qed.

(** What holds of every result of a drum detector in use. *)
Definition drum_result_ok (r : DrumDetector.Result) : Prop :=
  kick_result_ok (DrumDetector.r_kick r)
  /\ snare_result_ok (DrumDetector.r_snare r)
  /\ groove_result_ok (DrumDetector.r_groove r)
  /\ 0 <= DrumDetector.r_beat_strength r <= 1
  /\ (DrumDetector.r_beat_detected r = true <-> 0 < DrumDetector.r_beat_strength r)
  /\ (DrumDetector.r_simultaneous_hit r = true ->
      0 < Kick.r_kick_strength (DrumDetector.r_kick r)
      /\ 0 < Snare.r_snare_strength (DrumDetector.r_snare r))
  /\ (DrumDetector.r_pattern_length r <= 32)%nat.

Section DrumRuns.

Variable exp : Q -> Q.
Variable std : list Q -> Q.

Lemma process_audio_ok (st : DrumDetector.State) (clk : DrumDetector.Clock)
    (fft_data : list Q) :
  drum_ok st ->
  drum_ok (fst (DrumDetector.process_audio exp std st clk fft_data))
  /\ drum_result_ok (snd (DrumDetector.process_audio exp std st clk fft_data)).
Proof.
  intros [Hk Hs Hg Ht Hb Hh]. unfold DrumDetector.process_audio.
  pose proof (kick_run_ok [(DrumDetector.c_kick clk, fft_data)]
                (DrumDetector.kick_detector st) Hk) as [Hkr Hk'].
  cbn [Kick.run kick_final] in Hkr, Hk'.
  destruct (Kick.detect_kick_onset _ _ fft_data) as [kick_st kick_info].
  cbn [fst] in Hk'. apply Forall_inv in Hkr. cbn [snd] in Hkr.
  pose proof (snare_run_ok [(DrumDetector.c_snare clk, fft_data)]
                (DrumDetector.snare_detector st) Hs) as [Hsr Hs'].
  cbn [Snare.run snare_final] in Hsr, Hs'.
  destruct (Snare.detect_snare_onset _ _ fft_data) as [snare_st snare_info].
  cbn [fst] in Hs'. apply Forall_inv in Hsr. cbn [snd] in Hsr.
  match goal with |- context [ GrooveAnalyzer.analyze_groove exp std ?g ?i ] =>
    pose proof (analyze_groove_ok exp std g i Hg) as [Hg' Hgr];
    destruct (GrooveAnalyzer.analyze_groove exp std g i) as [groove_st groove_info]
  end.
  cbn [fst snd] in Hg', Hgr. cbv zeta. cbn [fst snd].
  set (kd := Kick.r_kick_detected kick_info) in *.
  set (sd := Snare.r_snare_detected snare_info) in *.
  assert (Hhist : forall (b : bool) (x : string * Q * Z) (h : list (string * Q * Z)),
             (length h <= 32)%nat ->
             (length (if b then deque_append 32 x h else h) <= 32)%nat).
  { intros b x h Hlen. destruct b; [ rewrite deque_append_length; lia | exact Hlen ]. }
  split.
  - constructor; cbn; try assumption.
    + destruct kd; [ rewrite deque_append_length; lia | exact Ht ].
    + destruct kd; [ apply legacy_bpm_ok, Hb | exact Hb ].
    + apply Hhist, Hhist, Hh.
  - unfold drum_result_ok. cbn.
    split; [ exact Hkr | ]. split; [ exact Hsr | ]. split; [ exact Hgr | ].
    destruct Hkr as (_ & _ & Hks & _ & _ & _ & Hkd & Hku).
    destruct Hsr as (_ & Hss & _ & _ & _ & Hsd & Hsu).
    fold kd in Hkd, Hku. fold sd in Hsd, Hsu.
    set (ks := Kick.r_kick_strength kick_info) in *.
    set (ss := Snare.r_snare_strength snare_info) in *.
    destruct (pymax_spec ks ss) as [[Hlt Hmax] | [Hge Hmax]]; rewrite Hmax.
    + split; [ lra | ]. split.
      * split.
        -- intros _. lra.
        -- intros Hpos. destruct sd; [ apply orb_true_r | ].
           destruct (Hsu eq_refl) as [H0 _]. rewrite H0 in Hpos. lra.
      * split; [ | apply Hhist, Hhist, Hh ].
        intro Hboth. apply andb_true_iff in Hboth as [Hkt Hst].
        split; [ apply Hkd, Hkt | apply Hsd, Hst ].
    + split; [ lra | ]. split.
      * split.
        -- intros Hdet. apply orb_true_iff in Hdet as [Hkt | Hst].
           ++ apply Hkd, Hkt.
           ++ destruct (Hsd Hst) as [Hpos _]. lra.
        -- intros Hpos. destruct kd; [ reflexivity | ].
           destruct (Hku eq_refl) as [H0 _]. rewrite H0 in Hpos. lra.
      * split; [ | apply Hhist, Hhist, Hh ].
        intro Hboth. apply andb_true_iff in Hboth as [Hkt Hst].
        split; [ apply Hkd, Hkt | apply Hsd, Hst ].
Qed.

Lemma drum_run_ok (frames : list (DrumDetector.Clock * list Q))
    (st : DrumDetector.State) :
  drum_ok st ->
  Forall drum_result_ok (DrumDetector.run exp std st frames)
  /\ drum_ok (DrumDetector.final exp std st frames).
Proof.
  revert st. induction frames as [| [clk fft_data] rest IH]; intros st Hok;
    cbn [DrumDetector.run DrumDetector.final].
  - split; [ constructor | exact Hok ].
  - pose proof (process_audio_ok st clk fft_data Hok) as [Hok' Hr].
    destruct (DrumDetector.process_audio exp std st clk fft_data) as [st' r].
    cbn [fst snd] in *. destruct (IH st' Hok') as [IH1 IH2].
    split; [ constructor; assumption | exact IH2 ].
Qed.

End DrumRuns.

(** X13: over every run of the drum detector created with a non-negative
    sensitivity, whatever the spectra and the clock readings: the kick,
    snare and groove parts of every result are within their ranges; the
    beat strength is in [0, 1] and is positive exactly on the frames that
    report a beat; a simultaneous hit has a positive kick and a positive
    snare strength; the pattern length never exceeds 32; and the legacy
    tempo of the state is 0 or strictly between 30 and 200 BPM, since only
    kick intervals strictly between 0.3 and 2.0 seconds are averaged. *)
Theorem X13_drum_results (exp : Q -> Q) (std : list Q -> Q) (sr : Z) (sens : Q)
    (frames : list (DrumDetector.Clock * list Q)) :
  0 <= sens ->
  Forall drum_result_ok (DrumDetector.run exp std (DrumDetector.init sr sens) frames)
  /\ (let bpm := DrumDetector.current_bpm
                   (DrumDetector.final exp std (DrumDetector.init sr sens) frames) in
      bpm = 0 \/ 30 < bpm < 200).
Proof.
  intro Hs.
  destruct (drum_run_ok exp std frames (DrumDetector.init sr sens)
              (drum_ok_init sr sens Hs)) as [Hres Hfin].
  split; [ exact Hres | ]. cbv zeta. apply Hfin.
Qed.

Lemma X13_drum_results_witness :
  Forall drum_result_ok
    (DrumDetector.run (fun _ => 1) (fun _ => 0) (DrumDetector.init SAMPLE_RATE 1)
       [(DrumDetector.mkClock 1 1 1 1 1, [1; 2; 3])]).
Proof.
  assert (H : 0 <= 1) by lra.
  exact (proj1 (X13_drum_results (fun _ => 1) (fun _ => 0) SAMPLE_RATE 1
                  [(DrumDetector.mkClock 1 1 1 1 1, [1; 2; 3])] H)).
Defined.

(** ** The voice detector over runs *)

(** *** Invariants in the method monad *)

(** [keeps I c R]: from a state satisfying [I], the computation [c] ends
    in a state satisfying [I], whether it returns or raises, and a value
    it returns satisfies [R]. *)
Definition keeps {A} (Inv : Voice.State -> Prop) (c : Voice.M A) (R : A -> Prop) : Prop :=
  forall st, Inv st ->
    Inv (fst (c st))
    /\ match snd (c st) with
       | Py.Return a => R a
       | Py.Raise _ => True
       end.

Lemma keeps_ret {A} Inv (a : A) (R : A -> Prop) : R a -> keeps Inv (Voice.ret a) R.
Proof. intros H st Hst. split; [ exact Hst | exact H ]. Qed.

Lemma keeps_bind {A B} Inv (c : Voice.M A) (k : A -> Voice.M B)
    (R : A -> Prop) (Q : B -> Prop) :
  keeps Inv c R -> (forall a, R a -> keeps Inv (k a) Q) -> keeps Inv (Voice.bind c k) Q.
Proof.
  intros Hc Hk st Hst. unfold Voice.bind. destruct (Hc st Hst) as [Hi Hr].
  destruct (c st) as [st' [a | e]]; cbn [fst snd] in *.
  - apply (Hk a Hr st' Hi).
  - split; [ exact Hi | exact I ].
Qed.

Lemma keeps_lift {A} Inv (o : Py.outcome A) (R : A -> Prop) :
  match o with Py.Return a => R a | Py.Raise _ => True end ->
  keeps Inv (Voice.lift o) R.
Proof. intros H st Hst. split; [ exact Hst | exact H ]. Qed.

Lemma keeps_modify Inv (f : Voice.State -> Voice.State) (R : unit -> Prop) :
  (forall st, Inv st -> Inv (f st)) -> R tt -> keeps Inv (Voice.modify f) R.
Proof. intros Hf H st Hst. split; [ apply Hf, Hst | exact H ]. Qed.

Lemma keeps_get_state (Inv R : Voice.State -> Prop) :
  (forall st, Inv st -> R st) -> keeps Inv Voice.get_state R.
Proof. intros H st Hst. split; [ exact Hst | apply H, Hst ]. Qed.

(** A computation that only reads the state. *)
Lemma keeps_readonly {A} Inv (c : Voice.M A) (R : A -> Prop) :
  (forall st, fst (c st) = st) -> post c R -> keeps Inv c R.
Proof.
  intros Hro Hp st Hst. rewrite Hro. split; [ exact Hst | apply Hp ].
Qed.

(** With a handler the computation returns. *)
Lemma keeps_try_except {A} Inv (c : Voice.M A) (handler : A) (R : A -> Prop) :
  keeps Inv c R -> R handler ->
  forall st, Inv st ->
    exists st' a, Voice.try_except c handler st = (st', Py.Return a) /\ Inv st' /\ R a.
Proof.
  intros Hc Hh st Hst. unfold Voice.try_except. destruct (Hc st Hst) as [Hi Hr].
  destruct (c st) as [st' [a | e]]; cbn [fst snd] in *; eauto.
Qed.

Lemma keeps_try_except_keeps {A} Inv (c : Voice.M A) (handler : A) (R : A -> Prop) :
  keeps Inv c R -> R handler -> keeps Inv (Voice.try_except c handler) R.
Proof.
  intros Hc Hh st Hst.
  destruct (keeps_try_except Inv c handler R Hc Hh st Hst) as (st' & a & -> & Hi & Ha).
  split; assumption.
Qed.

(** *** The state of a detector in use *)

Record voice_ok (st : Voice.State) : Prop := {
  voice_ok_counter : (0 <= Voice.vad_counter st <= 12)%Z;
  voice_ok_energy_len : (length (Voice.vocal_energy_history st) <= 10)%nat;
  voice_ok_pitch : Forall (fun p => 0 < p) (Voice.pitch_history st);
  voice_ok_pitch_len : (length (Voice.pitch_history st) <= 30)%nat;
  voice_ok_hnr : Forall (fun h => 0 <= h <= 40) (Voice.hnr_history st);
  voice_ok_hnr_len : (length (Voice.hnr_history st) <= 15)%nat;
  voice_ok_spectral_len : (length (Voice.spectral_features_history st) <= 10)%nat
}.

(** The invariant, with the number of calls made so far. *)
Definition voice_inv (n : Z) (st : Voice.State) : Prop :=
  voice_ok st /\ Voice.frame_counter st = n.

Lemma voice_inv_init : voice_inv 0 Voice.init.
Proof. split; [ constructor; cbn; try constructor; lia | reflexivity ]. Qed.

Lemma voice_inv_incr (n : Z) (st : Voice.State) :
  voice_inv n st -> voice_inv (n + 1) (Voice.incr_frame_counter st).
Proof.
  intros [[H1 H2 H3 H4 H5 H6 H7] Hn]. split; [ constructor; assumption | ].
  cbn. rewrite Hn. reflexivity.
Qed.

Lemma voice_inv_push_pitch (n : Z) (x : Q) (st : Voice.State) :
  0 < x -> voice_inv n st -> voice_inv n (Voice.push_pitch x st).
Proof.
  intros Hx [[H1 H2 H3 H4 H5 H6 H7] Hn]. split; [ | exact Hn ].
  constructor; cbn; try assumption.
  - apply deque_append_Forall; assumption.
  - rewrite deque_append_length. lia.
Qed.

Lemma voice_inv_push_hnr (n : Z) (x : Q) (st : Voice.State) :
  0 <= x <= 40 -> voice_inv n st -> voice_inv n (Voice.push_hnr x st).
Proof.
  intros Hx [[H1 H2 H3 H4 H5 H6 H7] Hn]. split; [ | exact Hn ].
  constructor; cbn; try assumption.
  - apply deque_append_Forall; assumption.
  - rewrite deque_append_length. lia.
Qed.

Lemma voice_inv_push_spectral (n : Z) (x : gmap string Py.atom) (st : Voice.State) :
  voice_inv n st -> voice_inv n (Voice.push_spectral x st).
Proof.
  intros [[H1 H2 H3 H4 H5 H6 H7] Hn]. split; [ | exact Hn ].
  constructor; cbn; try assumption.
  rewrite deque_append_length. lia.
Qed.

Lemma hangover_range (b : bool) (c : Z) :
  (0 <= c <= 12)%Z -> (0 <= fst (Voice.hangover b c) <= 12)%Z.
Proof.
  intro Hc. unfold Voice.hangover, Voice.vad_hangover.
  destruct b; cbn [fst]; [ lia | ].
  destruct (0 <? c)%Z eqn:E; cbn [fst]; [ apply Z.ltb_lt in E | ]; lia.
Qed.

Lemma quick_vad_check_keeps (n : Z) (rms : Q) (sp : Voice.VadSpectrum) :
  keeps (voice_inv n) (Voice.quick_vad_check rms sp) (fun _ => True).
Proof.
  intros st [[H1 H2 H3 H4 H5 H6 H7] Hn]. rewrite quick_vad_check_eq. cbv zeta.
  destruct (Voice.vad_decision rms sp) as [b | e]; cbn [fst snd].
  - split; [ | exact I ]. split; [ | exact Hn ].
    constructor; cbn; try assumption.
    + apply hangover_range, H1.
    + rewrite deque_append_length. lia.
  - split; [ | exact I ]. split; [ | exact Hn ].
    constructor; cbn; try assumption.
    rewrite deque_append_length. lia.
Qed.

(** *** Parts of the detailed analysis *)

Lemma voice_type_name_unknown (v : Classifier.voice_type) :
  Classifier.voice_type_name v = "unknown" <-> v = Classifier.Unknown.
Proof. destruct v; cbn; split; intro H; try discriminate; reflexivity. Qed.

(** With a detected pitch the voice confidence is at least 0.3. *)
Lemma calculate_voice_confidence_floor (results : gmap string Py.value) :
  0 < Py.get_float results "pitch" 0 ->
  3 # 10 <= Voice.calculate_voice_confidence results <= 1.
Proof.
  intro Hp. split; [ | apply calculate_voice_confidence_range ].
  unfold Voice.calculate_voice_confidence. cbv zeta.
  apply Qltb_lt in Hp. rewrite Hp.
  destruct (Voice.confidence_factors results) as [| p fw]; [ lra | ].
  apply pymin_glb; [ lra | ].
  match goal with |- _ <= pymax ?c (3 # 10) => pose proof (pymax_ge_r c (3 # 10)) end.
  lra.
Qed.

Definition pitch_dichotomy (log2 : Q -> Q) (p : Voice.PitchInfo) : Prop :=
  (Voice.frequency p = 0 /\ Voice.confidence p = 0
   /\ Voice.clarity p = 0 /\ Voice.note p = None)
  \/ (0 < Voice.frequency p
      /\ 1 # 4 <= Voice.confidence p <= 1
      /\ Voice.note p = Voice.frequency_to_note log2 (Voice.frequency p)).

Lemma detect_pitch_yin_cases
    (yin_autocorr : list Q -> Py.outcome (list Q)) (log2 : Q -> Q)
    (audio_frame : list Q) (st : Voice.State) :
  fst (Voice.detect_pitch_yin yin_autocorr log2 audio_frame st) = st
  /\ match snd (Voice.detect_pitch_yin yin_autocorr log2 audio_frame st) with
     | Py.Return p => pitch_dichotomy log2 p
     | Py.Raise _ => True
     end.
Proof.
  destruct (yin_autocorr audio_frame) as [autocorr | e] eqn:Hac.
  - destruct (detect_pitch_yin_result yin_autocorr log2 audio_frame autocorr st Hac)
      as [Hshort Hlong].
    destruct (Nat.lt_ge_cases (length audio_frame) 2) as [Hl | Hl].
    + rewrite (Hshort Hl). split; [ reflexivity | exact I ].
    + destruct (Hlong Hl) as (p & -> & Hd). split; [ reflexivity | exact Hd ].
  - unfold Voice.detect_pitch_yin, Voice.bind, Voice.lift. rewrite Hac.
    split; [ reflexivity | exact I ].
Qed.

(** *** Coherent results *)

(** The fields of a result that reports voice: a pitch that is not
    negative, a voice confidence of at least 0.3 when a pitch was found,
    and a voice type that is "unknown" exactly when no pitch was found. *)
Definition active_fields (r : gmap string Py.value) : Prop :=
  exists (pitch vc : Q) (vt : string),
    r !! "has_voice" = Some (Py.VBool true)
    /\ r !! "pitch" = Some (Py.VFloat pitch)
    /\ r !! "voice_confidence" = Some (Py.VFloat vc)
    /\ r !! "voice_type" = Some (Py.VStr vt)
    /\ 0 <= pitch
    /\ (0 < pitch -> 3 # 10 <= vc <= 1)
    /\ (vt = "unknown" <-> pitch = 0).

(** A result either reports voice, with coherent fields, or is the
    inactive result: no pitch, no confidence, no formants, voice type
    "unknown", whatever was analysed before. *)
Definition voice_result_coherent (r : gmap string Py.value) : Prop :=
  active_fields r \/ exists rms, r = inactive_result rms.

Lemma detailed_defaults_no_energy (b : bool) :
  Voice.detailed_defaults b !! "vocal_energy" = None.
Proof.
  unfold Voice.detailed_defaults.
  rewrite !lookup_insert_ne by discriminate. apply lookup_empty.
Qed.

(** Merging the handler's dictionary of the detailed analysis gives the
    inactive result. *)
Lemma update_detailed_defaults (rms : Q) :
  Py.update (<["vocal_energy" := Py.VFloat rms]> Voice.realtime_defaults)
            (Voice.detailed_defaults false)
  = inactive_result rms.
Proof.
  unfold Py.update, inactive_result. apply map_subseteq_union.
  unfold Voice.realtime_defaults. rewrite insert_insert_eq.
  apply insert_subseteq, detailed_defaults_no_energy.
Qed.

Lemma realtime_defaults_inactive : Voice.realtime_defaults = inactive_result 0.
Proof.
  unfold inactive_result, Voice.realtime_defaults. rewrite insert_insert_eq. reflexivity.
Qed.

(** Merging a detailed result that reports voice keeps its fields. *)
Lemma update_active (results detailed : gmap string Py.value) :
  active_fields detailed -> active_fields (Py.update results detailed).
Proof.
  intros (pitch & vc & vt & Hv & Hp & Hc & Ht & Hrest).
  exists pitch, vc, vt. unfold Py.update.
  rewrite (lookup_union_Some_l detailed results _ _ Hv),
          (lookup_union_Some_l detailed results _ _ Hp),
          (lookup_union_Some_l detailed results _ _ Hc),
          (lookup_union_Some_l detailed results _ _ Ht).
  auto 10.
Qed.

Section VoiceRuns.

Variable frame_rms : list Q -> Q.
Variable vad_spectrum : list Q -> Voice.VadSpectrum.
Variable yin_autocorr : list Q -> Py.outcome (list Q).
Variable log2 : Q -> Q.
Variable log10 : Q -> Q.
Variable lpc_roots : list Q -> Py.outcome (list (Q * Q)).
Variable hnr_energies : list Q -> Q -> Py.outcome (Q * Q).
Variable spectral_measure : list Q -> Py.outcome Voice.SpectralMeasure.
Variable vibrato_measure : list Q -> Py.outcome Voice.VibratoMeasure.

(** What the detailed analysis has written before the confidence. *)
Definition analysed (f : Q) (formants : list Q) (r : gmap string Py.value) : Prop :=
  r !! "has_voice" = Some (Py.VBool true)
  /\ r !! "pitch" = Some (Py.VFloat f)
  /\ r !! "voice_type"
     = Some (Py.VStr (Classifier.voice_type_name
                        (Classifier.classify_voice_type f formants))).

Lemma analysed_insert (f : Q) (formants : list Q) (r : gmap string Py.value)
    (k : string) (v : Py.value) :
  k <> "has_voice" -> k <> "pitch" -> k <> "voice_type" ->
  analysed f formants r -> analysed f formants (<[k := v]> r).
Proof.
  intros H1 H2 H3 (Hv & Hp & Ht). unfold analysed.
  rewrite !lookup_insert_ne by congruence. auto.
Qed.

Lemma analysed_active (f : Q) (formants : list Q) (r : gmap string Py.value) (vc : Q) :
  f = 0 \/ 0 < f ->
  (0 < f -> 3 # 10 <= vc <= 1) ->
  analysed f formants r ->
  active_fields (<["voice_confidence" := Py.VFloat vc]> r).
Proof.
  intros Hf Hvc (Hv & Hp & Ht).
  exists f, vc,
    (Classifier.voice_type_name (Classifier.classify_voice_type f formants)).
  rewrite lookup_insert_eq, !lookup_insert_ne by discriminate.
  repeat split; try assumption.
  - destruct Hf as [-> | Hf]; lra.
  - apply Hvc; assumption.
  - apply Hvc; assumption.
  - intro Hu. apply voice_type_name_unknown, voice_type_unknown_iff in Hu.
    destruct Hf as [Hf | Hf]; [ exact Hf | lra ].
  - intros ->. apply voice_type_name_unknown, voice_type_unknown_iff. lra.
Qed.

Lemma detailed_voice_analysis_body_keeps (n : Z) (audio_frame : list Q) :
  keeps (voice_inv n)
        (Voice.detailed_voice_analysis_body yin_autocorr log2 log10 lpc_roots
           hnr_energies spectral_measure vibrato_measure audio_frame)
        active_fields.
Proof.
  unfold Voice.detailed_voice_analysis_body.
  eapply keeps_bind.
  { instantiate (1 := pitch_dichotomy log2).
    intros st Hst.
    destruct (detect_pitch_yin_cases yin_autocorr log2 audio_frame st) as [-> Hd].
    split; assumption. }
  intros pitch_info Hd. cbv zeta.
  assert (Hf : Voice.frequency pitch_info = 0 \/ 0 < Voice.frequency pitch_info).
  { destruct Hd as [(H0 & _) | (Hpos & _)]; [ left | right ]; assumption. }
  eapply (keeps_bind _ _ _ (fun _ => True)).
  { case_Qltb 0 (Voice.frequency pitch_info).
    - apply keeps_modify; [ | exact I ].
      intros st Hst. apply voice_inv_push_pitch; assumption.
    - apply keeps_ret. exact I. }
  intros _ _.
  eapply (keeps_bind _ _ _ (fun _ => True));
    [ apply keeps_lift; destruct (Voice.analyze_formants_lpc _ _); exact I | ].
  intros formants _. cbv beta.
  eapply keeps_bind; [ apply keeps_lift, calculate_hnr_range | ].
  intros hnr Hhnr. cbv beta.
  eapply (keeps_bind _ _ _ (fun _ => True)).
  { apply keeps_modify; [ | exact I ].
    intros st Hst. apply voice_inv_push_hnr; assumption. }
  intros _ _.
  eapply (keeps_bind _ _ _ (fun _ => True));
    [ apply keeps_lift; destruct (Voice.extract_spectral_features _ _); exact I | ].
  intros features _.
  eapply (keeps_bind _ _ _ (fun _ => True)).
  { apply keeps_modify; [ | exact I ].
    intros st Hst. apply voice_inv_push_spectral; assumption. }
  intros _ _.
  eapply (keeps_bind _ _ _ (fun _ => True)); [ apply keeps_get_state; intros; exact I | ].
  intros st _.
  match goal with
  | |- context [ <["voice_type" := ?v]> ?r ] =>
      assert (Han : analysed (Voice.frequency pitch_info) formants
                      (<["voice_type" := v]> r))
  end.
  { unfold analysed, Voice.detailed_defaults.
    rewrite lookup_insert_eq, !lookup_insert_ne by discriminate.
    rewrite lookup_insert_eq, !lookup_insert_ne by discriminate.
    rewrite lookup_insert_eq. auto. }
  eapply keeps_bind.
  - instantiate (1 := analysed (Voice.frequency pitch_info) formants).
    destruct (15 <=? length (Voice.pitch_history st))%nat; [ | apply keeps_ret, Han ].
    eapply (keeps_bind _ _ _ (fun _ => True));
      [ apply keeps_lift; destruct (Voice.detect_vibrato _ _); exact I | ].
    intros vibrato_info _. apply keeps_ret.
    apply analysed_insert; [ discriminate .. | ].
    apply analysed_insert; [ discriminate .. | ]. exact Han.
  - intros results Hres. apply keeps_ret.
    assert (Hpitch : Py.get_float results "pitch" 0 = Voice.frequency pitch_info).
    { unfold Py.get_float. destruct Hres as (_ & -> & _). reflexivity. }
    assert (Hvc : active_fields
              (<["voice_confidence" :=
                   Py.VFloat (Voice.calculate_voice_confidence results)]> results)).
    { apply (analysed_active (Voice.frequency pitch_info) formants);
        [ exact Hf | | exact Hres ].
      intro Hpos. apply calculate_voice_confidence_floor. rewrite Hpitch. exact Hpos. }
    match goal with |- context [ if ?b then _ else _ ] => destruct b end;
      [ | exact Hvc ].
    rewrite insert_insert_eq.
    apply (analysed_active (Voice.frequency pitch_info) formants);
      [ exact Hf | intros _; lra | exact Hres ].
Qed.

Lemma detailed_voice_analysis_keeps (n : Z) (audio_frame : list Q) :
  keeps (voice_inv n)
        (Voice.detailed_voice_analysis yin_autocorr log2 log10 lpc_roots
           hnr_energies spectral_measure vibrato_measure audio_frame)
        (fun d => active_fields d \/ d = Voice.detailed_defaults false).
Proof.
  apply keeps_try_except_keeps; [ | right; reflexivity ].
  intros st Hst.
  destruct (detailed_voice_analysis_body_keeps n audio_frame st Hst) as [Hi Hr].
  split; [ exact Hi | ].
  destruct (snd _); [ left; exact Hr | exact I ].
Qed.

(** The skipped frames reuse the newest pitch of the history, which is
    positive. *)
Lemma last_pitch_positive (st : Voice.State) (p : Q) :
  voice_ok st ->
  List.last (map Some (Voice.pitch_history st)) None = Some p -> 0 < p.
Proof.
  intros [_ _ Hp _ _ _ _] Hl.
  induction (Voice.pitch_history st) as [| x [| y l] IH].
  - discriminate.
  - cbn in Hl. injection Hl as <-. inversion Hp; assumption.
  - apply IH; [ inversion Hp; assumption | exact Hl ].
Qed.

(** [detect_voice_realtime_body] after the frame counter is advanced. *)
Definition realtime_rest (audio_frame : list Q) : Voice.M (gmap string Py.value) :=
  let energy := frame_rms audio_frame in
  let results := <["vocal_energy" := Py.VFloat energy]> Voice.realtime_defaults in
  if Qltb energy (1 # 1000) then Voice.ret results
     else
       Voice.bind (Voice.quick_vad_check energy (vad_spectrum audio_frame))
         (fun vad_result : bool =>
            if vad_result then
              Voice.bind Voice.get_state (fun st =>
                if (Voice.frame_counter st `mod` Voice.analysis_frame_skip =? 0)%Z then
                  Voice.bind
                    (Voice.detailed_voice_analysis yin_autocorr log2 log10 lpc_roots
                       hnr_energies spectral_measure vibrato_measure audio_frame)
                    (fun detailed_results =>
                       Voice.ret (Py.update results detailed_results))
                else
                  let results := <["has_voice" := Py.VBool true]> results in
                  match List.last (map Some (Voice.pitch_history st)) None with
                  | Some p =>
                      let results := <["pitch" := Py.VFloat p]> results in
                      let results :=
                        <["voice_confidence" :=
                            Py.VFloat (pymin (7 # 10)
                              (pymax (3 # 10)
                                 (inject_Z (Z.of_nat (length (Voice.pitch_history st)))
                                  / 30)))]> results in
                      Voice.ret (<["voice_type" :=
                                     Py.VStr (Classifier.voice_type_name
                                                (Classifier.classify_voice_type p []))]>
                                   results)
                  | None => Voice.ret results
                  end)
            else Voice.ret results).

Lemma detect_voice_realtime_unfold (audio_frame : list Q) (st : Voice.State) :
  Voice.detect_voice_realtime frame_rms vad_spectrum yin_autocorr log2 log10
    lpc_roots hnr_energies spectral_measure vibrato_measure audio_frame st
  = Voice.try_except (realtime_rest audio_frame) Voice.realtime_defaults
      (Voice.incr_frame_counter st).
Proof. reflexivity. Qed.

Lemma realtime_rest_keeps (n : Z) (audio_frame : list Q) :
  keeps (voice_inv n) (realtime_rest audio_frame) voice_result_coherent.
Proof.
  unfold realtime_rest. cbv zeta.
  assert (Hinactive : voice_result_coherent
            (<["vocal_energy" := Py.VFloat (frame_rms audio_frame)]>
               Voice.realtime_defaults)).
  { right. exists (frame_rms audio_frame). reflexivity. }
  destruct (Qltb (frame_rms audio_frame) (1 # 1000)); [ apply keeps_ret, Hinactive | ].
  eapply keeps_bind; [ apply quick_vad_check_keeps | ].
  intros vad_result _.
  destruct vad_result; [ | apply keeps_ret, Hinactive ].
  eapply (keeps_bind _ _ _ voice_ok);
    [ apply keeps_get_state; intros st [Hok _]; exact Hok | ].
  intros st Hok.
  destruct (Voice.frame_counter st `mod` Voice.analysis_frame_skip =? 0)%Z.
  - eapply keeps_bind; [ apply detailed_voice_analysis_keeps | ].
    intros detailed [Hact | ->]; apply keeps_ret.
    + left. apply update_active, Hact.
    + right. exists (frame_rms audio_frame). apply update_detailed_defaults.
  - destruct (List.last (map Some (Voice.pitch_history st)) None) as [p |] eqn:Hlast;
      apply keeps_ret; left.
    + pose proof (last_pitch_positive st p Hok Hlast) as Hp.
      eexists p, _, _.
      rewrite lookup_insert_eq, !lookup_insert_ne by discriminate.
      rewrite lookup_insert_eq, !lookup_insert_ne by discriminate.
      rewrite lookup_insert_eq, !lookup_insert_ne by discriminate.
      rewrite lookup_insert_eq.
      repeat split; try reflexivity; try lra.
      * apply pymin_glb; [ lra | ].
        match goal with |- context [ pymax (3 # 10) ?x ] =>
          pose proof (pymax_ge_l (3 # 10) x) end. lra.
      * match goal with |- pymin ?a ?b <= _ => pose proof (pymin_le_l a b) end. lra.
      * intro Hu. apply voice_type_name_unknown, voice_type_unknown_iff in Hu. lra.
      * intros ->. lra.
    + exists 0, 0, "unknown".
      unfold Voice.realtime_defaults, Voice.detailed_defaults.
      rewrite lookup_insert_eq, !lookup_insert_ne by discriminate.
      rewrite !lookup_insert_eq, !lookup_insert_ne by discriminate.
      rewrite !lookup_insert_eq, !lookup_insert_ne by discriminate.
      rewrite !lookup_insert_eq.
      repeat split; try reflexivity; try lra.
Qed.

(** One call of the entry point. *)
Lemma detect_voice_realtime_step (n : Z) (audio_frame : list Q) (st : Voice.State) :
  voice_inv n st ->
  exists st' r,
    Voice.detect_voice_realtime frame_rms vad_spectrum yin_autocorr log2 log10
      lpc_roots hnr_energies spectral_measure vibrato_measure audio_frame st
    = (st', Py.Return r)
    /\ voice_inv (n + 1) st'
    /\ voice_result_coherent r.
Proof.
  intro Hst. rewrite detect_voice_realtime_unfold.
  apply (keeps_try_except (voice_inv (n + 1))).
  - apply realtime_rest_keeps.
  - right. exists 0. apply realtime_defaults_inactive.
  - apply voice_inv_incr, Hst.
Qed.

Lemma voice_run_ok (frames : list (list Q)) (n : Z) (st : Voice.State) :
  voice_inv n st ->
  let res := Voice.run frame_rms vad_spectrum yin_autocorr log2 log10 lpc_roots
               hnr_energies spectral_measure vibrato_measure st frames in
  voice_inv (n + Z.of_nat (length frames)) (fst res)
  /\ Forall (fun o => exists r, o = Py.Return r /\ voice_result_coherent r) (snd res).
Proof.
  cbv zeta. revert n st. induction frames as [| f rest IH]; intros n st Hst;
    cbn [Voice.run length].
  - cbn [fst snd]. rewrite Z.add_0_r. split; [ exact Hst | constructor ].
  - destruct (detect_voice_realtime_step n f st Hst) as (st' & r & -> & Hst' & Hr).
    specialize (IH (n + 1)%Z st' Hst').
    destruct (Voice.run _ _ _ _ _ _ _ _ _ st' rest) as [st'' os].
    cbn [fst snd] in *. destruct IH as [IH1 IH2]. split.
    + replace (n + Z.of_nat (S (length rest)))%Z
        with (n + 1 + Z.of_nat (length rest))%Z by lia.
      exact IH1.
    + constructor; [ exists r; auto | exact IH2 ].
Qed.

End VoiceRuns.

(** X14: over every run of [detect_voice_realtime] from the initial state,
    whatever the frames and whatever the numerical kernels do (failures
    included), every call returns a result that is coherent: either it
    reports voice, with a pitch that is not negative, a voice confidence
    in [0.3, 1] whenever the pitch is positive, and a voice type that is
    "unknown" exactly when the pitch is 0; or it is the inactive result
    (has_voice false, pitch 0, confidences 0, no formants, voice type
    "unknown"), so that no frame without voice carries values of an
    earlier analysis. *)
Theorem X14_voice_results_coherent
    (frame_rms : list Q -> Q) (vad_spectrum : list Q -> Voice.VadSpectrum)
    (yin_autocorr : list Q -> Py.outcome (list Q)) (log2 log10 : Q -> Q)
    (lpc_roots : list Q -> Py.outcome (list (Q * Q)))
    (hnr_energies : list Q -> Q -> Py.outcome (Q * Q))
    (spectral_measure : list Q -> Py.outcome Voice.SpectralMeasure)
    (vibrato_measure : list Q -> Py.outcome Voice.VibratoMeasure)
    (frames : list (list Q)) :
  Forall (fun o => exists r, o = Py.Return r /\ voice_result_coherent r)
         (snd (Voice.run frame_rms vad_spectrum yin_autocorr log2 log10 lpc_roots
                 hnr_energies spectral_measure vibrato_measure Voice.init frames)).
Proof.
  apply (voice_run_ok frame_rms vad_spectrum yin_autocorr log2 log10 lpc_roots
           hnr_energies spectral_measure vibrato_measure frames 0 Voice.init).
  apply voice_inv_init.
Qed.

(** X15: after every run of [detect_voice_realtime] from the initial
    state, whatever the kernels do, the detector state is bounded and
    clean: the hangover counter is within 0 .. 12; the pitch history holds
    at most 30 pitches, all positive; the HNR history at most 15 values,
    all in [0, 40]; the vocal-energy and spectral-feature histories at
    most 10 entries each; and the frame counter equals the number of
    calls, also counting the calls whose analysis failed. *)
Theorem X15_voice_state_bounded
    (frame_rms : list Q -> Q) (vad_spectrum : list Q -> Voice.VadSpectrum)
    (yin_autocorr : list Q -> Py.outcome (list Q)) (log2 log10 : Q -> Q)
    (lpc_roots : list Q -> Py.outcome (list (Q * Q)))
    (hnr_energies : list Q -> Q -> Py.outcome (Q * Q))
    (spectral_measure : list Q -> Py.outcome Voice.SpectralMeasure)
    (vibrato_measure : list Q -> Py.outcome Voice.VibratoMeasure)
    (frames : list (list Q)) :
  let st := fst (Voice.run frame_rms vad_spectrum yin_autocorr log2 log10 lpc_roots
                   hnr_energies spectral_measure vibrato_measure Voice.init frames) in
  (0 <= Voice.vad_counter st <= 12)%Z
  /\ (length (Voice.pitch_history st) <= 30)%nat
  /\ Forall (fun p => 0 < p) (Voice.pitch_history st)
  /\ (length (Voice.hnr_history st) <= 15)%nat
  /\ Forall (fun h => 0 <= h <= 40) (Voice.hnr_history st)
  /\ (length (Voice.vocal_energy_history st) <= 10)%nat
  /\ (length (Voice.spectral_features_history st) <= 10)%nat
  /\ Voice.frame_counter st = Z.of_nat (length frames).
Proof.
  cbv zeta.
  destruct (voice_run_ok frame_rms vad_spectrum yin_autocorr log2 log10 lpc_roots
              hnr_energies spectral_measure vibrato_measure frames 0 Voice.init
              voice_inv_init) as [[[H1 H2 H3 H4 H5 H6 H7] Hn] _].
  rewrite Z.add_0_l in Hn. auto 10.
Qed.

(** Frames below the energy floor only advance the frame counter. *)
Lemma quiet_run
    (frame_rms : list Q -> Q) (vad_spectrum : list Q -> Voice.VadSpectrum)
    (yin_autocorr : list Q -> Py.outcome (list Q)) (log2 log10 : Q -> Q)
    (lpc_roots : list Q -> Py.outcome (list (Q * Q)))
    (hnr_energies : list Q -> Q -> Py.outcome (Q * Q))
    (spectral_measure : list Q -> Py.outcome Voice.SpectralMeasure)
    (vibrato_measure : list Q -> Py.outcome Voice.VibratoMeasure)
    (frames : list (list Q)) (st : Voice.State) :
  Forall (fun f => frame_rms f < 1 # 1000) frames ->
  Voice.run frame_rms vad_spectrum yin_autocorr log2 log10 lpc_roots
    hnr_energies spectral_measure vibrato_measure st frames
  = ({| Voice.vad_counter := Voice.vad_counter st;
        Voice.vocal_energy_history := Voice.vocal_energy_history st;
        Voice.pitch_history := Voice.pitch_history st;
        Voice.hnr_history := Voice.hnr_history st;
        Voice.spectral_features_history := Voice.spectral_features_history st;
        Voice.frame_counter := (Voice.frame_counter st + Z.of_nat (length frames))%Z |},
     map (fun f => Py.Return (inactive_result (frame_rms f))) frames).
Proof.
  intro Hq. revert st. induction Hq as [| f rest Hf _ IH]; intro st;
    cbn [Voice.run length map].
  - rewrite Z.add_0_r. destruct st; reflexivity.
  - rewrite (detect_voice_realtime_quiet _ _ _ _ _ _ _ _ _ _ _ Hf).
    rewrite IH. cbn [Voice.incr_frame_counter Voice.vad_counter
      Voice.vocal_energy_history Voice.pitch_history Voice.hnr_history
      Voice.spectral_features_history Voice.frame_counter].
    replace (Voice.frame_counter st + 1 + Z.of_nat (length rest))%Z
      with (Voice.frame_counter st + Z.of_nat (S (length rest)))%Z by lia.
    reflexivity.
Qed.

(** X16: a run of frames whose RMS is below 0.001 changes nothing in the
    detector but the frame counter: every such frame gets the inactive
    result with its own RMS, the histories stay as they are, and the
    hangover counter is not consumed, so a hangover that was pending
    before the silence is still pending after it. *)
Theorem X16_quiet_frames_keep_hangover
    (frame_rms : list Q -> Q) (vad_spectrum : list Q -> Voice.VadSpectrum)
    (yin_autocorr : list Q -> Py.outcome (list Q)) (log2 log10 : Q -> Q)
    (lpc_roots : list Q -> Py.outcome (list (Q * Q)))
    (hnr_energies : list Q -> Q -> Py.outcome (Q * Q))
    (spectral_measure : list Q -> Py.outcome Voice.SpectralMeasure)
    (vibrato_measure : list Q -> Py.outcome Voice.VibratoMeasure)
    (frames : list (list Q)) (st : Voice.State) :
  Forall (fun f => frame_rms f < 1 # 1000) frames ->
  let res := Voice.run frame_rms vad_spectrum yin_autocorr log2 log10 lpc_roots
               hnr_energies spectral_measure vibrato_measure st frames in
  snd res = map (fun f => Py.Return (inactive_result (frame_rms f))) frames
  /\ Voice.vad_counter (fst res) = Voice.vad_counter st
  /\ Voice.vocal_energy_history (fst res) = Voice.vocal_energy_history st
  /\ Voice.pitch_history (fst res) = Voice.pitch_history st
  /\ Voice.hnr_history (fst res) = Voice.hnr_history st
  /\ Voice.frame_counter (fst res)
     = (Voice.frame_counter st + Z.of_nat (length frames))%Z.
Proof.
  intro Hq. cbv zeta.
  rewrite (quiet_run _ _ _ _ _ _ _ _ _ frames st Hq). cbn [fst snd].
  repeat split; reflexivity.
Qed.

Lemma X16_quiet_frames_keep_hangover_witness :
  Voice.vad_counter
    (fst (Voice.run (fun _ => 0) (fun _ => Voice.mkVadSpectrum 0 0 0 0 0)
            (fun _ => Py.Return []) (fun x => x) (fun x => x)
            (fun _ => Py.Return []) (fun _ _ => Py.Return (0, 0))
            (fun _ => Py.Raise (Py.Exception "ValueError"))
            (fun _ => Py.Raise (Py.Exception "ValueError"))
            (Voice.mkState 5 [] [] [] [] 0) [[0; 0]; [0; 0]; [0; 0]]))
  = 5%Z.
Proof.
  assert (Hq : Forall (fun f => (fun _ : list Q => 0) f < 1 # 1000)
                      [[0; 0]; [0; 0]; [0; 0]])
    by (repeat constructor).
  exact (proj1 (proj2 (X16_quiet_frames_keep_hangover (fun _ => 0)
           (fun _ => Voice.mkVadSpectrum 0 0 0 0 0)
           (fun _ => Py.Return []) (fun x => x) (fun x => x)
           (fun _ => Py.Return []) (fun _ _ => Py.Return (0, 0))
           (fun _ => Py.Raise (Py.Exception "ValueError"))
           (fun _ => Py.Raise (Py.Exception "ValueError"))
           [[0; 0]; [0; 0]; [0; 0]] (Voice.mkState 5 [] [] [] [] 0) Hq))).
Defined.

(** ** Decay of the displayed drum values *)

(** The factor left after [n] decays by [rate]. *)
Fixpoint decay_factor (rate : Q) (n : nat) : Q :=
  match n with
  | O => 1
  | S k => rate * decay_factor rate k
  end.

Lemma decay_factor_range (rate : Q) (n : nat) :
  0 <= rate <= 1 -> 0 <= decay_factor rate n <= 1.
Proof.
  intro Hr. induction n as [| n IH]; cbn [decay_factor]; [ lra | nra ].
Qed.

Lemma decay_factor_antitone (rate : Q) (n k : nat) :
  0 <= rate <= 1 -> decay_factor rate (k + n) <= decay_factor rate n.
Proof.
  intro Hr. induction k as [| k IH]; cbn [Nat.add decay_factor]; [ lra | ].
  pose proof (decay_factor_range rate (k + n) Hr). nra.
Qed.

(** A frame without kick, later than the hold time after the last
    detection, multiplies the displayed strength by 0.92 or resets it. *)
Lemma kick_step_decay (st : Kick.State) (t : Q) (m : list Q) :
  kick_ok st ->
  let st' := fst (Kick.detect_kick_onset st t m) in
  let r := snd (Kick.detect_kick_onset st t m) in
  Kick.r_kick_detected r = false ->
  Kick.last_detection_time st' = Kick.last_detection_time st
  /\ (Kick.hold_time < t - Kick.last_detection_time st ->
      Kick.display_strength st' <= (92 # 100) * Kick.display_strength st).
Proof.
  intro Hok. unfold Kick.detect_kick_onset.
  pose proof (calculate_band_flux_keeps st m
    (Kick.band_bin (Kick.sample_rate st) (fst Kick.sub_bass_range) (length m))
    (Kick.band_bin (Kick.sample_rate st) (snd Kick.sub_bass_range) (length m))
    Kick.Sub) as H1.
  destruct (Kick.calculate_band_flux st m _ _ Kick.Sub) as [st1 f1].
  pose proof (calculate_band_flux_keeps st1 m
    (Kick.band_bin (Kick.sample_rate st) (fst Kick.kick_body_range) (length m))
    (Kick.band_bin (Kick.sample_rate st) (snd Kick.kick_body_range) (length m))
    Kick.Body) as H2.
  destruct (Kick.calculate_band_flux st1 m _ _ Kick.Body) as [st2 f2].
  pose proof (calculate_band_flux_keeps st2 m
    (Kick.band_bin (Kick.sample_rate st) (fst Kick.kick_click_range) (length m))
    (Kick.band_bin (Kick.sample_rate st) (snd Kick.kick_click_range) (length m))
    Kick.Click) as H3.
  destruct (Kick.calculate_band_flux st2 m _ _ Kick.Click) as [st3 f3].
  cbn [fst snd] in H1, H2, H3.
  destruct H1 as (_ & _ & _ & Hd1 & _ & Ht1 & _).
  destruct H2 as (_ & _ & _ & Hd2 & _ & Ht2 & _).
  destruct H3 as (_ & _ & _ & Hd3 & _ & Ht3 & _).
  assert (Hdisp : Kick.display_strength st3 = Kick.display_strength st) by congruence.
  assert (Htime : Kick.last_detection_time st3 = Kick.last_detection_time st)
    by congruence.
  destruct Hok as [_ _ _ _ _ _ _ [Kd0 Kd1] _].
  cbv zeta.
  match goal with
  | |- context [ if ?d && Qltb 0 _ then _ else _ ] => set (det := d)
  end.
  clearbody det. destruct det.
  - match goal with
    | |- context [ if ?c then (?a, ?b) else ?e ] =>
        destruct (if c then (a, b) else e) as [ds dv]
    end.
    cbn [snd Kick.r_kick_detected]. discriminate.
  - cbn [andb Kick.set_prev_magnitude Kick.last_detection_time Kick.display_strength
         Kick.display_velocity].
    rewrite Hdisp, Htime. intros _.
    case_Qltb Kick.hold_time (t - Kick.last_detection_time st).
    + case_Qltb (Kick.display_strength st * Kick.decay_rate) (5 # 100);
        cbn [fst Kick.last_detection_time Kick.display_strength];
        (split; [ reflexivity | intros _; unfold Kick.decay_rate in *; lra ]).
    + case_Qltb (Kick.display_strength st) (5 # 100);
        cbn [fst Kick.last_detection_time Kick.display_strength];
        (split; [ reflexivity | intro; lra ]).
Qed.

Lemma snare_step_decay (st : Snare.State) (t : Q) (m : list Q) :
  snare_ok st ->
  let st' := fst (Snare.detect_snare_onset st t m) in
  let r := snd (Snare.detect_snare_onset st t m) in
  Snare.r_snare_detected r = false ->
  Snare.last_detection_time st' = Snare.last_detection_time st
  /\ (Snare.hold_time < t - Snare.last_detection_time st ->
      Snare.display_strength st' <= (90 # 100) * Snare.display_strength st).
Proof.
  intros [_ _ _ _ _ _ [Kd0 Kd1] _]. unfold Snare.detect_snare_onset.
  destruct (Snare.calculate_multi_band_flux _ _ m) as [[[f1 f2] f3] f4].
  cbv zeta.
  match goal with
  | |- context [ if ?d && Qltb 0 _ then _ else _ ] => set (det := d)
  end.
  clearbody det. destruct det.
  - match goal with
    | |- context [ if ?c then (?a, ?b) else ?e ] =>
        destruct (if c then (a, b) else e) as [ds dv]
    end.
    cbn [snd Snare.r_snare_detected]. discriminate.
  - cbn [andb]. intros _.
    case_Qltb Snare.hold_time (t - Snare.last_detection_time st).
    + case_Qltb (Snare.display_strength st * Snare.decay_rate) (5 # 100);
        cbn [fst Snare.last_detection_time Snare.display_strength];
        (split; [ reflexivity | intros _; unfold Snare.decay_rate in *; lra ]).
    + case_Qltb (Snare.display_strength st) (5 # 100);
        cbn [fst Snare.last_detection_time Snare.display_strength];
        (split; [ reflexivity | intro; lra ]).
Qed.

(** A stretch of frames without detection, all later than the hold time
    after the last detection. *)
Definition kick_idle (st : Kick.State) (frames : list (Q * list Q)) : Prop :=
  Forall (fun tr => Kick.r_kick_detected (snd tr) = false
                    /\ Kick.hold_time < fst tr - Kick.last_detection_time st)
         (Kick.run st frames).

Definition snare_idle (st : Snare.State) (frames : list (Q * list Q)) : Prop :=
  Forall (fun tr => Snare.r_snare_detected (snd tr) = false
                    /\ Snare.hold_time < fst tr - Snare.last_detection_time st)
         (Snare.run st frames).

Lemma kick_idle_decay (frames : list (Q * list Q)) (st : Kick.State) :
  kick_ok st -> kick_idle st frames ->
  let st' := kick_final st frames in
  kick_ok st'
  /\ Kick.display_strength st'
     <= decay_factor (92 # 100) (length frames) * Kick.display_strength st
  /\ (frames <> [] ->
      (Kick.display_strength st' = 0 \/ 5 # 100 <= Kick.display_strength st')
      /\ (Kick.display_strength st' = 0 -> Kick.display_velocity st' = 0%Z)).
Proof.
  cbv zeta. revert st. induction frames as [| [t m] rest IH]; intros st Hok Hidle.
  - cbn [kick_final length decay_factor]. split; [ exact Hok | ].
    split; [ lra | congruence ].
  - unfold kick_idle in Hidle. cbn [Kick.run kick_final length decay_factor] in *.
    pose proof (kick_step_ok st t m Hok) as Hstep.
    pose proof (kick_step_decay st t m Hok) as Hdec.
    destruct (Kick.detect_kick_onset st t m) as [st1 r1].
    cbn [fst snd] in *.
    inversion Hidle as [| ? ? [Hund Hhold] Hrest]; subst. cbn [fst snd] in *.
    destruct Hstep as (Hok1 & _ & _ & _ & _ & _ & _ & _ & Hun).
    destruct (Hun Hund) as (Hle & _ & Hzero & Hvel).
    destruct (Hdec Hund) as [Htime Hfac]. specialize (Hfac Hhold).
    assert (Hidle1 : kick_idle st1 rest).
    { unfold kick_idle. rewrite Htime. exact Hrest. }
    destruct (IH st1 Hok1 Hidle1) as (Hok' & Hbound & Hlast).
    split; [ exact Hok' | ]. split.
    + pose proof (decay_factor_range (92 # 100) (length rest) ltac:(lra)) as Hr.
      destruct Hok1 as [_ _ _ _ _ _ _ [K0 K1] _].
      destruct Hok as [_ _ _ _ _ _ _ [K2 K3] _]. nra.
    + intros _. destruct rest as [| fr rest'].
      * cbn [kick_final]. split; assumption.
      * apply Hlast. discriminate.
Qed.

Lemma snare_idle_decay (frames : list (Q * list Q)) (st : Snare.State) :
  snare_ok st -> snare_idle st frames ->
  let st' := snare_final st frames in
  snare_ok st'
  /\ Snare.display_strength st'
     <= decay_factor (90 # 100) (length frames) * Snare.display_strength st
  /\ (frames <> [] ->
      (Snare.display_strength st' = 0 \/ 5 # 100 <= Snare.display_strength st')
      /\ (Snare.display_strength st' = 0 -> Snare.display_velocity st' = 0%Z)).
Proof.
  cbv zeta. revert st. induction frames as [| [t m] rest IH]; intros st Hok Hidle.
  - cbn [snare_final length decay_factor]. split; [ exact Hok | ].
    split; [ lra | congruence ].
  - unfold snare_idle in Hidle. cbn [Snare.run snare_final length decay_factor] in *.
    pose proof (snare_step_ok st t m Hok) as Hstep.
    pose proof (snare_step_decay st t m Hok) as Hdec.
    destruct (Snare.detect_snare_onset st t m) as [st1 r1].
    cbn [fst snd] in *.
    inversion Hidle as [| ? ? [Hund Hhold] Hrest]; subst. cbn [fst snd] in *.
    destruct Hstep as (Hok1 & _ & _ & Hun).
    destruct (Hun Hund) as (Hle & _ & Hzero & Hvel).
    destruct (Hdec Hund) as [Htime Hfac]. specialize (Hfac Hhold).
    assert (Hidle1 : snare_idle st1 rest).
    { unfold snare_idle. rewrite Htime. exact Hrest. }
    destruct (IH st1 Hok1 Hidle1) as (Hok' & Hbound & Hlast).
    split; [ exact Hok' | ]. split.
    + pose proof (decay_factor_range (90 # 100) (length rest) ltac:(lra)) as Hr.
      destruct Hok1 as [_ _ _ _ _ _ [K0 K1] _].
      destruct Hok as [_ _ _ _ _ _ [K2 K3] _]. nra.
    + intros _. destruct rest as [| fr rest'].
      * cbn [snare_final]. split; assumption.
      * apply Hlast. discriminate.
Qed.

(** X17: once the hold time after the last detection has passed, the
    displayed strength of a detector (sensitivity not negative) is back to
    exactly 0, and the displayed velocity with it, after 36 frames
    without a kick, and after 29 frames without a snare: every such frame
    multiplies the strength by 0.92 (kick) or 0.90 (snare), a strength
    below 0.05 is reset to 0, and the strength never exceeds 1. *)
Theorem X17_display_decays_to_zero (sr : Z) (sens : Q)
    (before frames : list (Q * list Q)) :
  0 <= sens ->
  (kick_idle (kick_final (Kick.init sr sens) before) frames ->
   (36 <= length frames)%nat ->
   let st := kick_final (kick_final (Kick.init sr sens) before) frames in
   Kick.display_strength st = 0 /\ Kick.display_velocity st = 0%Z)
  /\ (snare_idle (snare_final (Snare.init sr sens) before) frames ->
      (29 <= length frames)%nat ->
      let st := snare_final (snare_final (Snare.init sr sens) before) frames in
      Snare.display_strength st = 0 /\ Snare.display_velocity st = 0%Z).
Proof.
  intro Hs. split.
  - intros Hidle Hlen. cbv zeta.
    assert (Hok : kick_ok (kick_final (Kick.init sr sens) before))
      by (apply (kick_run_ok before), kick_ok_init, Hs).
    destruct (kick_idle_decay frames _ Hok Hidle) as (_ & Hbound & Hlast).
    destruct (Hlast ltac:(destruct frames; [ cbn in Hlen; lia | discriminate ]))
      as [[H0 | H5] Hvel]; [ split; [ exact H0 | apply Hvel, H0 ] | exfalso ].
    destruct Hok as [_ _ _ _ _ _ _ [K0 K1] _].
    pose proof (decay_factor_antitone (92 # 100) 36 (length frames - 36) ltac:(lra)) as Ha.
    replace (length frames - 36 + 36)%nat with (length frames) in Ha by lia.
    pose proof (decay_factor_range (92 # 100) (length frames) ltac:(lra)) as Hr.
    assert (H36 : decay_factor (92 # 100) 36 < 5 # 100) by (vm_compute; reflexivity).
    nra.
  - intros Hidle Hlen. cbv zeta.
    assert (Hok : snare_ok (snare_final (Snare.init sr sens) before))
      by (apply (snare_run_ok before), snare_ok_init, Hs).
    destruct (snare_idle_decay frames _ Hok Hidle) as (_ & Hbound & Hlast).
    destruct (Hlast ltac:(destruct frames; [ cbn in Hlen; lia | discriminate ]))
      as [[H0 | H5] Hvel]; [ split; [ exact H0 | apply Hvel, H0 ] | exfalso ].
    destruct Hok as [_ _ _ _ _ _ [K0 K1] _].
    pose proof (decay_factor_antitone (90 # 100) 29 (length frames - 29) ltac:(lra)) as Ha.
    replace (length frames - 29 + 29)%nat with (length frames) in Ha by lia.
    pose proof (decay_factor_range (90 # 100) (length frames) ltac:(lra)) as Hr.
    assert (H29 : decay_factor (90 # 100) 29 < 5 # 100) by (vm_compute; reflexivity).
    nra.
Qed.

(** After the kick of [onset_run] at second 11: 36 more frames with the
    same spectrum, one per second. *)
Definition decay_frames : list (Q * list Q) :=
  map (fun i => (inject_Z (Z.of_nat i), onset_magnitude)) (seq 12 36).

Lemma X17_display_decays_to_zero_witness :
  Kick.display_strength
    (kick_final (kick_final (Kick.init SAMPLE_RATE 1) onset_run) decay_frames) = 0.
Proof.
  assert (Hs : 0 <= 1) by lra.
  assert (Hidle : kick_idle (kick_final (Kick.init SAMPLE_RATE 1) onset_run) decay_frames).
  { unfold kick_idle. apply Forall_forall. intros tr Hin.
    assert (Hb : forallb
                   (fun tr => negb (Kick.r_kick_detected (snd tr))
                              && Qltb Kick.hold_time
                                   (fst tr - Kick.last_detection_time
                                               (kick_final (Kick.init SAMPLE_RATE 1)
                                                  onset_run)))
                   (Kick.run (kick_final (Kick.init SAMPLE_RATE 1) onset_run)
                      decay_frames) = true)
      by (vm_compute; reflexivity).
    rewrite forallb_forall in Hb. specialize (Hb tr Hin).
    apply andb_true_iff in Hb as [H1 H2]. apply negb_true_iff in H1.
    apply Qltb_lt in H2. split; assumption. }
  assert (Hlen : (36 <= length decay_frames)%nat) by (vm_compute; lia).
  exact (proj1 (proj1 (X17_display_decays_to_zero SAMPLE_RATE 1 onset_run decay_frames Hs)
                  Hidle Hlen)).
Defined.

(** ** Looking up the bar of a frequency *)

(** The frequency lies in the range of bar [i], which has bins. *)
Definition bar_holds (band_indices : list (list nat)) (target_freq : Q) (i : nat) : Prop :=
  (exists indices, nth_error band_indices i = Some indices /\ indices <> [])
  /\ fst (Bars.get_frequency_range_for_bar band_indices i) <= target_freq
  /\ target_freq <= snd (Bars.get_frequency_range_for_bar band_indices i).

(** The second test of the loop, "nearer to the centre than half the
    width", holds only for frequencies inside the range. *)
Lemma near_centre_inside (lo hi t : Q) :
  Qabs (t - (lo + hi) / 2) < (hi - lo) / 2 -> lo < t < hi.
Proof.
  intro H. apply Qabs_Qlt_condition in H. destruct H as [H1 H2].
  assert (E1 : (lo + hi) / 2 == lo / 2 + hi / 2) by field.
  assert (E2 : (hi - lo) / 2 == hi / 2 - lo / 2) by field.
  rewrite E1, E2 in H1, H2.
  assert (E3 : lo == lo / 2 + lo / 2) by field.
  assert (E4 : hi == hi / 2 + hi / 2) by field.
  set (l := lo / 2) in *. set (h := hi / 2) in *. split; lra.
Qed.

Lemma find_from_spec (band_indices : list (list nat)) (target_freq : Q)
    (bands : list (list nat)) (i : nat) :
  (forall j, nth_error bands j = nth_error band_indices (i + j)) ->
  match BarLookup.find_from band_indices bands i target_freq with
  | Some k =>
      (i <= k)%nat /\ bar_holds band_indices target_freq k
      /\ forall j, (i <= j < k)%nat -> ~ bar_holds band_indices target_freq j
  | None => forall j, (i <= j)%nat -> ~ bar_holds band_indices target_freq j
  end.
Proof.
  revert i. induction bands as [| indices rest IH]; intros i Hnth;
    cbn [BarLookup.find_from].
  - intros j Hj [(ix & Hix & _) _].
    specialize (Hnth (j - i)%nat). replace (i + (j - i))%nat with j in Hnth by lia.
    rewrite Hix in Hnth. destruct (j - i)%nat; discriminate.
  - assert (Hhere : nth_error band_indices i = Some indices).
    { specialize (Hnth 0%nat). rewrite Nat.add_0_r in Hnth. symmetry. exact Hnth. }
    assert (Hrest : forall j, nth_error rest j = nth_error band_indices (S i + j)).
    { intro j. specialize (Hnth (S j)). cbn [nth_error] in Hnth.
      rewrite Hnth. f_equal. lia. }
    specialize (IH (S i) Hrest).
    assert (Hskip : ~ bar_holds band_indices target_freq i ->
              match BarLookup.find_from band_indices rest (S i) target_freq with
              | Some k =>
                  (i <= k)%nat /\ bar_holds band_indices target_freq k
                  /\ forall j, (i <= j < k)%nat -> ~ bar_holds band_indices target_freq j
              | None => forall j, (i <= j)%nat -> ~ bar_holds band_indices target_freq j
              end).
    { intro Hno.
      destruct (BarLookup.find_from band_indices rest (S i) target_freq) as [k |].
      - destruct IH as (Hk & Hholds & Hfirst). split; [ lia | ].
        split; [ exact Hholds | ].
        intros j Hj. destruct (Nat.eq_dec j i) as [-> | Hne]; [ exact Hno | ].
        apply Hfirst. lia.
      - intros j Hj. destruct (Nat.eq_dec j i) as [-> | Hne]; [ exact Hno | ].
        apply IH. lia. }
    destruct indices as [| k0 ks].
    + apply Hskip. intros [(ix & Hix & Hne) _]. congruence.
    + cbv zeta.
      set (r := Bars.get_frequency_range_for_bar band_indices i) in *.
      case_Qleb (fst r) target_freq; case_Qleb target_freq (snd r); cbn [andb].
      * split; [ lia | ]. split; [ | intros j Hj; lia ].
        split; [ exists (k0 :: ks); split; [ exact Hhere | discriminate ] | ].
        split; assumption.
      * case_Qltb (Qabs (target_freq - (fst r + snd r) / 2)) ((snd r - fst r) / 2).
        -- apply near_centre_inside in Hcmp1. lra.
        -- apply Hskip. intros (_ & _ & H2). fold r in H2. lra.
      * case_Qltb (Qabs (target_freq - (fst r + snd r) / 2)) ((snd r - fst r) / 2).
        -- apply near_centre_inside in Hcmp1. lra.
        -- apply Hskip. intros (_ & H1 & _). fold r in H1. lra.
      * case_Qltb (Qabs (target_freq - (fst r + snd r) / 2)) ((snd r - fst r) / 2).
        -- apply near_centre_inside in Hcmp1. lra.
        -- apply Hskip. intros (_ & H1 & _). fold r in H1. lra.
Qed.

(** X18: [find_bar_position_for_frequency] returns the first bar, among
    the bars that have bins, whose frequency range holds the frequency,
    and None exactly when no such bar exists.  The second test of its
    loop, on the distance to the centre of the range, never selects a
    bar: it can only hold for a frequency inside the range, which the
    first test has already accepted. *)
Theorem X18_find_bar_position (band_indices : list (list nat)) (target_freq : Q) :
  match BarLookup.find_bar_position_for_frequency band_indices target_freq with
  | Some k =>
      bar_holds band_indices target_freq k
      /\ forall j, (j < k)%nat -> ~ bar_holds band_indices target_freq j
  | None => forall j, ~ bar_holds band_indices target_freq j
  end.
Proof.
  unfold BarLookup.find_bar_position_for_frequency.
  pose proof (find_from_spec band_indices target_freq band_indices 0
                ltac:(intro j; reflexivity)) as H.
  destruct (BarLookup.find_from band_indices band_indices 0 target_freq) as [k |].
  - destruct H as (_ & Hholds & Hfirst). split; [ exact Hholds | ].
    intros j Hj. apply Hfirst. lia.
  - intro j. apply H. lia.
Qed.
